(** * Audio splitting utilities: interval arithmetic, timestamp CSV and
      input-file inference

    Shallow embedding of [split_audio_by_silence.py] and
    [split_audio_by_csv.py], and the properties of their specification. *)

From Stdlib Require Import ZArith List Bool Lia String Ascii DecimalPos DecimalN.
Import ListNotations.
Local Open Scope Z_scope.

(** ** Python floats

    A Python [float] is an IEEE-754 binary64 number.  Every finite binary64
    value is an integer multiple of [2^-1074] (the smallest subnormal), so a
    finite float is represented exactly by that integer: [Fin k] stands for
    [k * 2^-1074].  The two zeros, which compare equal in Python, are both
    [Fin 0].  Arithmetic computes the exact rational result and rounds it to
    53 significant bits, ties to even, as the hardware does. *)

Module Float64.

Inductive float : Type :=
| NaN
| Inf (neg : bool)
| Fin (k : Z).

(** Number of quanta in [1.0], and the first magnitude that overflows
    ([2^1024] in quanta). *)
Definition unit_scale : Z := 2 ^ 1074.
Definition overflow_bound : Z := 2 ^ 2098.

(** [rne_div p q]: the integer nearest to [p / q], ties to the even one
    ([q] positive). *)
Definition rne_div (p q : Z) : Z :=
  let a := p / q in
  match 2 * (p mod q) ?= q with
  | Lt => a
  | Gt => a + 1
  | Eq => if Z.even a then a else a + 1
  end.

(** Number of low-order bits a magnitude of [a] quanta loses when it is kept
    to 53 significant bits. *)
Definition excess_bits (a : Z) : Z := Z.max 0 (Z.log2 a - 52).

(** [round_to sh p q]: [p / q] rounded to the nearest multiple of [2^sh]. *)
Definition round_to (sh p q : Z) : Z := rne_div p (q * 2 ^ sh) * 2 ^ sh.

(** [p / q] rounded to 53 significant bits, before the overflow test. *)
Definition nearest53 (p q : Z) : Z :=
  round_to (excess_bits (Z.abs p / q)) p q.

(** [round53 p q]: the binary64 number nearest to [p / q] quanta. *)
Definition round53 (p q : Z) : float :=
  let r := nearest53 p q in
  if overflow_bound <=? Z.abs r then Inf (p <? 0) else Fin r.

Definition zero : float := Fin 0.

(** A float that the format really contains: rounding leaves it alone. *)
Definition representable (x : float) : bool :=
  match x with
  | Fin k =>
      match round53 k 1 with
      | Fin k' => k =? k'
      | _ => false
      end
  | _ => true
  end.

Definition is_nan (x : float) : bool :=
  match x with NaN => true | _ => false end.

(** Comparisons: every comparison with [NaN] is false. *)
Definition ltb (x y : float) : bool :=
  match x, y with
  | NaN, _ | _, NaN => false
  | Inf true, Inf true => false
  | Inf true, _ => true
  | _, Inf true => false
  | Inf false, _ => false
  | _, Inf false => true
  | Fin a, Fin b => a <? b
  end.

Definition leb (x y : float) : bool :=
  match x, y with
  | NaN, _ | _, NaN => false
  | Inf true, _ => true
  | _, Inf true => false
  | _, Inf false => true
  | Inf false, _ => false
  | Fin a, Fin b => a <=? b
  end.

Definition gtb (x y : float) : bool := ltb y x.
Definition geb (x y : float) : bool := leb y x.

(** Python's [x - y]. *)
Definition sub (x y : float) : float :=
  match x, y with
  | NaN, _ | _, NaN => NaN
  | Inf s1, Inf s2 => if Bool.eqb s1 s2 then NaN else Inf s1
  | Inf s, Fin _ => Inf s
  | Fin _, Inf s => Inf (negb s)
  | Fin a, Fin b => round53 (a - b) 1
  end.

(** Python's builtin [max(x, y)] on two arguments: the first one is kept
    unless the second compares greater. *)
Definition pymax (x y : float) : float := if gtb y x then y else x.

(** The number of thousandths nearest to a finite value (ties to even on the
    exact binary value): the digits that [round(x, 3)] and ["{:.3f}"]
    both produce. *)
Definition millis (k : Z) : Z := rne_div (1000 * k) unit_scale.

(** The float nearest to [n] thousandths. *)
Definition of_millis (n : Z) : float := round53 (n * unit_scale) 1000.

(** Python's [round(x, 3)]: the value is rounded to a decimal string with
    three digits after the point, which is converted back to the nearest
    float; infinities and [NaN] round to themselves. *)
Definition round3 (x : float) : float :=
  match x with
  | Fin k => of_millis (millis k)
  | _ => x
  end.

End Float64.
Import Float64.

Declare Scope float_scope.
Delimit Scope float_scope with float.
Notation "x <? y" := (ltb x y) : float_scope.
Notation "x <=? y" := (leb x y) : float_scope.
Notation "x >? y" := (gtb x y) : float_scope.
Notation "x >=? y" := (geb x y) : float_scope.
Notation "x - y" := (sub x y) : float_scope.

(** The literal [0.01], and the number of quanta it holds. *)
Definition c001 : float := round53 unit_scale 100.

Definition c001_quanta : Z :=
  match c001 with Fin k => k | _ => 0 end.

(** ** Python text: [str] methods, number formatting and [float(str)]

    A text is a Rocq string whose characters stand for the code points
    below 256 (ASCII and Latin-1); texts with other characters are outside
    the model. *)

Module PyText.
Local Open Scope string_scope.

Definition code (c : ascii) : N := N_of_ascii c.

(** The double quote. *)
Definition DQUOTE : ascii := ascii_of_N 34.

(** [str.isspace] below 256: tab to carriage return, the four separators
    [0x1c]-[0x1f], the space, the next-line control [0x85] and the
    no-break space [0xa0].  [str.strip], [float] and the [\s] of [re] all
    go by it. *)
Definition is_space (c : ascii) : bool :=
  (((9 <=? code c) && (code c <=? 13)) || ((28 <=? code c) && (code c <=? 32))
   || (code c =? 133) || (code c =? 160))%N.

Fixpoint lstrip (s : string) : string :=
  match s with
  | String c r => if is_space c then lstrip r else s
  | EmptyString => EmptyString
  end.

Fixpoint rstrip (s : string) : string :=
  match s with
  | String c r =>
      match rstrip r with
      | EmptyString => if is_space c then EmptyString else String c EmptyString
      | r' => String c r'
      end
  | EmptyString => EmptyString
  end.

(** [str.strip()] *)
Definition strip (s : string) : string := rstrip (lstrip s).

(** The capitals below 256: [A]-[Z], and [0xc0]-[0xde] but for the
    multiplication sign [0xd7]. *)
Definition lower_char (c : ascii) : ascii :=
  if (((65 <=? code c) && (code c <=? 90))
      || ((192 <=? code c) && (code c <=? 222) && negb (code c =? 215)))%N
  then ascii_of_N (code c + 32) else c.

(** [str.lower()] *)
Fixpoint lower (s : string) : string :=
  match s with
  | String c r => String (lower_char c) (lower r)
  | EmptyString => EmptyString
  end.

Fixpoint take (n : nat) (s : string) : string :=
  match n, s with
  | S n', String c r => String c (take n' r)
  | _, _ => EmptyString
  end.

(** [s.endswith(suffix)] *)
Definition endswith (s suffix : string) : bool :=
  (length suffix <=? length s)%nat
  && (substring (length s - length suffix) (length suffix) s =? suffix).

(** [s[:-n]] for a positive [n]: all but the last [n] characters, and the
    empty string when there are no more than [n]. *)
Definition drop_last (n : nat) (s : string) : string := take (length s - n) s.

(** *** Decimal digits *)

Definition digit_of (c : ascii) : option N :=
  if ((48 <=? code c) && (code c <=? 57))%N then Some (code c - 48)%N else None.

Definition digit_char (d : N) : ascii := ascii_of_N (48 + d).

(** The decimal digits of a natural number, without leading zeros
    (["0"] for zero). *)
Fixpoint uint_digits (d : Decimal.uint) : string :=
  match d with
  | Decimal.Nil => ""
  | Decimal.D0 d => String "0" (uint_digits d)
  | Decimal.D1 d => String "1" (uint_digits d)
  | Decimal.D2 d => String "2" (uint_digits d)
  | Decimal.D3 d => String "3" (uint_digits d)
  | Decimal.D4 d => String "4" (uint_digits d)
  | Decimal.D5 d => String "5" (uint_digits d)
  | Decimal.D6 d => String "6" (uint_digits d)
  | Decimal.D7 d => String "7" (uint_digits d)
  | Decimal.D8 d => String "8" (uint_digits d)
  | Decimal.D9 d => String "9" (uint_digits d)
  end.

Definition decimal (n : N) : string := uint_digits (N.to_uint n).

(** Three digits, zero padded, of a number below 1000. *)
Definition pad3 (n : N) : string :=
  String (digit_char (n / 100))
    (String (digit_char ((n / 10) mod 10))
       (String (digit_char (n mod 10)) "")).

(** ["{:.3f}".format(x)]: the value rounded to thousandths (ties to even on
    the exact binary value), written with exactly three fractional digits. *)
Definition format_3f (x : float) : string :=
  match x with
  | NaN => "nan"
  | Inf false => "inf"
  | Inf true => "-inf"
  | Fin k =>
      let n := Z.to_N (Z.abs (millis k)) in
      (if (k <? 0)%Z then "-" else "")
        ++ decimal (n / 1000) ++ "." ++ pad3 (n mod 1000)
  end.

(** *** [float(str)]

    The grammar of the Python reference:
    [floatvalue ::= [sign] (floatnumber | "inf" | "infinity" | "nan")],
    [floatnumber ::= number [exponent]],
    [number ::= [digitpart] "." digitpart | digitpart ["."]],
    [digitpart ::= digit (["_"] digit)*],
    [exponent ::= ("e" | "E") [sign] digitpart],
    surrounded by optional white space, letters in either case. *)

(** The rest of a [digitpart] after its first digit.  [acc] is the number
    read so far and [cnt] how many digits it has; the result carries the
    unread text.  An underscore that no digit follows is an error. *)
Fixpoint digits_tail (s : string) (acc : N) (cnt : Z) : option (N * Z * string) :=
  match s with
  | String c r =>
      match digit_of c with
      | Some d => digits_tail r (10 * acc + d)%N (cnt + 1)%Z
      | None =>
          if (c =? "_")%char then
            match r with
            | String c' r' =>
                match digit_of c' with
                | Some d => digits_tail r' (10 * acc + d)%N (cnt + 1)%Z
                | None => None
                end
            | EmptyString => None
            end
          else Some (acc, cnt, s)
      end
  | EmptyString => Some (acc, cnt, s)
  end.

Definition digitpart (s : string) (acc : N) (cnt : Z) : option (N * Z * string) :=
  match s with
  | String c r =>
      match digit_of c with
      | Some d => digits_tail r (10 * acc + d)%N (cnt + 1)%Z
      | None => None
      end
  | EmptyString => None
  end.

(** [number]: all the digits read as one natural number, how many of them
    follow the point, and the unread text. *)
Definition number (s : string) : option (N * Z * string) :=
  match s with
  | String "." r => digitpart r 0%N 0%Z
  | _ =>
      match digitpart s 0%N 0%Z with
      | Some (i, _, String "." r) =>
          match digitpart r i 0%Z with
          | Some res => Some res
          | None => Some (i, 0%Z, r)
          end
      | Some (i, _, rest) => Some (i, 0%Z, rest)
      | None => None
      end
  end.

(** An optional sign and what follows it. *)
Definition split_sign (s : string) : bool * string :=
  match s with
  | String "-" r => (true, r)
  | String "+" r => (false, r)
  | _ => (false, s)
  end.

(** [exponent], which must end the text; no exponent counts as zero. *)
Definition exponent (s : string) : option Z :=
  match s with
  | EmptyString => Some 0%Z
  | String c r =>
      if ((c =? "e") || (c =? "E"))%char then
        let '(neg, r) := split_sign r in
        match digitpart r 0%N 0%Z with
        | Some (x, _, EmptyString) => Some (if neg then - Z.of_N x else Z.of_N x)%Z
        | _ => None
        end
      else None
  end.

(** The float nearest to [(-1)^neg * d * 10^x]. *)
Definition of_decimal (neg : bool) (d : N) (x : Z) : float :=
  let m := ((if neg then - Z.of_N d else Z.of_N d) * unit_scale)%Z in
  if (0 <=? x)%Z then round53 (m * 10 ^ x) 1 else round53 m (10 ^ (- x)).

(** The text after the sign. *)
Definition absfloatvalue (neg : bool) (body : string) : option float :=
  let low := lower body in
  if (low =? "inf") || (low =? "infinity") then Some (Inf neg)
  else if low =? "nan" then Some NaN
  else
    match number body with
    | Some (d, f, rest) =>
        match exponent rest with
        | Some x => Some (of_decimal neg d (x - f))
        | None => None
        end
    | None => None
    end.

(** [float(s)]; [None] stands for [ValueError]. *)
Definition py_float (s : string) : option float :=
  let '(neg, body) := split_sign (strip s) in
  absfloatvalue neg body.

(** The number that a digit sequence denotes after the digits [acc]. *)
Fixpoint uint_val (acc : N) (d : Decimal.uint) : N :=
  match d with
  | Decimal.Nil => acc
  | Decimal.D0 d => uint_val (10 * acc) d
  | Decimal.D1 d => uint_val (10 * acc + 1) d
  | Decimal.D2 d => uint_val (10 * acc + 2) d
  | Decimal.D3 d => uint_val (10 * acc + 3) d
  | Decimal.D4 d => uint_val (10 * acc + 4) d
  | Decimal.D5 d => uint_val (10 * acc + 5) d
  | Decimal.D6 d => uint_val (10 * acc + 6) d
  | Decimal.D7 d => uint_val (10 * acc + 7) d
  | Decimal.D8 d => uint_val (10 * acc + 8) d
  | Decimal.D9 d => uint_val (10 * acc + 9) d
  end%N.

Fixpoint all_chars (f : ascii -> bool) (s : string) : bool :=
  match s with
  | String c r => f c && all_chars f r
  | EmptyString => true
  end.

Definition is_digit (c : ascii) : bool :=
  match digit_of c with Some _ => true | None => false end.

(** Characters of a number written by [format_3f]: no white space, no
    comma, no quote, no line ending. *)
Definition token_char (c : ascii) : bool :=
  negb (is_space c) && negb ((c =? ",") || (c =? DQUOTE))%char.

(** The float that a decimal literal with [places] digits after the point
    denotes: [dec 55 1] is [5.5]. *)
Definition dec (digits : N) (places : Z) : float :=
  of_decimal false digits (- places).

End PyText.
Import PyText.

(** A time interval [(start, end)], in seconds. *)
Definition interval : Type := float * float.

Local Open Scope float_scope.

(** ** Effects

    A command line is a list of arguments; the two numbers that
    [export_segment] passes through [str] are kept as floats. *)

Inductive arg : Type :=
| Lit (s : string)
| Num (x : float).

(** A run leaves a trace of events and either returns
    or ends the process through [sys.exit] or an uncaught exception. *)

Record path : Type := { parent : string; name : string }.

Inductive message : Type :=
| MsgFileMissing (p : path)
| MsgRead (n : nat)
| MsgValid (n : nat)
| MsgDryRunOnly
| MsgNoAudio
| MsgOutputDir (p : path)
| MsgPlanned (file : string) (s e : string)
| MsgExported (file : string) (s e : string)
| MsgToolsMissing
| MsgExportFailed (p : path).

Inductive event : Type :=
| Stdout (m : message)
| Which (tool : string)
| Run (cmd : list arg)
| MakeDirs (p : path).

Inductive outcome (A : Type) : Type :=
| Return (a : A)
| SysExit (code : Z)
| Uncaught.
Arguments Return {A} a.
Arguments SysExit {A} code.
Arguments Uncaught {A}.

Definition io (A : Type) : Type := list event * outcome A.

Definition ret {A : Type} (a : A) : io A := ([], Return a).

Definition bind {A B : Type} (m : io A) (k : A -> io B) : io B :=
  match m with
  | (tr, Return a) => let '(tr', r) := k a in (tr ++ tr', r)
  | (tr, SysExit c) => (tr, SysExit c)
  | (tr, Uncaught) => (tr, Uncaught)
  end.

Notation "x <- m ;; k" := (bind m (fun x => k))
  (at level 61, m at next level, right associativity).
Notation "m ;; k" := (bind m (fun _ => k))
  (at level 61, right associativity).

Definition emit (e : event) : io unit := ([e], Return tt).
Definition print (m : message) : io unit := emit (Stdout m).
Definition sys_exit {A : Type} (code : Z) : io A := ([], SysExit code).
Definition trace {A : Type} (m : io A) : list event := fst m.

(** What a run finds outside the program.  [read_text] gives the
    characters of a file that decodes as UTF-8; creating a directory
    succeeds. *)
Record world : Type := {
  path_exists : path -> bool;
  is_file : path -> bool;
  read_text : path -> string;
  iterdir : string -> list string;
  which : string -> bool;
  returncode : list arg -> Z
}.

(** [subprocess.run(cmd)]: the command runs and its return code comes
    back. *)
Definition run (w : world) (cmd : list arg) : io Z :=
  ([Run cmd], Return (returncode w cmd)).

(** [dir.iterdir()]: the entries of a directory, as paths. *)
Definition children (w : world) (dir : string) : list path :=
  map (fun n => {| parent := dir; name := n |}) (iterdir w dir).

(** ** [pathlib] *)

Module PathLib.
Local Open Scope string_scope.

(** Index of the last occurrence of [c], as [str.rfind]. *)
Fixpoint rfind (c : ascii) (s : string) : option nat :=
  match s with
  | String c' r =>
      match rfind c r with
      | Some i => Some (S i)
      | None => if (c' =? c)%char then Some O else None
      end
  | EmptyString => None
  end.

(** Where the suffix of a file name starts: the last dot, unless it is the
    first or the last character. *)
Definition suffix_index (n : string) : option nat :=
  match rfind "." n with
  | Some i => if ((0 <? i) && (i <? length n - 1))%nat then Some i else None
  | None => None
  end.

Definition suffix (p : path) : string :=
  match suffix_index (name p) with
  | Some i => substring i (length (name p) - i) (name p)
  | None => ""
  end.

Definition stem (p : path) : string :=
  match suffix_index (name p) with
  | Some i => take i (name p)
  | None => name p
  end.

(** *** Parsing a path text, as [PurePosixPath] does

    The text is cut at its slashes; empty pieces and single dots are
    dropped, double dots are kept.  A path is kept as the text of its
    parent directory and its name: the parent of a path of one relative
    piece is the current directory, written [""] here, and the root and the
    current directory have the empty name. *)

(** The pieces of [s] between slashes; [cur] is the piece being read. *)
Fixpoint split_slash (cur s : string) : list string :=
  match s with
  | String c r =>
      if (c =? "/")%char then cur :: split_slash "" r
      else split_slash (cur ++ String c "") r
  | EmptyString => [cur]
  end.

(** The root: one slash, or two when exactly two slashes start the
    text. *)
Definition root_of (s : string) : string :=
  match s with
  | String "/" (String "/" (String "/" _)) => "/"
  | String "/" (String "/" _) => "//"
  | String "/" _ => "/"
  | _ => ""
  end.

Definition is_part (x : string) : bool := negb ((x =? "") || (x =? ".")).

Definition parts_of (s : string) : list string :=
  filter is_part (split_slash "" s).

Fixpoint join_parts (l : list string) : string :=
  match l with
  | [] => ""
  | [x] => x
  | x :: rest => x ++ "/" ++ join_parts rest
  end.

(** [Path(s)] *)
Definition Path (s : string) : path :=
  let parts := parts_of s in
  {| parent := root_of s ++ join_parts (removelast parts);
     name := last parts "" |}.

(** [str(p)]: the current directory prints as a dot, the root as itself,
    and no slash is added after a root. *)
Definition path_str (p : path) : string :=
  if name p =? "" then (if parent p =? "" then "." else parent p)
  else if parent p =? "" then name p
  else if endswith (parent p) "/" then parent p ++ name p
  else parent p ++ "/" ++ name p.

(** The text of [p] as the directory of its entries. *)
Definition dir_of (p : path) : string :=
  if name p =? "" then parent p else path_str p.

(** [p / child], for a [child] of one piece. *)
Definition joinpath (p : path) (child : string) : path :=
  {| parent := dir_of p; name := child |}.

End PathLib.
Import PathLib.

(** ** [csv.reader] with the default dialect

    The reader of the standard library, for the default dialect: comma
    delimiter, double-quote quoting with doubled quotes, not strict.

    The module also refuses, with [csv.Error], a field of more than
    [csv.field_size_limit()] characters (131072 unless changed).  The
    reader below does not count the characters of a field: it stands for
    the module on the texts in which no field passes the limit, as those
    that [within_field_limit] accepts. *)

Module PyCsv.
Local Open Scope string_scope.

Definition LF : ascii := ascii_of_N 10.
Definition CR : ascii := ascii_of_N 13.

(** Text-mode reading translates every line ending to a line feed. *)
Fixpoint universal_newlines (s : string) : string :=
  match s with
  | String c r =>
      if (c =? CR)%char then
        match r with
        | String c' r' =>
            if (c' =? LF)%char then String LF (universal_newlines r')
            else String LF (universal_newlines r)
        | EmptyString => String LF ""
        end
      else String c (universal_newlines r)
  | EmptyString => ""
  end.

(** Iterating over a text file: the lines, each with its line feed. *)
Fixpoint split_lines (s : string) : list string :=
  match s with
  | String c r =>
      if (c =? LF)%char then String c "" :: split_lines r
      else
        match split_lines r with
        | l :: ls => String c l :: ls
        | [] => [String c ""]
        end
  | EmptyString => []
  end.

Definition file_lines (text : string) : list string :=
  split_lines (universal_newlines text).

(** Characters that are neither the delimiter, the quote nor a line
    ending. *)
Definition plain_char (c : ascii) : bool :=
  negb ((c =? ",") || (c =? DQUOTE) || (c =? LF) || (c =? CR))%char.

Inductive parser_state : Type :=
| START_RECORD | START_FIELD | IN_FIELD | IN_QUOTED_FIELD
| QUOTE_IN_QUOTED_FIELD | EAT_CRNL.

Record reader : Type := {
  state : parser_state;
  field : string;
  fields : list string
}.

Definition reset : reader :=
  {| state := START_RECORD; field := ""; fields := [] |}.

Definition save_field (r : reader) (st : parser_state) : reader :=
  {| state := st; field := ""; fields := fields r ++ [field r] |}.

Definition add_char (r : reader) (c : ascii) (st : parser_state) : reader :=
  {| state := st; field := field r ++ String c ""; fields := fields r |}.

Definition set_state (r : reader) (st : parser_state) : reader :=
  {| state := st; field := field r; fields := fields r |}.

Definition is_newline (c : ascii) : bool := ((c =? LF) || (c =? CR))%char.

(** One character of a line; [None] is [csv.Error]. *)
Definition start_field (r : reader) (c : ascii) : option reader :=
  if is_newline c then Some (save_field r EAT_CRNL)
  else if (c =? DQUOTE)%char then Some (set_state r IN_QUOTED_FIELD)
  else if (c =? ",")%char then Some (save_field r START_FIELD)
  else Some (add_char r c IN_FIELD).

Definition process_char (r : reader) (c : ascii) : option reader :=
  match state r with
  | START_RECORD =>
      if is_newline c then Some (set_state r EAT_CRNL) else start_field r c
  | START_FIELD => start_field r c
  | IN_FIELD =>
      if is_newline c then Some (save_field r EAT_CRNL)
      else if (c =? ",")%char then Some (save_field r START_FIELD)
      else Some (add_char r c IN_FIELD)
  | IN_QUOTED_FIELD =>
      if (c =? DQUOTE)%char then Some (set_state r QUOTE_IN_QUOTED_FIELD)
      else Some (add_char r c IN_QUOTED_FIELD)
  | QUOTE_IN_QUOTED_FIELD =>
      if (c =? DQUOTE)%char then Some (add_char r c IN_QUOTED_FIELD)
      else if (c =? ",")%char then Some (save_field r START_FIELD)
      else if is_newline c then Some (save_field r EAT_CRNL)
      else Some (add_char r c IN_FIELD)
  | EAT_CRNL => if is_newline c then Some r else None
  end.

(** The end of a line. *)
Definition process_eol (r : reader) : reader :=
  match state r with
  | START_RECORD => r
  | START_FIELD | IN_FIELD | QUOTE_IN_QUOTED_FIELD => save_field r START_RECORD
  | IN_QUOTED_FIELD => r
  | EAT_CRNL => set_state r START_RECORD
  end.

Fixpoint feed (r : reader) (line : string) : option reader :=
  match line with
  | String c rest =>
      match process_char r c with
      | Some r' => feed r' rest
      | None => None
      end
  | EmptyString => Some (process_eol r)
  end.

Definition is_start (st : parser_state) : bool :=
  match st with START_RECORD => true | _ => false end.

Definition is_quoted (st : parser_state) : bool :=
  match st with IN_QUOTED_FIELD => true | _ => false end.

(** The rows of the reader over the lines of its input.  A record goes on
    over the next line while a quoted field is open; input that ends inside
    one yields what was read. *)
Fixpoint records (r : reader) (lines : list string) : option (list (list string)) :=
  match lines with
  | line :: rest =>
      match feed r line with
      | Some r' =>
          if is_start (state r')
          then option_map (cons (fields r')) (records reset rest)
          else records r' rest
      | None => None
      end
  | [] =>
      if negb (field r =? "") || is_quoted (state r)
      then Some [fields (save_field r START_RECORD)]
      else Some []
  end.

Definition csv_reader (lines : list string) : option (list (list string)) :=
  records reset lines.

(** [csv.field_size_limit()] *)
Definition field_limit : N := 131072.

(** A text of no more characters than the limit: none of its fields can
    pass it. *)
Definition within_field_limit (text : string) : bool :=
  (N.of_nat (String.length text) <=? field_limit)%N.

End PyCsv.
Import PyCsv.

(** ** [split_audio_by_silence.py] *)

Module SplitBySilence.

(** [detect_silences], after the two [re.findall] calls: [starts] and [ends]
    are the two timestamp lists, in order of appearance.  The [while] loop
    keeps one index in each list and the list [out]; each iteration advances
    [j], so [fuel] iterations are enough when [fuel] is not below
    [len(ends)].  [None] means that [fuel] ran out. *)
Fixpoint detect_loop (fuel : nat) (starts ends : list float) (i j : nat)
    (out : list interval) : option (list interval) :=
  match nth_error starts i, nth_error ends j with
  | Some s, Some e =>
      match fuel with
      | O => None
      | S fuel' =>
          if e >=? s
          then detect_loop fuel' starts ends (S i) (S j) (out ++ [(s, e)])
          else detect_loop fuel' starts ends i (S j) out
      end
  | _, _ => Some out
  end.

Definition detect_silences (starts ends : list float) : option (list interval) :=
  detect_loop (List.length ends) starts ends 0 0 [].

(** The [for] loop of [build_segments]: the state is the list [segments]
    and the cursor [cur]. *)
Definition build_step (st : list interval * float) (silence : interval)
    : list interval * float :=
  let '(segments, cur) := st in
  let '(s, e) := silence in
  ((if s >? cur then segments ++ [(cur, s)] else segments), pymax cur e).

Definition build_loop (silences : list interval) : list interval * float :=
  fold_left build_step silences ([], zero).

(** The segments before the final comprehension. *)
Definition raw_segments (silences : list interval) (duration : float)
    : list interval :=
  let '(segments, cur) := build_loop silences in
  if duration >? cur then segments ++ [(cur, duration)] else segments.

Definition long_enough (seg : interval) : bool :=
  let '(a, b) := seg in b - a >? c001.

Definition round_interval (seg : interval) : interval :=
  let '(a, b) := seg in (round3 a, round3 b).

Definition build_segments (silences : list interval) (duration : float)
    : list interval :=
  map round_interval (filter long_enough (raw_segments silences duration)).

(** [write_timestamps]: the text written to the file, one line per
    segment. *)
Definition timestamp_line (seg : interval) : string :=
  let '(s, e) := seg in
  (format_3f s ++ "," ++ format_3f e ++ String LF "")%string.

Definition write_timestamps (segments : list interval) : string :=
  fold_left (fun text seg => (text ++ timestamp_line seg)%string) segments ""%string.

(** [export_segment] computes the duration [t], builds the command and runs
    it; a failure of the tool ends the process. *)
Definition export_segment (w : world) (input_path : path) (start end_ : float)
    (out_path : path) : io unit :=
  let t := pymax (end_ - start) c001 in
  let cmd :=
    [Lit "ffmpeg"; Lit "-hide_banner"; Lit "-y"; Lit "-i";
     Lit (path_str input_path); Lit "-ss"; Num start; Lit "-t"; Num t;
     Lit "-c"; Lit "copy"; Lit (path_str out_path)]%string in
  r <- run w cmd ;;
  if negb (r =? 0)%Z
  then print (MsgExportFailed out_path) ;; sys_exit 1
  else ret tt.

End SplitBySilence.

(** ** [split_audio_by_csv.py] *)

Module SplitByCsv.
Local Open Scope string_scope.

Definition check_tools (w : world) : io unit :=
  _ <- emit (Which "ffmpeg") ;;
  if negb (which w "ffmpeg") then print MsgToolsMissing ;; sys_exit 1
  else
    _ <- emit (Which "ffprobe") ;;
    if negb (which w "ffprobe") then print MsgToolsMissing ;; sys_exit 1
    else ret tt.

(** The body of the [for row in reader] loop: [rows] is the list built so
    far.  The two conversions run inside [try]; a [ValueError] from either
    leaves [rows] as it was. *)
Definition parse_row (rows : list interval) (row : list string) : list interval :=
  match row with
  | [] => rows
  | _ =>
      if (List.length row <? 2)%nat then rows
      else
        match py_float (strip (nth 0 row "")) with
        | Some s =>
            match py_float (strip (nth 1 row "")) with
            | Some e => rows ++ [(s, e)]
            | None => rows
            end
        | None => rows
        end
  end.

Definition parse_rows (rows : list (list string)) : list interval :=
  fold_left parse_row rows [].

(** [parse_timestamps] on the text of the file; [None] when the reader
    raises. *)
Definition parse_timestamps (text : string) : option (list interval) :=
  option_map parse_rows (csv_reader (file_lines text)).

Definition exts : list string :=
  [".mp3"; ".wav"; ".m4a"; ".flac"; ".aac"; ".ogg"; ".wma"; ".mp4"; ".mkv"; ".webm"].

Definition in_exts (s : string) : bool := existsb (String.eqb s) exts.

(** The loop of [infer_audio_path] over the entries of the directory, in
    the order [iterdir] yields them: a recognised file whose stem is [base]
    is returned at once, the others are collected. *)
Fixpoint infer_loop (w : world) (base : string) (entries : list path)
    (candidates : list path) : path + list path :=
  match entries with
  | p :: rest =>
      if is_file w p && in_exts (lower (suffix p)) then
        if stem p =? base then inl p
        else infer_loop w base rest (candidates ++ [p])
      else infer_loop w base rest candidates
  | [] => inr candidates
  end.

Definition infer_audio_path (w : world) (ts_path : path) : option path :=
  let base := stem ts_path in
  let base := if endswith base "_segments" then drop_last 10 base else base in
  match infer_loop w base (children w (parent ts_path)) [] with
  | inl p => Some p
  | inr [p] => Some p
  | inr _ => None
  end.

(** [export_segment] computes the duration [t], builds the command and runs
    it; a failure of the tool ends the process. *)
Definition export_segment (w : world) (input_path : path) (start end_ : float)
    (out_path : path) : io unit :=
  let t := pymax (end_ - start) c001 in
  let cmd :=
    [Lit "ffmpeg"; Lit "-hide_banner"; Lit "-y"; Lit "-i";
     Lit (path_str input_path); Lit "-ss"; Num start; Lit "-t"; Num t;
     Lit "-c"; Lit "copy"; Lit (path_str out_path)]%string in
  r <- run w cmd ;;
  if negb (r =? 0)%Z
  then print (MsgExportFailed out_path) ;; sys_exit 1
  else ret tt.

Record args : Type := {
  timestamps : string;
  input : option string;
  output_dir : string;
  min_seg : float;
  start_index : Z;
  dry_run : bool
}.

(** Truth value of [args.input]: [None] and the empty string are false. *)
Definition given (o : option string) : bool :=
  match o with
  | Some s => negb (s =? "")
  | None => false
  end.

(** The comprehension that keeps the segments to export. *)
Definition valid_segments (min_seg : float) (segments_raw : list interval)
    : list interval :=
  filter (fun '(s, e) => (e >? s) && (e - s >=? min_seg)) segments_raw.

Fixpoint zeros (n : nat) : string :=
  match n with
  | O => ""
  | S n' => String "0" (zeros n')
  end.

(** [s] padded with zeros on the left up to [width] characters. *)
Definition zfill (width : nat) (s : string) : string :=
  zeros (width - length s) ++ s.

(** ["{:03d}".format(idx)] *)
Definition format_03d (idx : Z) : string :=
  if (idx <? 0)%Z then "-" ++ zfill 2 (decimal (Z.abs_N idx))
  else zfill 3 (decimal (Z.abs_N idx)).

Definition segment_name (base ext : string) (idx : Z) : string :=
  base ++ "_" ++ format_03d idx ++ ext.

(** The export loop at the end of [main]. *)
Fixpoint export_loop (w : world) (dry : bool) (input_path outdir : path)
    (base ext : string) (segments : list interval) (idx : Z) : io unit :=
  match segments with
  | (s, e) :: rest =>
      let file := segment_name base ext idx in
      let outpath := joinpath outdir file in
      _ <- (if dry then print (MsgPlanned file (format_3f s) (format_3f e))
            else
              _ <- export_segment w input_path s e outpath ;;
              print (MsgExported file (format_3f s) (format_3f e))) ;;
      export_loop w dry input_path outdir base ext rest (idx + 1)%Z
  | [] => ret tt
  end.

Definition main (a : args) (w : world) : io unit :=
  let ts_path := Path (timestamps a) in
  if negb (path_exists w ts_path)
  then print (MsgFileMissing ts_path) ;; sys_exit 1
  else
    match parse_timestamps (read_text w ts_path) with
    | None => ([], Uncaught)
    | Some segments_raw =>
        let segments := valid_segments (min_seg a) segments_raw in
        _ <- print (MsgRead (List.length segments_raw)) ;;
        _ <- print (MsgValid (List.length segments)) ;;
        if dry_run a && negb (given (input a)) then print MsgDryRunOnly
        else
          match (if given (input a)
                 then option_map Path (input a)
                 else infer_audio_path w ts_path) with
          | None => print MsgNoAudio ;; sys_exit 1
          | Some input_path =>
              if negb (path_exists w input_path)
              then print (MsgFileMissing input_path) ;; sys_exit 1
              else
                _ <- (if negb (dry_run a) then check_tools w else ret tt) ;;
                let ext := lower (suffix input_path) in
                let base := stem input_path in
                let outdir := joinpath (Path (output_dir a)) base in
                _ <- emit (MakeDirs outdir) ;;
                _ <- print (MsgOutputDir outdir) ;;
                export_loop w (dry_run a) input_path outdir base ext
                  segments (start_index a)
          end
    end.

End SplitByCsv.

(** ** The specification's own words, for comparison with the code *)

Module Spec.

(** The cursor algorithm of the complement computation: for each silence
    [(s, e)], emit [(cursor, s)] when [s > cursor] and advance the cursor to
    [max(cursor, e)]; at the end emit [(cursor, D)] when [D > cursor]. *)
Fixpoint cursor_segments (cursor : float) (silences : list interval) (D : float)
    : list interval :=
  match silences with
  | (s, e) :: rest =>
      (if s >? cursor then [(cursor, s)] else [])
        ++ cursor_segments (pymax cursor e) rest D
  | [] => if D >? cursor then [(cursor, D)] else []
  end.

(** Endpoints rounded to three decimal digits; segments of at most ten
    milliseconds dropped. *)
Definition segments (silences : list interval) (D : float) : list interval :=
  map (fun seg => (round3 (fst seg), round3 (snd seg)))
    (filter (fun seg => negb (snd seg - fst seg <=? c001))
       (cursor_segments zero silences D)).

(** The earliest end that is not below [s], with the ends that follow it. *)
Fixpoint earliest_end (s : float) (ends : list float) : option (float * list float) :=
  match ends with
  | e :: rest => if e >=? s then Some (e, rest) else earliest_end s rest
  | [] => None
  end.

(** Each start is paired with the earliest unconsumed end not below it; the
    ends passed over are skipped; a start that finds no end gives no pair. *)
Fixpoint pairing (starts ends : list float) : list interval :=
  match starts with
  | s :: starts' =>
      match earliest_end s ends with
      | Some (e, rest) => (s, e) :: pairing starts' rest
      | None => []
      end
  | [] => []
  end.

(** What a row of the CSV contributes: nothing when it is empty, has fewer
    than two columns, or one of its first two columns is not a number. *)
Definition row_value (row : list string) : list interval :=
  match row with
  | c0 :: c1 :: _ =>
      match py_float (strip c0), py_float (strip c1) with
      | Some s, Some e => [(s, e)]
      | _, _ => []
      end
  | _ => []
  end.

(** Input-file inference as specified: the candidate is the stem without a
    trailing ["_segments"]; the one recognised media file with that stem, or
    else the one recognised media file of the directory. *)
Definition strip_suffix (s suffix : string) : string :=
  if endswith s suffix then drop_last (String.length suffix) s else s.

Definition infer_audio_path (w : world) (ts_path : path) : option path :=
  let base := strip_suffix (stem ts_path) "_segments" in
  let media :=
    filter (fun p => is_file w p && SplitByCsv.in_exts (lower (suffix p)))
      (children w (parent ts_path)) in
  match filter (fun p => (stem p =? base)%string) media with
  | [p] => Some p
  | _ => match media with [p] => Some p | _ => None end
  end.

End Spec.

(** Each interval starts no earlier than the one before it ends. *)
Fixpoint ordered (l : list interval) : bool :=
  match l with
  | x :: (y :: _) as rest => (snd x <=? fst y) && ordered rest
  | _ => true
  end.

(** A line as text-mode iteration yields it: no carriage return, and a
    line feed at its end only. *)
Fixpoint text_line (l : string) : bool :=
  match l with
  | String c r =>
      if (c =? LF)%char then (r =? "")%string
      else negb (c =? CR)%char && text_line r
  | EmptyString => true
  end.

Definition eating (st : parser_state) : bool :=
  match st with EAT_CRNL => true | _ => false end.

Definition not_cr (c : ascii) : bool := negb (c =? CR)%char.
Definition not_lf (c : ascii) : bool := negb (c =? LF)%char.

(** The row that the reader yields for a line of [write_timestamps]. *)
Definition timestamp_row (seg : interval) : list string :=
  [format_3f (fst seg); format_3f (snd seg)].

(** The lines of a text, joined. *)
Definition joined (lines : list string) : string :=
  fold_right String.append ""%string lines.

(** The end of each interval is not above the start of any later one. *)
Inductive chain : list interval -> Prop :=
| chain_nil : chain []
| chain_cons x l :
    Forall (fun y => (snd x <=? fst y) = true) l -> chain l -> chain (x :: l).

(** *** Covering [[0, D)]

    Intervals are read as half-open, [[start, end)]. *)

Definition fmax (x y : float) : float := if x <? y then y else x.
Definition fmin (x y : float) : float := if y <? x then y else x.

(** An interval clipped to [[0, D]]. *)
Definition clip (D : float) (iv : interval) : interval :=
  (fmax zero (fst iv), fmin D (snd iv)).

Definition inside (t : float) (iv : interval) : bool :=
  (fst iv <=? t) && (t <? snd iv).

(** How many of the intervals contain the instant [t]. *)
Definition coverage (t : float) (ivs : list interval) : nat :=
  List.length (filter (inside t) ivs).

(** Segments and silences, clipped to [[0, D]], cover every instant of
    [[0, D)] exactly once (no gap, no overlap) and nothing outside. *)
Definition tiles (D : float) (segments silences : list interval) : Prop :=
  forall t,
    coverage t (map (clip D) (segments ++ silences))
    = if (zero <=? t) && (t <? D) then 1%nat else 0%nat.

(** Silences sorted and non-overlapping: each ends no earlier than it
    starts and no later than the next one starts. *)
Fixpoint disjoint_sorted (l : list interval) : bool :=
  match l with
  | (s, e) :: rest =>
      (s <=? e)
      && match rest with (s', _) :: _ => e <=? s' | [] => true end
      && disjoint_sorted rest
  | [] => true
  end.

(** *** Traces *)




(** The planned exports of [segments], numbered from [idx] on. *)
Fixpoint planned_lines (base ext : string) (segments : list interval) (idx : Z)
    : list message :=
  match segments with
  | (s, e) :: rest =>
      MsgPlanned (SplitByCsv.segment_name base ext idx) (format_3f s) (format_3f e)
      :: planned_lines base ext rest (idx + 1)%Z
  | [] => []
  end.


(** The duration given to the tool: the argument after [-t] in the command
    a trace starts with. *)
Definition passed_duration (tr : list event) : option arg :=
  match tr with
  | Run cmd :: _ =>
      match nth_error cmd 7 with
      | Some (Lit "-t") => nth_error cmd 8
      | _ => None
      end
  | _ => None
  end.

(** A directory with two recordings and the timestamps written for one of
    them. *)
Definition recordings : world :=
  {| path_exists := fun _ => true;
     is_file := fun _ => true;
     read_text := fun _ =>
       ("0.000,2.000" ++ String LF "3.000,5.000" ++ String LF "")%string;
     iterdir := fun _ => ["audio.mp3"; "notes.wav"; "audio_segments.csv"]%string;
     which := fun _ => true;
     returncode := fun _ => 0%Z |}.

(** A directory with two files of the same stem. *)
Definition two_takes : world :=
  {| path_exists := fun _ => true;
     is_file := fun _ => true;
     read_text := fun _ => ""%string;
     iterdir := fun _ => ["take.mp3"; "take.wav"; "take.csv"]%string;
     which := fun _ => true;
     returncode := fun _ => 0%Z |}.

(** A dry run over that directory. *)
Definition dry_run_args : SplitByCsv.args :=
  {| SplitByCsv.timestamps := "rec/audio_segments.csv";
     SplitByCsv.input := Some "rec/audio.mp3"%string;
     SplitByCsv.output_dir := "out";
     SplitByCsv.min_seg := dec 5 1;
     SplitByCsv.start_index := 1;
     SplitByCsv.dry_run := true |}.

(** ** [re.findall] for the two marker patterns

    [re.findall(marker + r'\s*([0-9\.]+)', text)] for a literal [marker]:
    the matches are found from left to right and do not overlap; each gives
    its group, the longest run of digits and dots after the marker and any
    white space.  White space and the characters of the group are disjoint,
    so backtracking never finds a match that the greedy reading misses. *)

Module PyRegex.
Local Open Scope string_scope.

Definition is_number_char (c : ascii) : bool := is_digit c || (c =? ".")%char.

Fixpoint take_while (f : ascii -> bool) (s : string) : string :=
  match s with
  | String c r => if f c then String c (take_while f r) else ""
  | EmptyString => ""
  end.

(** [s] without the prefix [p], when it starts with it. *)
Fixpoint strip_prefix (p s : string) : option string :=
  match p, s with
  | EmptyString, _ => Some s
  | String a p', String b s' => if (a =? b)%char then strip_prefix p' s' else None
  | String _ _, EmptyString => None
  end.

(** A match that starts at the first character of [s]: its group and the
    number of characters it spans. *)
Definition match_at (marker s : string) : option (string * nat) :=
  match strip_prefix marker s with
  | Some r =>
      let num := take_while is_number_char (lstrip r) in
      if num =? "" then None
      else Some (num, (length marker + (length r - length (lstrip r)) + length num)%nat)
  | None => None
  end.

(** The scan: [skip] characters still belong to the last match. *)
Fixpoint findall_from (marker : string) (skip : nat) (s : string) : list string :=
  match s with
  | String c r =>
      match skip with
      | S k => findall_from marker k r
      | O =>
          match match_at marker s with
          | Some (num, n) => num :: findall_from marker (n - 1) r
          | None => findall_from marker 0 r
          end
      end
  | EmptyString => []
  end.

Definition findall (marker text : string) : list string :=
  findall_from marker 0 text.

(** [[float(x) for x in groups]]; [None] when a conversion raises. *)
Fixpoint floats (groups : list string) : option (list float) :=
  match groups with
  | x :: rest =>
      match py_float x with
      | Some v =>
          match floats rest with
          | Some vs => Some (v :: vs)
          | None => None
          end
      | None => None
      end
  | [] => Some []
  end.

End PyRegex.
Import PyRegex.

(** ** The whole of [split_audio_by_silence.py]

    The script also runs two commands whose output it reads, writes the
    timestamps file and prints lines of its own. *)

Module SilenceScript.
Local Open Scope string_scope.

(** A word of a command line: an argument as before, or the filter
    [f'silencedetect=noise={noise_db}dB:d={min_silence}'], whose two numbers
    are kept as floats. *)
Inductive word : Type :=
| Word (a : arg)
| SilenceFilter (noise_db min_silence : float).

(** What [subprocess.run(cmd, capture_output=True, text=True)] gives
    back. *)
Record captured : Type := {
  cap_returncode : Z;
  cap_stdout : string;
  cap_stderr : string
}.

Inductive notice : Type :=
| MsgNoDuration
| MsgDuration (seconds : string)
| MsgSilences (n : nat)
| MsgSegments (n : nat)
| MsgWrote (p : path).

Inductive effect : Type :=
| Shared (e : event)
| Say (m : notice)
| Capture (cmd : list word)
| WriteText (p : path) (text : string).

(** The file system and the tools, and what a captured command answers:
    [None] when its output cannot be decoded as text, on which
    [subprocess.run] raises [UnicodeDecodeError]. *)
Record machine : Type := {
  files : world;
  capture : list word -> option captured
}.

Definition sio (A : Type) : Type := list effect * outcome A.

Definition sret {A : Type} (a : A) : sio A := ([], Return a).

Definition sbind {A B : Type} (m : sio A) (k : A -> sio B) : sio B :=
  match m with
  | (tr, Return a) => let '(tr', r) := k a in ((tr ++ tr')%list, r)
  | (tr, SysExit c) => (tr, SysExit c)
  | (tr, Uncaught) => (tr, Uncaught)
  end.

Declare Scope sio_scope.
Notation "x <- m ;; k" := (sbind m (fun x => k))
  (at level 61, m at next level, right associativity) : sio_scope.
Notation "m ;; k" := (sbind m (fun _ => k))
  (at level 61, right associativity) : sio_scope.
Local Open Scope sio_scope.

Definition effect_of (e : effect) : sio unit := ([e], Return tt).
Definition say (m : notice) : sio unit := effect_of (Say m).
Definition shared_print (m : message) : sio unit := effect_of (Shared (Stdout m)).
Definition exit_ {A : Type} (code : Z) : sio A := ([], SysExit code).
Definition raise_ {A : Type} : sio A := ([], Uncaught).

(** A step of the shared kind, with its events marked. *)
Definition lift {A : Type} (m : io A) : sio A := (map Shared (fst m), snd m).

Definition capture_run (m : machine) (cmd : list word) : sio captured :=
  match capture m cmd with
  | Some r => ([Capture cmd], Return r)
  | None => ([Capture cmd], Uncaught)
  end.

Definition check_tools (w : world) : sio unit :=
  _ <- effect_of (Shared (Which "ffmpeg")) ;;
  if negb (which w "ffmpeg") then shared_print MsgToolsMissing ;; exit_ 1
  else
    _ <- effect_of (Shared (Which "ffprobe")) ;;
    if negb (which w "ffprobe") then shared_print MsgToolsMissing ;; exit_ 1
    else sret tt.

(** The command of [probe_duration]. *)
Definition probe_cmd (input_path : path) : list word :=
  [Word (Lit "ffprobe"); Word (Lit "-v"); Word (Lit "error");
   Word (Lit "-show_entries"); Word (Lit "format=duration");
   Word (Lit "-of"); Word (Lit "csv=p=0"); Word (Lit (path_str input_path))].

(** Neither the decoding error of the capture nor a [ValueError] of
    [float] is caught. *)
Definition probe_duration (m : machine) (input_path : path) : sio float :=
  r <- capture_run m (probe_cmd input_path) ;;
  if negb (cap_returncode r =? 0)%Z || (strip (cap_stdout r) =? "")
  then say MsgNoDuration ;; exit_ 1
  else
    match py_float (strip (cap_stdout r)) with
    | Some d => sret d
    | None => raise_
    end.

(** The command of [detect_silences]. *)
Definition detect_cmd (input_path : path) (noise_db min_silence : float)
    : list word :=
  [Word (Lit "ffmpeg"); Word (Lit "-hide_banner"); Word (Lit "-nostats");
   Word (Lit "-i"); Word (Lit (path_str input_path)); Word (Lit "-af");
   SilenceFilter noise_db min_silence; Word (Lit "-f"); Word (Lit "null");
   Word (Lit "-")].

(** [detect_silences]: the command, the two extractions and the pairing
    loop.  Neither the decoding error of the capture nor a [ValueError] of
    [float] is caught.  The loop, which
    [SplitBySilence.detect_silences] models with fuel, always ends; its
    [None] is kept as an uncaught end. *)
Definition detect_silences (m : machine) (input_path : path)
    (noise_db min_silence : float) : sio (list interval) :=
  r <- capture_run m (detect_cmd input_path noise_db min_silence) ;;
  let text := cap_stderr r in
  match floats (findall "silence_start:" text) with
  | Some starts =>
      match floats (findall "silence_end:" text) with
      | Some ends =>
          match SplitBySilence.detect_silences starts ends with
          | Some out => sret out
          | None => raise_
          end
      | None => raise_
      end
  | None => raise_
  end.

(** [write_timestamps(path, segments)] with its effects: the directory of
    the file is created, then the text is written. *)
Definition write_timestamps (p : path) (segments : list interval) : sio unit :=
  _ <- effect_of (Shared (MakeDirs (Path (parent p)))) ;;
  effect_of (WriteText p (SplitBySilence.write_timestamps segments)).

Record args : Type := {
  input : string;
  output_dir : string;
  min_silence : float;
  threshold : float;
  min_seg : float;
  start_index : Z
}.

(** The comprehension that keeps the segments to export. *)
Definition kept_segments (min_seg : float) (segments_all : list interval)
    : list interval :=
  filter (fun '(s, e) => e - s >=? min_seg) segments_all.

(** The export loop at the end of [main]. *)
Fixpoint export_loop (w : world) (input_path outdir : path) (base ext : string)
    (segments : list interval) (idx : Z) : sio unit :=
  match segments with
  | (s, e) :: rest =>
      let file := SplitByCsv.segment_name base ext idx in
      let outpath := joinpath outdir file in
      _ <- lift (SplitBySilence.export_segment w input_path s e outpath) ;;
      _ <- shared_print (MsgExported file (format_3f s) (format_3f e)) ;;
      export_loop w input_path outdir base ext rest (idx + 1)%Z
  | [] => sret tt
  end.

Definition main (a : args) (m : machine) : sio unit :=
  let w := files m in
  let input_path := Path (input a) in
  if negb (path_exists w input_path)
  then shared_print (MsgFileMissing input_path) ;; exit_ 1
  else
    _ <- check_tools w ;;
    duration <- probe_duration m input_path ;;
    silences <- detect_silences m input_path (threshold a) (min_silence a) ;;
    let segments_all := SplitBySilence.build_segments silences duration in
    let segments := kept_segments (min_seg a) segments_all in
    let ext := lower (suffix input_path) in
    let base := stem input_path in
    let outdir := joinpath (Path (output_dir a)) base in
    _ <- effect_of (Shared (MakeDirs outdir)) ;;
    _ <- say (MsgDuration (format_3f duration)) ;;
    _ <- say (MsgSilences (List.length silences)) ;;
    _ <- say (MsgSegments (List.length segments)) ;;
    let ts_out_path := joinpath outdir (base ++ "_segments.csv") in
    _ <- write_timestamps ts_out_path segments ;;
    _ <- say (MsgWrote ts_out_path) ;;
    export_loop w input_path outdir base ext segments (start_index a).

End SilenceScript.

(** ** Observations on runs *)

(** The recognised media files of a directory, in the order of [iterdir]. *)
Definition media_files (w : world) (dir : string) : list path :=
  filter (fun p => is_file w p && SplitByCsv.in_exts (lower (suffix p)))
    (children w dir).

(** The candidate stem as [infer_audio_path] computes it. *)
Definition candidate_base (ts_path : path) : string :=
  let base := stem ts_path in
  if endswith base "_segments" then drop_last 10 base else base.



(** The commands of a trace, in order. *)
Fixpoint commands (tr : list event) : list (list arg) :=
  match tr with
  | Run cmd :: rest => cmd :: commands rest
  | _ :: rest => commands rest
  | [] => []
  end.

(** The command of [export_segment]. *)
Definition export_cmd (input_path : path) (start end_ : float) (out_path : path)
    : list arg :=
  [Lit "ffmpeg"; Lit "-hide_banner"; Lit "-y"; Lit "-i";
   Lit (path_str input_path); Lit "-ss"; Num start; Lit "-t";
   Num (pymax (end_ - start) c001); Lit "-c"; Lit "copy";
   Lit (path_str out_path)]%string.

(** The commands that the export of [segments] asks for, numbered from
    [idx] on. *)
Fixpoint export_cmds (input_path outdir : path) (base ext : string)
    (segments : list interval) (idx : Z) : list (list arg) :=
  match segments with
  | (s, e) :: rest =>
      export_cmd input_path s e
        (joinpath outdir (SplitByCsv.segment_name base ext idx))
      :: export_cmds input_path outdir base ext rest (idx + 1)%Z
  | [] => []
  end.

(** How a run of the export loop over the commands [planned] may end:
    every command was run and succeeded, or the commands were run in order
    up to the first one that failed and the process exited with status
    1. *)
Definition export_result (w : world) (planned : list (list arg)) (m : io unit)
    : Prop :=
  match snd m with
  | Return _ =>
      commands (trace m) = planned
      /\ Forall (fun cmd => returncode w cmd = 0%Z) planned
  | SysExit c =>
      c = 1%Z
      /\ exists ok bad rest,
           planned = ok ++ bad :: rest
           /\ commands (trace m) = ok ++ [bad]
           /\ Forall (fun cmd => returncode w cmd = 0%Z) ok
           /\ returncode w bad <> 0%Z
  | Uncaught => False
  end.

(** The file that an export command writes: its last word. *)
Definition target (cmd : list arg) : option arg := nth_error cmd 11.

(** The texts written by a run of the silence script, and the exports it
    ran. *)
Fixpoint written (tr : list SilenceScript.effect) : list (path * string) :=
  match tr with
  | SilenceScript.WriteText p text :: rest => (p, text) :: written rest
  | _ :: rest => written rest
  | [] => []
  end.

Fixpoint exports (tr : list SilenceScript.effect) : list (list arg) :=
  match tr with
  | SilenceScript.Shared (Run cmd) :: rest => cmd :: exports rest
  | _ :: rest => exports rest
  | [] => []
  end.

(** What a run of the silence script finds: the tools, the answer of
    [ffprobe], the report of the silence filter, and what the script reads
    from them. *)
Definition tools_found (w : world) : bool :=
  which w "ffmpeg" && which w "ffprobe".

Definition probe_of (a : SilenceScript.args) (m : SilenceScript.machine)
    : option SilenceScript.captured :=
  SilenceScript.capture m (SilenceScript.probe_cmd (Path (SilenceScript.input a))).

(** The output of [ffprobe] could be decoded. *)
Definition answered (a : SilenceScript.args) (m : SilenceScript.machine) : bool :=
  match probe_of a m with
  | Some _ => true
  | None => false
  end.

(** [ffprobe] answered, with return code 0 and more than white space. *)
Definition probe_ok (a : SilenceScript.args) (m : SilenceScript.machine) : bool :=
  match probe_of a m with
  | Some r =>
      (SilenceScript.cap_returncode r =? 0)%Z
      && negb (strip (SilenceScript.cap_stdout r) =? "")%string
  | None => false
  end.

Definition probed_duration (a : SilenceScript.args) (m : SilenceScript.machine)
    : option float :=
  match probe_of a m with
  | Some r => py_float (strip (SilenceScript.cap_stdout r))
  | None => None
  end.

Definition report_of (a : SilenceScript.args) (m : SilenceScript.machine)
    : option string :=
  option_map SilenceScript.cap_stderr
    (SilenceScript.capture m
       (SilenceScript.detect_cmd (Path (SilenceScript.input a))
          (SilenceScript.threshold a) (SilenceScript.min_silence a))).

Definition reported_silences (a : SilenceScript.args) (m : SilenceScript.machine)
    : option (list interval) :=
  match report_of a m with
  | Some text =>
      match floats (findall "silence_start:" text),
            floats (findall "silence_end:" text) with
      | Some starts, Some ends => SplitBySilence.detect_silences starts ends
      | _, _ => None
      end
  | None => None
  end.

(** The segments that the run exports, when the duration and the report
    can be read. *)
Definition planned_segments (a : SilenceScript.args) (m : SilenceScript.machine)
    : option (list interval) :=
  match probed_duration a m, reported_silences a m with
  | Some duration, Some silences =>
      Some (SilenceScript.kept_segments (SilenceScript.min_seg a)
              (SplitBySilence.build_segments silences duration))
  | _, _ => None
  end.

(** An effect that changes something outside the program: an export, a
    directory or a file. *)
Definition changes (e : SilenceScript.effect) : bool :=
  match e with
  | SilenceScript.WriteText _ _ => true
  | SilenceScript.Shared (Run _) | SilenceScript.Shared (MakeDirs _) => true
  | _ => false
  end.

(** An effect that reaches for the tools or changes something. *)
Definition acts (e : SilenceScript.effect) : bool :=
  match e with
  | SilenceScript.Capture _ => true
  | _ => changes e
  end.

Definition path_eqb (p q : path) : bool :=
  ((parent p =? parent q) && (name p =? name q))%string.

(** The world [w] once [text] has been written to [p]. *)
Definition with_file (w : world) (p : path) (text : string) : world :=
  {| path_exists := fun q => path_eqb q p || path_exists w q;
     is_file := fun q => path_eqb q p || is_file w q;
     read_text := fun q => if path_eqb q p then text else read_text w q;
     iterdir := iterdir w;
     which := which w;
     returncode := returncode w |}.

(** The arguments with which the CSV script splits the same input again,
    from the timestamps stored at [ts]. *)
Definition resplit_args (a : SilenceScript.args) (ts : string) : SplitByCsv.args :=
  {| SplitByCsv.timestamps := ts;
     SplitByCsv.input := Some (SilenceScript.input a);
     SplitByCsv.output_dir := SilenceScript.output_dir a;
     SplitByCsv.min_seg := SilenceScript.min_seg a;
     SplitByCsv.start_index := SilenceScript.start_index a;
     SplitByCsv.dry_run := false |}.

(** A directory that holds one recording only, under another name than the
    timestamps. *)
Definition one_recording : world :=
  {| path_exists := fun _ => true;
     is_file := fun _ => true;
     read_text := fun _ => ""%string;
     iterdir := fun _ => ["talk.WAV"; "cuts.csv"; "notes.txt"]%string;
     which := fun _ => true;
     returncode := fun _ => 0%Z |}.

(** An export of the recordings directory. *)
Definition export_args : SplitByCsv.args :=
  {| SplitByCsv.timestamps := "rec/audio_segments.csv";
     SplitByCsv.input := Some "rec/audio.mp3"%string;
     SplitByCsv.output_dir := "out";
     SplitByCsv.min_seg := dec 5 1;
     SplitByCsv.start_index := 1;
     SplitByCsv.dry_run := false |}.

(** A dry run that names no input. *)
Definition plan_only_args : SplitByCsv.args :=
  {| SplitByCsv.timestamps := "rec/audio_segments.csv";
     SplitByCsv.input := None;
     SplitByCsv.output_dir := "out";
     SplitByCsv.min_seg := dec 5 1;
     SplitByCsv.start_index := 1;
     SplitByCsv.dry_run := true |}.


(** A recording of ten seconds with two silences, as the tools report
    it. *)
Definition studio : SilenceScript.machine :=
  {| SilenceScript.files := recordings;
     SilenceScript.capture := fun cmd =>
       match cmd with
       | SilenceScript.Word (Lit "ffprobe") :: _ =>
           Some {| SilenceScript.cap_returncode := 0;
              SilenceScript.cap_stdout := "10.000000" ++ String LF "";
              SilenceScript.cap_stderr := "" |}
       | _ =>
           Some {| SilenceScript.cap_returncode := 0;
              SilenceScript.cap_stdout := "";
              SilenceScript.cap_stderr :=
                "[silencedetect @ 0x5581] silence_start: 2" ++ String LF
                "[silencedetect @ 0x5581] silence_end: 3 | silence_duration: 1"
                ++ String LF
                "[silencedetect @ 0x5581] silence_start: 5.25" ++ String LF
                "[silencedetect @ 0x5581] silence_end: 5.5 | silence_duration: 0.25"
                ++ String LF "" |}
       end%string |}.

(** The same studio when [ffprobe] knows no duration. *)
Definition unprobed : SilenceScript.machine :=
  {| SilenceScript.files := recordings;
     SilenceScript.capture := fun cmd =>
       Some {| SilenceScript.cap_returncode := 0;
               SilenceScript.cap_stdout := "N/A" ++ String LF "";
               SilenceScript.cap_stderr := "" |}%string |}.

(** The same studio when the tools print bytes that are no text. *)
Definition garbled : SilenceScript.machine :=
  {| SilenceScript.files := recordings;
     SilenceScript.capture := fun _ => None |}.

Definition studio_args : SilenceScript.args :=
  {| SilenceScript.input := "rec/audio.mp3";
     SilenceScript.output_dir := "out";
     SilenceScript.min_silence := dec 8 1;
     SilenceScript.threshold := of_decimal true 350 (-1);
     SilenceScript.min_seg := dec 10 1;
     SilenceScript.start_index := 1 |}.

Ltac each_char c :=
  destruct c as [[ | ] [ | ] [ | ] [ | ] [ | ] [ | ] [ | ] [ | ]].

Ltac float_cases :=
  repeat match goal with
         | x : float |- _ => destruct x as [ | [ | ] | ? ]
         end;
  simpl in *; try congruence;
  rewrite ?Z.ltb_lt, ?Z.leb_le, ?Z.ltb_ge, ?Z.leb_gt in *;
  try lia.

(** * Properties *)

(** The large constants stay folded in proofs. *)
Opaque c001 unit_scale overflow_bound.

(** ** Rounding is monotone *)

Section Rounding.
Local Open Scope Z_scope.

Lemma rne_div_bounds p q : p / q <= rne_div p q <= p / q + 1.
Proof.
  unfold rne_div.
  destruct (2 * (p mod q) ?= q); [destruct (Z.even (p / q)) | | ]; lia.
Qed.

Lemma rne_div_mono p1 p2 q :
  0 < q -> p1 <= p2 -> rne_div p1 q <= rne_div p2 q.
Proof.
  intros Hq Hp.
  assert (Ha : p1 / q <= p2 / q) by (apply Z.div_le_mono; lia).
  destruct (Z.eq_dec (p1 / q) (p2 / q)) as [E | N].
  - assert (Hr : p1 mod q <= p2 mod q).
    { rewrite !Z.mod_eq by lia. rewrite E. lia. }
    unfold rne_div. rewrite E.
    destruct (Z.compare_spec (2 * (p1 mod q)) q);
      destruct (Z.compare_spec (2 * (p2 mod q)) q);
      destruct (Z.even (p2 / q)); lia.
  - pose proof (rne_div_bounds p1 q). pose proof (rne_div_bounds p2 q). lia.
Qed.

Lemma rne_div_exact m q : 0 < q -> rne_div (m * q) q = m.
Proof.
  intros Hq. unfold rne_div.
  rewrite Z.div_mul, Z.mod_mul by lia.
  destruct (Z.compare_spec (2 * 0) q); [lia | reflexivity | lia].
Qed.

Lemma round_to_mono sh p1 p2 q :
  0 <= sh -> 0 < q -> p1 <= p2 -> round_to sh p1 q <= round_to sh p2 q.
Proof.
  intros Hsh Hq Hp. unfold round_to.
  assert (0 < 2 ^ sh) by (apply Z.pow_pos_nonneg; lia).
  apply Z.mul_le_mono_nonneg_r; [lia |].
  apply rne_div_mono; nia.
Qed.

Lemma round_to_exact sh m q :
  0 <= sh -> 0 < q -> round_to sh (m * 2 ^ sh * q) q = m * 2 ^ sh.
Proof.
  intros Hsh Hq. unfold round_to.
  assert (0 < 2 ^ sh) by (apply Z.pow_pos_nonneg; lia).
  replace (m * 2 ^ sh * q) with (m * (q * 2 ^ sh)) by ring.
  rewrite rne_div_exact by nia. reflexivity.
Qed.

Lemma excess_bits_nonneg a : 0 <= excess_bits a.
Proof. unfold excess_bits. lia. Qed.

Lemma excess_bits_mono a b : a <= b -> excess_bits a <= excess_bits b.
Proof.
  intros H. unfold excess_bits.
  pose proof (Z.log2_le_mono a b H). lia.
Qed.

Lemma excess_bits_upper a : a < 2 ^ (excess_bits a + 53).
Proof.
  destruct (Z.le_gt_cases a 0) as [Hle | Hpos].
  - assert (0 < 2 ^ (excess_bits a + 53))
      by (apply Z.pow_pos_nonneg; pose proof (excess_bits_nonneg a); lia).
    lia.
  - pose proof (Z.log2_spec a Hpos) as [_ Hlt].
    eapply Z.lt_le_trans; [exact Hlt |].
    apply Z.pow_le_mono_r; [lia |]. unfold excess_bits. lia.
Qed.

Lemma excess_bits_lower a : 0 < excess_bits a -> 2 ^ (excess_bits a + 52) <= a.
Proof.
  intros Hsh. unfold excess_bits in *.
  assert (Hl : 52 < Z.log2 a) by lia.
  assert (Hpos : 0 < a).
  { destruct (Z.le_gt_cases a 0) as [Hle | ]; [| assumption].
    rewrite (Z.log2_nonpos a Hle) in Hl. lia. }
  pose proof (Z.log2_spec a Hpos) as [Hge _].
  replace (Z.max 0 (Z.log2 a - 52) + 52) with (Z.log2 a) by lia.
  exact Hge.
Qed.

Lemma nearest53_sign_nonneg p q : 0 < q -> 0 <= p -> 0 <= nearest53 p q.
Proof.
  intros Hq Hp. unfold nearest53.
  set (sh := excess_bits _).
  pose proof (excess_bits_nonneg (Z.abs p / q)) as Hsh. fold sh in Hsh.
  pose proof (round_to_mono sh 0 p q Hsh Hq Hp) as H.
  pose proof (round_to_exact sh 0 q Hsh Hq) as H0.
  simpl in H0. rewrite H0 in H. exact H.
Qed.

Lemma nearest53_sign_nonpos p q : 0 < q -> p <= 0 -> nearest53 p q <= 0.
Proof.
  intros Hq Hp. unfold nearest53.
  set (sh := excess_bits _).
  pose proof (excess_bits_nonneg (Z.abs p / q)) as Hsh. fold sh in Hsh.
  pose proof (round_to_mono sh p 0 q Hsh Hq Hp) as H.
  pose proof (round_to_exact sh 0 q Hsh Hq) as H0.
  simpl in H0. rewrite H0 in H. exact H.
Qed.

Lemma abs_div_bounds p q :
  0 < q -> Z.abs p / q * q <= Z.abs p < (Z.abs p / q + 1) * q.
Proof.
  intros Hq.
  pose proof (Z.div_mod (Z.abs p) q ltac:(lia)).
  pose proof (Z.mod_pos_bound (Z.abs p) q Hq). nia.
Qed.

Lemma nearest53_upper p q :
  0 < q -> Z.abs (nearest53 p q) <= 2 ^ (excess_bits (Z.abs p / q) + 53).
Proof.
  intros Hq. unfold nearest53.
  set (a := Z.abs p / q). set (sh := excess_bits a).
  pose proof (excess_bits_nonneg a) as Hsh. fold sh in Hsh.
  pose proof (excess_bits_upper a) as Hup. fold sh in Hup.
  pose proof (abs_div_bounds p q Hq) as [_ Hp]. fold a in Hp.
  assert (H2 : 0 < 2 ^ sh) by (apply Z.pow_pos_nonneg; lia).
  assert (E : 2 ^ (sh + 53) = 2 ^ 53 * 2 ^ sh) by (rewrite Z.pow_add_r by lia; ring).
  rewrite E in *.
  assert (Hb : Z.abs p <= 2 ^ 53 * 2 ^ sh * q) by nia.
  pose proof (round_to_exact sh (2 ^ 53) q Hsh Hq) as Ex.
  pose proof (round_to_exact sh (- 2 ^ 53) q Hsh Hq) as Ex'.
  pose proof (round_to_mono sh p (2 ^ 53 * 2 ^ sh * q) q Hsh Hq ltac:(lia)).
  pose proof (round_to_mono sh (- 2 ^ 53 * 2 ^ sh * q) p q Hsh Hq ltac:(lia)).
  lia.
Qed.

Lemma nearest53_lower p q :
  0 < q -> 0 < excess_bits (Z.abs p / q) ->
  2 ^ (excess_bits (Z.abs p / q) + 52) <= Z.abs (nearest53 p q).
Proof.
  intros Hq Hpos. unfold nearest53.
  set (a := Z.abs p / q) in *. set (sh := excess_bits a) in *.
  pose proof (excess_bits_lower a Hpos) as Hlo. fold sh in Hlo.
  pose proof (abs_div_bounds p q Hq) as [Hp _]. fold a in Hp.
  assert (Hsh : 0 <= sh) by lia.
  assert (H2 : 0 < 2 ^ sh) by (apply Z.pow_pos_nonneg; lia).
  assert (E : 2 ^ (sh + 52) = 2 ^ 52 * 2 ^ sh) by (rewrite Z.pow_add_r by lia; ring).
  rewrite E in *.
  assert (Hb : 2 ^ 52 * 2 ^ sh * q <= Z.abs p) by nia.
  pose proof (round_to_exact sh (2 ^ 52) q Hsh Hq) as Ex.
  pose proof (round_to_exact sh (- 2 ^ 52) q Hsh Hq) as Ex'.
  destruct (Z.le_gt_cases 0 p).
  - pose proof (round_to_mono sh (2 ^ 52 * 2 ^ sh * q) p q Hsh Hq ltac:(lia)). lia.
  - pose proof (round_to_mono sh p (- 2 ^ 52 * 2 ^ sh * q) q Hsh Hq ltac:(lia)). lia.
Qed.

Lemma nearest53_mono p1 p2 q :
  0 < q -> p1 <= p2 -> nearest53 p1 q <= nearest53 p2 q.
Proof.
  intros Hq Hp.
  destruct (Z.le_gt_cases 0 p1) as [H1 | H1];
    [| destruct (Z.le_gt_cases 0 p2) as [H2 | H2]].
  - (* both non-negative *)
    assert (Hsh : excess_bits (Z.abs p1 / q) <= excess_bits (Z.abs p2 / q)).
    { apply excess_bits_mono, Z.div_le_mono; lia. }
    destruct (Z.eq_dec (excess_bits (Z.abs p1 / q)) (excess_bits (Z.abs p2 / q)))
      as [E | N].
    + unfold nearest53. rewrite E.
      apply round_to_mono; [apply excess_bits_nonneg | lia | lia].
    + pose proof (nearest53_upper p1 q Hq) as Hu.
      pose proof (excess_bits_nonneg (Z.abs p1 / q)).
      pose proof (nearest53_lower p2 q Hq ltac:(lia)) as Hl.
      pose proof (nearest53_sign_nonneg p2 q Hq ltac:(lia)).
      assert (2 ^ (excess_bits (Z.abs p1 / q) + 53)
              <= 2 ^ (excess_bits (Z.abs p2 / q) + 52))
        by (apply Z.pow_le_mono_r; lia).
      lia.
  - pose proof (nearest53_sign_nonpos p1 q Hq ltac:(lia)).
    pose proof (nearest53_sign_nonneg p2 q Hq ltac:(lia)). lia.
  - (* both negative *)
    assert (Hsh : excess_bits (Z.abs p2 / q) <= excess_bits (Z.abs p1 / q)).
    { apply excess_bits_mono, Z.div_le_mono; lia. }
    destruct (Z.eq_dec (excess_bits (Z.abs p1 / q)) (excess_bits (Z.abs p2 / q)))
      as [E | N].
    + unfold nearest53. rewrite E.
      apply round_to_mono; [apply excess_bits_nonneg | lia | lia].
    + pose proof (nearest53_upper p2 q Hq) as Hu.
      pose proof (excess_bits_nonneg (Z.abs p2 / q)).
      pose proof (nearest53_lower p1 q Hq ltac:(lia)) as Hl.
      pose proof (nearest53_sign_nonpos p1 q Hq ltac:(lia)).
      assert (2 ^ (excess_bits (Z.abs p2 / q) + 53)
              <= 2 ^ (excess_bits (Z.abs p1 / q) + 52))
        by (apply Z.pow_le_mono_r; lia).
      lia.
Qed.

Lemma round53_unfold p q :
  round53 p q =
  if overflow_bound <=? Z.abs (nearest53 p q) then Inf (p <? 0)
  else Fin (nearest53 p q).
Proof. reflexivity. Qed.

Lemma round53_mono p1 p2 q :
  0 < q -> p1 <= p2 -> leb (round53 p1 q) (round53 p2 q) = true.
Proof.
  intros Hq Hp. rewrite !round53_unfold.
  pose proof (nearest53_mono p1 p2 q Hq Hp) as Hm.
  destruct (Z.leb_spec overflow_bound (Z.abs (nearest53 p1 q))) as [O1 | O1];
    destruct (Z.leb_spec overflow_bound (Z.abs (nearest53 p2 q))) as [O2 | O2];
    destruct (Z.ltb_spec p1 0) as [S1 | S1];
    destruct (Z.ltb_spec p2 0) as [S2 | S2];
    simpl; try reflexivity; try lia;
    try (pose proof (nearest53_sign_nonneg p1 q Hq ltac:(lia)));
    try (pose proof (nearest53_sign_nonneg p2 q Hq ltac:(lia)));
    try (pose proof (nearest53_sign_nonpos p1 q Hq ltac:(lia)));
    try (pose proof (nearest53_sign_nonpos p2 q Hq ltac:(lia)));
    try lia; apply Z.leb_le; lia.
Qed.

End Rounding.

(** ** The order on floats *)

Section FloatOrder.
Local Open Scope Z_scope.

Lemma leb_trans x y z : leb x y = true -> leb y z = true -> leb x z = true.
Proof. intros; float_cases. Qed.

Lemma ltb_leb_trans x y z : ltb x y = true -> leb y z = true -> ltb x z = true.
Proof. intros; float_cases. Qed.

Lemma leb_ltb_trans x y z : leb x y = true -> ltb y z = true -> ltb x z = true.
Proof. intros; float_cases. Qed.

Lemma ltb_leb x y : ltb x y = true -> leb x y = true.
Proof. intros; float_cases. Qed.

Lemma ltb_not_nan_l x y : ltb x y = true -> is_nan x = false.
Proof. intros; float_cases. Qed.

Lemma ltb_not_nan_r x y : ltb x y = true -> is_nan y = false.
Proof. intros; float_cases. Qed.

Lemma leb_not_nan_l x y : leb x y = true -> is_nan x = false.
Proof. intros; float_cases. Qed.

Lemma leb_not_nan_r x y : leb x y = true -> is_nan y = false.
Proof. intros; float_cases. Qed.

Lemma leb_refl x : is_nan x = false -> leb x x = true.
Proof. intros; float_cases. Qed.

(** On numbers the order is total. *)
Lemma ltb_false_leb x y :
  is_nan x = false -> is_nan y = false -> ltb x y = false -> leb y x = true.
Proof. intros; float_cases. Qed.

Lemma leb_false_ltb x y :
  is_nan x = false -> is_nan y = false -> leb x y = false -> ltb y x = true.
Proof. intros; float_cases. Qed.

Lemma ltb_leb_false x y : ltb x y = true -> leb y x = false.
Proof. intros; float_cases. Qed.

Lemma leb_ltb_false x y : leb x y = true -> ltb y x = false.
Proof. intros; float_cases. Qed.

Lemma gtb_negb_leb x y :
  is_nan x = false -> is_nan y = false -> gtb x y = negb (leb x y).
Proof. unfold gtb; intros; float_cases; try (symmetry; apply Z.leb_gt; lia);
  destruct (Z.ltb_spec k0 k), (Z.leb_spec k k0); simpl; lia || reflexivity. Qed.

Lemma pymax_not_nan x y : is_nan x = false -> is_nan (pymax x y) = false.
Proof.
  intros H. unfold pymax, gtb. destruct (ltb x y) eqn:E; [| exact H].
  eapply ltb_not_nan_r; eassumption.
Qed.

Lemma pymax_ge_l x y : is_nan x = false -> leb x (pymax x y) = true.
Proof.
  intros H. unfold pymax, gtb. destruct (ltb x y) eqn:E.
  - apply ltb_leb; assumption.
  - apply leb_refl; assumption.
Qed.

Lemma pymax_ge_r x y :
  is_nan x = false -> is_nan y = false -> leb y (pymax x y) = true.
Proof.
  intros Hx Hy. unfold pymax, gtb. destruct (ltb x y) eqn:E.
  - apply leb_refl; assumption.
  - apply ltb_false_leb; assumption.
Qed.

Lemma unit_scale_pos : 0 < unit_scale.
Proof. change (0 < 2 ^ 1074). apply Z.pow_pos_nonneg; lia. Qed.

Lemma round53_not_nan p q : is_nan (round53 p q) = false.
Proof. rewrite round53_unfold. destruct (_ <=? _); reflexivity. Qed.

Lemma millis_mono a b : a <= b -> millis a <= millis b.
Proof.
  intros H. unfold millis. apply rne_div_mono; [apply unit_scale_pos | lia].
Qed.

Lemma of_millis_mono m n : m <= n -> leb (of_millis m) (of_millis n) = true.
Proof.
  intros H. unfold of_millis. apply round53_mono; [lia |].
  pose proof unit_scale_pos. nia.
Qed.

Lemma round3_not_nan x : is_nan x = false -> is_nan (round3 x) = false.
Proof.
  destruct x; simpl; try congruence. intros _. apply round53_not_nan.
Qed.

(** [round(_, 3)] never swaps two numbers. *)
Lemma round3_mono x y : leb x y = true -> leb (round3 x) (round3 y) = true.
Proof.
  destruct x as [ | [ | ] | a ], y as [ | [ | ] | b ]; simpl; try congruence.
  - intros _. pose proof (round53_not_nan (millis b * unit_scale) 1000) as H.
    unfold of_millis. destruct (round53 _ _) as [ | [ | ] | ]; simpl in *; congruence.
  - intros _. pose proof (round53_not_nan (millis a * unit_scale) 1000) as H.
    unfold of_millis. destruct (round53 _ _) as [ | [ | ] | ]; simpl in *; congruence.
  - intros H. apply of_millis_mono, millis_mono, Z.leb_le, H.
Qed.

Lemma sub_not_nan x y : ltb x y = true -> is_nan (sub y x) = false.
Proof.
  destruct x as [ | [ | ] | a ], y as [ | [ | ] | b ]; simpl; try congruence.
  intros _. apply round53_not_nan.
Qed.

Lemma round53_zero : round53 0 1 = Fin 0.
Proof. vm_compute. reflexivity. Qed.

(** A difference above a positive bound comes from a larger minuend. *)
Lemma sub_gt_pos x y c :
  ltb zero c = true -> ltb c (sub y x) = true -> ltb x y = true.
Proof.
  intros Hc H.
  destruct x as [ | [ | ] | a ], y as [ | [ | ] | b ]; simpl in *;
    try reflexivity;
    try (apply ltb_not_nan_r in H; discriminate);
    try (destruct c as [ | [ | ] | ]; simpl in *; congruence).
  apply Z.ltb_lt.
  destruct (Z.lt_ge_cases a b) as [ | Hge]; [assumption | exfalso].
  pose proof (round53_mono (b - a) 0 1 ltac:(lia) ltac:(lia)) as Hm.
  rewrite round53_zero in Hm.
  pose proof (ltb_leb_trans _ _ _ H Hm) as H0.
  destruct c as [ | [ | ] | k ]; simpl in *; try congruence.
  rewrite Z.ltb_lt in *. lia.
Qed.

End FloatOrder.

(** ** Rounding to milliseconds twice *)

Section Idempotent.
Local Open Scope Z_scope.

Lemma rne_div_nearest p q : 0 < q -> 2 * Z.abs (rne_div p q * q - p) <= q.
Proof.
  intros Hq. unfold rne_div.
  pose proof (Z.div_mod p q ltac:(lia)) as Hd.
  pose proof (Z.mod_pos_bound p q Hq) as Hr.
  destruct (Z.compare_spec (2 * (p mod q)) q);
    [destruct (Z.even (p / q)) | | ]; nia.
Qed.

Lemma rne_div_unique p q m :
  0 < q -> 2 * Z.abs (m * q - p) < q -> rne_div p q = m.
Proof.
  intros Hq Hm. unfold rne_div.
  pose proof (Z.div_mod p q ltac:(lia)) as Hd.
  pose proof (Z.mod_pos_bound p q Hq) as Hr.
  assert (m = p / q \/ m = p / q + 1) as [-> | ->] by nia;
    destruct (Z.compare_spec (2 * (p mod q)) q); try nia;
    destruct (Z.even (p / q)); nia.
Qed.

Lemma round_to_nearest sh p q :
  0 <= sh -> 0 < q ->
  2 * Z.abs (round_to sh p q * q - p) <= q * 2 ^ sh.
Proof.
  intros Hsh Hq. unfold round_to.
  assert (0 < 2 ^ sh) by (apply Z.pow_pos_nonneg; lia).
  pose proof (rne_div_nearest p (q * 2 ^ sh) ltac:(nia)) as H1.
  replace (rne_div p (q * 2 ^ sh) * 2 ^ sh * q)
    with (rne_div p (q * 2 ^ sh) * (q * 2 ^ sh)) by ring.
  exact H1.
Qed.

Lemma round_to_unique sh p q m :
  0 <= sh -> 0 < q ->
  2 * Z.abs (m * 2 ^ sh * q - p) < q * 2 ^ sh ->
  round_to sh p q = m * 2 ^ sh.
Proof.
  intros Hsh Hq H. unfold round_to.
  assert (0 < 2 ^ sh) by (apply Z.pow_pos_nonneg; lia).
  rewrite (rne_div_unique p (q * 2 ^ sh) m); [reflexivity | nia |].
  replace (m * (q * 2 ^ sh)) with (m * 2 ^ sh * q) by ring. exact H.
Qed.

(** A number of at most 53 significant bits is its own rounding. *)
Lemma nearest53_fix m sh q :
  0 < q -> 0 <= sh -> Z.abs m <= 2 ^ 53 ->
  nearest53 (m * 2 ^ sh * q) q = m * 2 ^ sh.
Proof.
  intros Hq Hsh Hm. unfold nearest53.
  assert (H2 : 0 < 2 ^ sh) by (apply Z.pow_pos_nonneg; lia).
  replace (Z.abs (m * 2 ^ sh * q) / q) with (Z.abs m * 2 ^ sh).
  2:{ rewrite !Z.abs_mul, (Z.abs_eq (2 ^ sh)), (Z.abs_eq q) by lia.
      rewrite Z.div_mul by lia. reflexivity. }
  set (sh' := excess_bits (Z.abs m * 2 ^ sh)).
  pose proof (excess_bits_nonneg (Z.abs m * 2 ^ sh)) as Hn. fold sh' in Hn.
  assert (Hm' : exists m', m * 2 ^ sh = m' * 2 ^ sh').
  { destruct (Z.eq_dec m 0) as [-> | Hz]; [exists 0; lia |].
    assert (Hlog : Z.log2 (Z.abs m * 2 ^ sh) = sh + Z.log2 (Z.abs m))
      by (apply Z.log2_mul_pow2; lia).
    destruct (Z.eq_dec (Z.abs m) (2 ^ 53)) as [E | N].
    - assert (sh' = sh + 1).
      { unfold sh', excess_bits. rewrite Hlog, E, Z.log2_pow2 by lia. lia. }
      exists (m / 2). subst sh'. rewrite H, Z.pow_add_r by lia.
      change (2 ^ 1) with 2.
      assert (m = 2 * (m / 2)).
      { apply Z.div_exact; [lia |].
        assert (Z.abs m mod 2 = 0) by (rewrite E; reflexivity).
        destruct (Z.abs_spec m) as [[_ Ea] | [_ Ea]]; rewrite Ea in *;
          [assumption |].
        rewrite <- (Z.opp_involutive m). apply Z.mod_opp_l_z; lia. }
      nia.
    - assert (Z.log2 (Z.abs m) < 53).
      { apply Z.log2_lt_pow2; lia. }
      assert (sh' <= sh) by (unfold sh', excess_bits; lia).
      exists (m * 2 ^ (sh - sh')).
      rewrite <- Z.mul_assoc, <- Z.pow_add_r by lia.
      do 2 f_equal. lia. }
  destruct Hm' as [m' E]. rewrite E. apply round_to_exact; assumption.
Qed.

Lemma unit_scale_split sh :
  0 <= sh <= 1064 -> exists c, 1024 <= c /\ unit_scale = c * 2 ^ sh.
Proof.
  intros H. exists (2 ^ (1074 - sh)). split.
  - change 1024 with (2 ^ 10). apply Z.pow_le_mono_r; lia.
  - rewrite <- Z.pow_add_r by lia. replace (1074 - sh + sh) with 1074 by lia.
    reflexivity.
Qed.

Lemma pow2_split sh :
  1065 <= sh -> exists c, 1 <= c /\ 2 ^ sh * 512 = c * unit_scale
                          /\ 2 ^ sh * 2 ^ 52 = c * 2 ^ 43 * unit_scale.
Proof.
  intros H. exists (2 ^ (sh - 1065)).
  assert (E : 2 ^ sh = 2 ^ (sh - 1065) * 2 ^ 1065)
    by (rewrite <- Z.pow_add_r by lia; f_equal; lia).
  assert (0 < 2 ^ (sh - 1065)) by (apply Z.pow_pos_nonneg; lia).
  assert (EU : unit_scale = 2 ^ 1065 * 512) by (vm_compute; reflexivity).
  assert (E52 : 2 ^ 1065 * 2 ^ 52 = 2 ^ 43 * unit_scale) by (vm_compute; reflexivity).
  repeat split; [lia | rewrite E, EU; ring |].
  rewrite E, <- Z.mul_assoc, E52. ring.
Qed.

(** The nearest float to a whole number of milliseconds has that number
    of milliseconds as its own rounding: [round(_, 3)] leaves it alone. *)
Lemma of_millis_fix n ky : of_millis n = Fin ky -> of_millis (millis ky) = Fin ky.
Proof.
  unfold of_millis. rewrite !round53_unfold.
  destruct (overflow_bound <=? Z.abs (nearest53 (n * unit_scale) 1000)) eqn:O;
    [discriminate |].
  intros H. injection H as Hky.
  enough (Hfix : nearest53 (millis ky * unit_scale) 1000 = ky).
  { rewrite Hfix, <- Hky, O. reflexivity. }
  pose proof unit_scale_pos as HU.
  pose proof (nearest53_upper (n * unit_scale) 1000 ltac:(lia)) as Hup.
  pose proof (nearest53_lower (n * unit_scale) 1000 ltac:(lia)) as Hlo.
  rewrite Hky in Hup, Hlo. unfold nearest53 in Hky.
  set (sh := excess_bits (Z.abs (n * unit_scale) / 1000)) in *.
  pose proof (excess_bits_nonneg (Z.abs (n * unit_scale) / 1000)) as Hsh.
  fold sh in Hsh.
  assert (HT : 0 < 2 ^ sh) by (apply Z.pow_pos_nonneg; lia).
  pose proof (round_to_nearest sh (n * unit_scale) 1000 Hsh ltac:(lia)) as Hnear.
  rewrite Hky in Hnear.
  destruct (Z.le_gt_cases sh 1064) as [Hsmall | Hbig].
  - (* the quantum is below a millisecond: the milliseconds are unchanged *)
    destruct (unit_scale_split sh ltac:(lia)) as (c & Hc & EU).
    assert (Hn : millis ky = n).
    { unfold millis. apply rne_div_unique; [exact HU |]. nia. }
    rewrite Hn. unfold nearest53. fold sh. exact Hky.
  - (* the quantum is above a millisecond *)
    destruct (pow2_split sh ltac:(lia)) as (c & Hc & E512 & E52).
    rewrite !Z.pow_add_r in Hup, Hlo by lia.
    specialize (Hlo ltac:(lia)).
    unfold round_to in Hky.
    set (m := rne_div (n * unit_scale) (1000 * 2 ^ sh)) in *.
    assert (Hm : 2 ^ 52 <= Z.abs m <= 2 ^ 53).
    { rewrite <- Hky, Z.abs_mul, (Z.abs_eq (2 ^ sh)) in Hup, Hlo by lia. nia. }
    pose proof (rne_div_nearest (1000 * ky) unit_scale HU) as Hn'.
    fold (millis ky) in Hn'.
    destruct (Z.eq_dec (Z.abs m) (2 ^ 52)) as [E1 | N1];
      [| destruct (Z.eq_dec (Z.abs m) (2 ^ 53)) as [E2 | N2]].
    + (* a power of two, hence a whole number of seconds *)
      assert (Hmul : exists d, ky = d * unit_scale).
      { destruct (Z.abs_spec m) as [[_ Ea] | [_ Ea]]; rewrite Ea in E1.
        - exists (c * 2 ^ 43). rewrite <- Hky, E1. lia.
        - exists (- (c * 2 ^ 43)). rewrite <- Hky.
          replace m with (- 2 ^ 52) by lia. lia. }
      destruct Hmul as [d Ed].
      assert (Hn : millis ky = 1000 * d).
      { unfold millis. rewrite Ed.
        replace (1000 * (d * unit_scale)) with (1000 * d * unit_scale) by ring.
        apply rne_div_exact, HU. }
      rewrite Hn. replace (1000 * d * unit_scale) with (m * 2 ^ sh * 1000) by lia.
      rewrite <- Hky. apply nearest53_fix; lia.
    + assert (Hmul : exists d, ky = d * unit_scale).
      { change (2 ^ 53) with (2 * 2 ^ 52) in E2.
        destruct (Z.abs_spec m) as [[_ Ea] | [_ Ea]]; rewrite Ea in E2.
        - exists (2 * (c * 2 ^ 43)). rewrite <- Hky, E2. lia.
        - exists (- (2 * (c * 2 ^ 43))). rewrite <- Hky.
          replace m with (- (2 * 2 ^ 52)) by lia. lia. }
      destruct Hmul as [d Ed].
      assert (Hn : millis ky = 1000 * d).
      { unfold millis. rewrite Ed.
        replace (1000 * (d * unit_scale)) with (1000 * d * unit_scale) by ring.
        apply rne_div_exact, HU. }
      rewrite Hn. replace (1000 * d * unit_scale) with (m * 2 ^ sh * 1000) by lia.
      rewrite <- Hky. apply nearest53_fix; lia.
    + (* inside the binade: the same quantum applies *)
      assert (Hm' : 2 ^ 52 + 1 <= Z.abs m <= 2 ^ 53 - 1) by lia.
      assert (Hky' : Z.abs ky = Z.abs m * 2 ^ sh)
        by (rewrite <- Hky, Z.abs_mul, (Z.abs_eq (2 ^ sh)); lia).
      set (P := millis ky * unit_scale) in *.
      assert (HP : 2 * Z.abs (P - 1000 * ky) <= unit_scale) by (unfold P; lia).
      assert (HUT : unit_scale <= 512 * 2 ^ sh).
      { assert (1 * unit_scale <= c * unit_scale)
          by (apply Z.mul_le_mono_nonneg_r; lia).
        lia. }
      assert (HK1 : (2 ^ 52 + 1) * 2 ^ sh <= Z.abs ky)
        by (rewrite Hky'; apply Z.mul_le_mono_nonneg_r; lia).
      assert (HK2 : Z.abs ky <= (2 ^ 53 - 1) * 2 ^ sh)
        by (rewrite Hky'; apply Z.mul_le_mono_nonneg_r; lia).
      assert (Hlow : 1000 * (2 ^ 52 * 2 ^ sh) <= Z.abs P) by lia.
      assert (Hhigh : Z.abs P < 1000 * (2 ^ 53 * 2 ^ sh)) by lia.
      assert (Hlog : Z.log2 (Z.abs P / 1000) = sh + 52).
      { apply Z.log2_unique; [lia |]. split.
        - apply Z.div_le_lower_bound; [lia |].
          rewrite Z.pow_add_r by lia. lia.
        - apply Z.div_lt_upper_bound; [lia |].
          replace (Z.succ (sh + 52)) with (sh + 53) by lia.
          rewrite Z.pow_add_r by lia. lia. }
      unfold nearest53. unfold excess_bits. rewrite Hlog.
      replace (Z.max 0 (sh + 52 - 52)) with sh by lia.
      rewrite <- Hky. apply round_to_unique; [lia | lia |].
      rewrite Hky.
      replace (ky * 1000 - P) with (- (P - 1000 * ky)) by ring.
      rewrite Z.abs_opp. lia.
Qed.

Lemma round3_idempotent x : round3 (round3 x) = round3 x.
Proof.
  destruct x as [ | s | k]; try reflexivity.
  cbn [round3]. destruct (of_millis (millis k)) as [ | s | ky] eqn:E;
    try reflexivity.
  cbn [round3]. exact (of_millis_fix (millis k) ky E).
Qed.

End Idempotent.

(** ** The complement computation *)

Section BuildSegments.
Import SplitBySilence.

Lemma build_loop_cursor silences : forall segs cur D,
  (let '(segments, c) := fold_left build_step silences (segs, cur) in
   if D >? c then segments ++ [(c, D)] else segments)
  = segs ++ Spec.cursor_segments cur silences D.
Proof.
  induction silences as [ | [s e] rest IH]; intros segs cur D; simpl.
  - destruct (D >? cur); [reflexivity | symmetry; apply app_nil_r].
  - rewrite IH. destruct (s >? cur); simpl.
    + rewrite <- app_assoc. reflexivity.
    + reflexivity.
Qed.

Lemma raw_segments_cursor silences D :
  raw_segments silences D = Spec.cursor_segments zero silences D.
Proof.
  unfold raw_segments, build_loop.
  exact (build_loop_cursor silences [] zero D).
Qed.

(** Every segment the cursor emits has its start below its end. *)
Lemma cursor_segments_lt silences : forall cur D seg,
  In seg (Spec.cursor_segments cur silences D) -> (fst seg <? snd seg) = true.
Proof.
  induction silences as [ | [s e] rest IH]; intros cur D seg; simpl.
  - destruct (D >? cur) eqn:E; simpl; [| tauto].
    intros [<- | []]. exact E.
  - intros H. apply in_app_or in H. destruct H as [H | H].
    + destruct (s >? cur) eqn:E; simpl in H; [| tauto].
      destruct H as [<- | []]. exact E.
    + eapply IH; eassumption.
Qed.

Lemma c001_pos : (zero <? c001) = true.
Proof. vm_compute. reflexivity. Qed.

Lemma c001_not_nan : is_nan c001 = false.
Proof. vm_compute. reflexivity. Qed.

Lemma round3_zero : round3 zero = zero.
Proof. vm_compute. reflexivity. Qed.

Lemma long_enough_spec seg :
  (fst seg <? snd seg) = true ->
  long_enough seg = negb (snd seg - fst seg <=? c001).
Proof.
  destruct seg as [a b]; simpl. intros H.
  apply gtb_negb_leb; [apply sub_not_nan; exact H | apply c001_not_nan].
Qed.

Lemma long_enough_lt seg : long_enough seg = true -> (fst seg <? snd seg) = true.
Proof.
  destruct seg as [a b]; simpl. apply sub_gt_pos, c001_pos.
Qed.

Lemma build_segments_spec silences D :
  build_segments silences D = Spec.segments silences D.
Proof.
  unfold build_segments, Spec.segments. rewrite raw_segments_cursor.
  erewrite filter_ext_in.
  - apply map_ext. intros [a b]. reflexivity.
  - intros seg Hin. apply long_enough_spec.
    eapply cursor_segments_lt; eassumption.
Qed.

(** ** Order of the returned segments *)

Lemma chain_ordered l : chain l -> ordered l = true.
Proof.
  induction 1 as [ | x l Hx Hl IH]; [reflexivity |].
  destruct l as [ | y l']; [reflexivity |].
  change (ordered (x :: y :: l')) with ((snd x <=? fst y) && ordered (y :: l')).
  rewrite IH. inversion Hx; subst.
  apply andb_true_iff; split; [assumption | reflexivity].
Qed.

Lemma chain_filter f l : chain l -> chain (filter f l).
Proof.
  induction 1 as [ | x l Hx Hl IH]; simpl; [constructor |].
  destruct (f x); [| assumption].
  constructor; [| assumption].
  rewrite Forall_forall in *. intros y Hy. apply filter_In in Hy. apply Hx, Hy.
Qed.

Lemma chain_round l : chain l -> chain (map round_interval l).
Proof.
  induction 1 as [ | [a b] l Hx Hl IH]; simpl; [constructor |].
  constructor; [| assumption].
  rewrite Forall_forall in *. intros y Hy. apply in_map_iff in Hy.
  destruct Hy as [[a' b'] [<- Hin]]. simpl.
  apply round3_mono. exact (Hx _ Hin).
Qed.

Lemma cursor_segments_after silences : forall cur D seg,
  is_nan cur = false ->
  In seg (Spec.cursor_segments cur silences D) -> (cur <=? fst seg) = true.
Proof.
  induction silences as [ | [s e] rest IH]; intros cur D seg Hc; simpl.
  - destruct (D >? cur); simpl; [| tauto].
    intros [<- | []]. apply leb_refl, Hc.
  - intros H. apply in_app_or in H. destruct H as [H | H].
    + destruct (s >? cur); simpl in H; [| tauto].
      destruct H as [<- | []]. apply leb_refl, Hc.
    + eapply leb_trans; [apply (pymax_ge_l cur e Hc) |].
      eapply IH; [apply pymax_not_nan, Hc | eassumption].
Qed.

Lemma cursor_segments_chain silences : forall cur D,
  is_nan cur = false ->
  Forall (fun sil => (fst sil <=? snd sil) = true) silences ->
  chain (Spec.cursor_segments cur silences D).
Proof.
  induction silences as [ | [s e] rest IH]; intros cur D Hc Hs; simpl.
  - destruct (D >? cur); repeat constructor.
  - inversion Hs as [ | ? ? Hse Hrest]; subst. simpl in Hse.
    specialize (IH (pymax cur e) D (pymax_not_nan cur e Hc) Hrest).
    destruct (s >? cur); simpl; [| exact IH].
    constructor; [| exact IH].
    rewrite Forall_forall. intros y Hy. simpl.
    eapply leb_trans; [exact Hse |].
    eapply leb_trans;
      [apply (pymax_ge_r cur e Hc); eapply leb_not_nan_r; exact Hse |].
    eapply cursor_segments_after; [apply pymax_not_nan, Hc | exact Hy].
Qed.

Lemma build_segments_chain silences D :
  Forall (fun sil => (fst sil <=? snd sil) = true) silences ->
  chain (build_segments silences D).
Proof.
  intros Hs. unfold build_segments.
  apply chain_round, chain_filter. rewrite raw_segments_cursor.
  apply cursor_segments_chain; [reflexivity | exact Hs].
Qed.

End BuildSegments.

Section BuildSegmentsClaims.
Import SplitBySilence.

Lemma sub_zero_r D : representable D = true -> D - zero = D.
Proof.
  destruct D as [ | s | k]; simpl; try reflexivity.
  rewrite Z.sub_0_r. destruct (round53 k 1); try discriminate.
  intros H. apply Z.eqb_eq in H. congruence.
Qed.

(** C1.  [build_segments] returns exactly the segments of the
    specification's cursor algorithm, with endpoints rounded to three
    decimal digits and the segments of at most ten milliseconds dropped
    (for every silence list, so in particular for the ordered ones); and
    silences [(2.0, 3.0), (5.0, 5.5)] with [D = 10.0] give
    [(0.0, 2.0), (3.0, 5.0), (5.5, 10.0)]. *)
Theorem build_segments_cursor_algorithm :
  (forall silences D, build_segments silences D = Spec.segments silences D)
  /\ build_segments [(dec 20 1, dec 30 1); (dec 50 1, dec 55 1)] (dec 100 1)
     = [(dec 0 1, dec 20 1); (dec 30 1, dec 50 1); (dec 55 1, dec 100 1)].
Proof.
  split.
  - exact build_segments_spec.
  - vm_compute. reflexivity.
Qed.

(** C3, as stated, fails: for the positive duration [0.005] and no silence
    the result is empty, not the single segment [(0, D)]. *)
Lemma no_silence_short_duration :
  (zero <? dec 5 3) = true
  /\ build_segments [] (dec 5 3) = []
  /\ build_segments [] (dec 5 3) <> [(zero, dec 5 3)].
Proof.
  split; [vm_compute; reflexivity |].
  assert (E : build_segments [] (dec 5 3) = []) by (vm_compute; reflexivity).
  split; [exact E | rewrite E; discriminate].
Qed.

(** C3, amended.  With no silence, a duration [D] above ten milliseconds
    gives exactly one segment, [(0, round(D, 3))]; a positive duration of
    at most ten milliseconds gives none. *)
Theorem build_segments_no_silence D :
  representable D = true ->
  ((c001 <? D) = true -> build_segments [] D = [(zero, round3 D)])
  /\ ((zero <? D) = true -> (D <=? c001) = true -> build_segments [] D = []).
Proof.
  intros HD. unfold build_segments, raw_segments, build_loop.
  cbn [fold_left]. unfold gtb. split.
  - intros H.
    rewrite (leb_ltb_trans zero c001 D (ltb_leb _ _ c001_pos) H).
    cbn [app filter long_enough]. unfold gtb.
    rewrite (sub_zero_r D HD), H. cbn [map round_interval].
    rewrite round3_zero. reflexivity.
  - intros Hpos Hle. rewrite Hpos.
    cbn [app filter long_enough]. unfold gtb.
    rewrite (sub_zero_r D HD), (leb_ltb_false _ _ Hle). reflexivity.
Qed.

Lemma build_segments_no_silence_witness :
  build_segments [] (dec 725 2) = [(zero, round3 (dec 725 2))].
Proof.
  apply (build_segments_no_silence (dec 725 2)); vm_compute; reflexivity.
Defined.

(** C10, as stated, fails: with no silence and [D = 0.0104] the returned
    interval is [(0.0, 0.01)], whose length is not above [0.01]. *)
Lemma rounded_segment_not_long :
  build_segments [] (dec 104 4) = [(zero, c001)]
  /\ forallb long_enough (build_segments [] (dec 104 4)) = false.
Proof. split; vm_compute; reflexivity. Qed.

Lemma rne_div_shift p q : (0 < q)%Z -> rne_div (p + 10 * q) q = (rne_div p q + 10)%Z.
Proof.
  intros Hq. unfold rne_div.
  rewrite Z.div_add, Z.mod_add by lia.
  rewrite Z.even_add. change (Z.even 10) with true.
  destruct (2 * (p mod q) ?= q)%Z; [destruct (Z.even (p / q)); simpl | | ]; lia.
Qed.

Lemma c001_fin : c001 = Fin c001_quanta.
Proof. vm_compute. reflexivity. Qed.

Lemma c001_quanta_bound : (unit_scale <= 100 * c001_quanta)%Z.
Proof. apply Z.leb_le. vm_compute. reflexivity. Qed.

Lemma c001_representable : round53 c001_quanta 1 = Fin c001_quanta.
Proof. vm_compute. reflexivity. Qed.

(** A segment of finite endpoints that passes the filter is longer than
    [0.01] exactly, and its endpoints are at least ten apart when counted
    in whole milliseconds. *)
Lemma long_enough_exact ka kb :
  long_enough (Fin ka, Fin kb) = true -> (c001_quanta < kb - ka)%Z.
Proof.
  cbn [long_enough sub]. unfold gtb. intros H.
  destruct (Z.lt_ge_cases c001_quanta (kb - ka)) as [ | Hle]; [assumption |].
  pose proof (round53_mono (kb - ka) c001_quanta 1 ltac:(lia) ltac:(lia)) as Hm.
  rewrite c001_representable, <- c001_fin in Hm.
  rewrite (leb_ltb_false _ _ Hm) in H. discriminate.
Qed.

Lemma long_enough_millis ka kb :
  long_enough (Fin ka, Fin kb) = true -> (millis ka + 10 <= millis kb)%Z.
Proof.
  intros H. apply long_enough_exact in H.
  pose proof c001_quanta_bound. pose proof unit_scale_pos.
  unfold millis. rewrite <- rne_div_shift by assumption.
  apply rne_div_mono; lia.
Qed.

(** C10, amended.  When every silence ends no earlier than it starts, each
    returned interval is the rounding to three decimals of a cursor segment
    whose own length is above [0.01]; its start is not above its end, and
    its finite endpoints are at least ten apart when counted in whole
    milliseconds; each interval starts no earlier than the previous one
    ends. *)
Theorem build_segments_ordered silences D :
  Forall (fun sil => (fst sil <=? snd sil) = true) silences ->
  (forall seg, In seg (build_segments silences D) ->
     (fst seg <=? snd seg) = true
     /\ exists raw,
          In raw (raw_segments silences D)
          /\ long_enough raw = true /\ seg = round_interval raw
          /\ forall ka kb, raw = (Fin ka, Fin kb) ->
                            (millis ka + 10 <= millis kb)%Z)
  /\ ordered (build_segments silences D) = true.
Proof.
  intros Hs. split.
  - intros seg Hin. unfold build_segments in Hin.
    apply in_map_iff in Hin. destruct Hin as [raw [<- Hraw]].
    apply filter_In in Hraw. destruct Hraw as [Hraw Hlong].
    split.
    + destruct raw as [a b]. simpl.
      apply round3_mono, ltb_leb. exact (long_enough_lt (a, b) Hlong).
    + exists raw. repeat split; try assumption.
      intros ka kb ->. apply long_enough_millis, Hlong.
  - apply chain_ordered, build_segments_chain, Hs.
Qed.

Lemma build_segments_ordered_witness :
  ordered (build_segments [(dec 20 1, dec 30 1); (dec 50 1, dec 55 1)] (dec 100 1))
  = true.
Proof.
  apply (build_segments_ordered
           [(dec 20 1, dec 30 1); (dec 50 1, dec 55 1)] (dec 100 1)).
  repeat (apply Forall_cons; [vm_compute; reflexivity |]). apply Forall_nil.
Defined.

End BuildSegmentsClaims.

(** ** Covering the whole duration *)

Section Tiling.
Import SplitBySilence.

Lemma coverage_cons t iv l :
  coverage t (iv :: l) = ((if inside t iv then 1 else 0) + coverage t l)%nat.
Proof. unfold coverage. simpl. destruct (inside t iv); reflexivity. Qed.

Lemma coverage_app t l1 l2 :
  coverage t (l1 ++ l2) = (coverage t l1 + coverage t l2)%nat.
Proof. unfold coverage. rewrite filter_app, length_app. reflexivity. Qed.

Lemma coverage_none t l :
  (forall iv, In iv l -> inside t iv = false) -> coverage t l = 0%nat.
Proof.
  induction l as [ | iv l IH]; intros H; [reflexivity |].
  rewrite coverage_cons, (H iv (or_introl eq_refl)), IH; [reflexivity |].
  intros iv' Hin. apply H. right. exact Hin.
Qed.

Lemma inside_before t iv : (t <? fst iv) = true -> inside t iv = false.
Proof.
  intros H. unfold inside. rewrite (ltb_leb_false _ _ H). reflexivity.
Qed.

Lemma coverage_before t l :
  (forall iv, In iv l -> (t <? fst iv) = true) -> coverage t l = 0%nat.
Proof.
  intros H. apply coverage_none. intros iv Hin. apply inside_before, H, Hin.
Qed.

(** In a sorted, non-overlapping list every silence after the first starts
    no earlier than the first one ends. *)
Lemma disjoint_sorted_tail s e rest :
  disjoint_sorted ((s, e) :: rest) = true ->
  (s <=? e) = true /\ disjoint_sorted rest = true
  /\ forall iv, In iv rest -> (e <=? fst iv) = true.
Proof.
  revert s e. induction rest as [ | [s' e'] rest IH]; intros s e H.
  - simpl in H. rewrite !andb_true_iff in H. intuition.
  - change (((s <=? e) && (e <=? s') && disjoint_sorted ((s', e') :: rest)) = true) in H.
    rewrite !andb_true_iff in H. destruct H as [[Hse Hes'] Hrest].
    destruct (IH s' e' Hrest) as [Hs'e' [_ Hall]].
    repeat split; try assumption.
    intros iv [<- | Hin]; [exact Hes' |].
    eapply leb_trans; [exact Hes' |].
    eapply leb_trans; [exact Hs'e' |]. apply Hall, Hin.
Qed.

(** Between the cursor and [D], every instant lies in exactly one of the
    cursor's segments and the remaining silences. *)
Lemma cursor_tiling D silences : forall cur t,
  is_nan cur = false ->
  disjoint_sorted silences = true ->
  (cur <=? t) = true -> (t <? D) = true ->
  (coverage t (Spec.cursor_segments cur silences D) + coverage t silences = 1)%nat.
Proof.
  induction silences as [ | [s e] rest IH]; intros cur t Hc Hs Hct HtD.
  - simpl. unfold gtb. rewrite (leb_ltb_trans _ _ _ Hct HtD).
    rewrite coverage_cons. unfold inside. simpl. rewrite Hct, HtD. reflexivity.
  - destruct (disjoint_sorted_tail s e rest Hs) as [Hse [Hrest Hafter]].
    assert (Ht : is_nan t = false) by (eapply leb_not_nan_r; exact Hct).
    assert (Hsn : is_nan s = false) by (eapply leb_not_nan_l; exact Hse).
    assert (Hen : is_nan e = false) by (eapply leb_not_nan_r; exact Hse).
    assert (Hc' : is_nan (pymax cur e) = false) by (apply pymax_not_nan, Hc).
    cbn [Spec.cursor_segments]. rewrite coverage_app, (coverage_cons t (s, e)).
    destruct (t <? e) eqn:Hte.
    + (* before the end of this silence: nothing later contains [t] *)
      assert (Hlater : coverage t (Spec.cursor_segments (pymax cur e) rest D) = 0%nat).
      { apply coverage_before. intros iv Hin.
        eapply ltb_leb_trans; [exact Hte |].
        eapply leb_trans; [apply (pymax_ge_r cur e Hc Hen) |].
        eapply cursor_segments_after; eassumption. }
      assert (Hsil : coverage t rest = 0%nat).
      { apply coverage_before. intros iv Hin.
        eapply ltb_leb_trans; [exact Hte | apply Hafter, Hin]. }
      rewrite Hlater, Hsil. unfold gtb, inside. cbn [fst snd]. rewrite Hte.
      destruct (t <? s) eqn:Hts.
      * rewrite (leb_ltb_trans _ _ _ Hct Hts).
        rewrite coverage_cons. unfold inside. cbn [fst snd].
        rewrite Hct, Hts, (ltb_leb_false _ _ Hts). reflexivity.
      * pose proof (ltb_false_leb _ _ Ht Hsn Hts) as Hst. rewrite Hst.
        destruct (cur <? s); [| reflexivity].
        rewrite coverage_cons. unfold inside. cbn [fst snd].
        rewrite Hts, andb_false_r. reflexivity.
    + (* at or after the end of this silence *)
      pose proof (ltb_false_leb _ _ Ht Hen Hte) as Het.
      assert (Hst : (s <=? t) = true) by (eapply leb_trans; eassumption).
      assert (Hcur : (pymax cur e <=? t) = true).
      { unfold pymax. destruct (e >? cur); assumption. }
      specialize (IH (pymax cur e) t Hc' Hrest Hcur HtD).
      unfold inside at 1. cbn [fst snd]. rewrite Hte, andb_false_r.
      assert (Hins : inside t (cur, s) = false).
      { unfold inside. cbn [fst snd].
        rewrite (leb_ltb_false _ _ Hst), andb_false_r. reflexivity. }
      destruct (s >? cur); [rewrite coverage_cons, Hins |]; exact IH.
Qed.

Lemma fmax_zero_ge x : (zero <=? fmax zero x) = true.
Proof.
  unfold fmax. destruct (zero <? x) eqn:E; [apply ltb_leb, E | reflexivity].
Qed.

Lemma ltb_trans x y z : (x <? y) = true -> (y <? z) = true -> (x <? z) = true.
Proof. intros H1 H2. eapply ltb_leb_trans; [exact H1 | apply ltb_leb, H2]. Qed.

Lemma fmin_below D x t : (t <? fmin D x) = true -> (t <? D) = true.
Proof.
  unfold fmin. destruct (x <? D) eqn:E; [| auto].
  intros H. eapply ltb_trans; eassumption.
Qed.

(** A clipped interval holds instants of [[0, D)] only, and there it
    agrees with the interval itself. *)
Lemma inside_clip_range D t iv :
  inside t (clip D iv) = true ->
  (zero <=? t) = true /\ (t <? D) = true.
Proof.
  intros H. unfold inside, clip in H. cbn [fst snd] in H.
  apply andb_true_iff in H. destruct H as [H1 H2]. split.
  - eapply leb_trans; [apply fmax_zero_ge | exact H1].
  - eapply fmin_below; exact H2.
Qed.

Lemma inside_clip D t iv :
  is_nan (fst iv) = false -> is_nan (snd iv) = false ->
  (zero <=? t) = true -> (t <? D) = true ->
  inside t (clip D iv) = inside t iv.
Proof.
  destruct iv as [a b]. cbn [fst snd]. intros Ha Hb H0 HD.
  unfold inside, clip, fmax, fmin. cbn [fst snd]. f_equal.
  - destruct (zero <? a) eqn:E; [reflexivity |].
    rewrite H0. symmetry.
    eapply leb_trans; [| exact H0]. apply ltb_false_leb; auto.
  - destruct (b <? D) eqn:E; [reflexivity |].
    rewrite HD. symmetry.
    eapply ltb_leb_trans; [exact HD |].
    apply ltb_false_leb; auto. eapply ltb_not_nan_r; exact HD.
Qed.

Lemma coverage_clip D t l :
  (forall iv, In iv l -> is_nan (fst iv) = false /\ is_nan (snd iv) = false) ->
  (zero <=? t) = true -> (t <? D) = true ->
  coverage t (map (clip D) l) = coverage t l.
Proof.
  intros Hl H0 HD. induction l as [ | iv l IH]; [reflexivity |].
  cbn [map]. rewrite !coverage_cons, IH.
  - destruct (Hl iv (or_introl eq_refl)) as [Ha Hb].
    rewrite (inside_clip D t iv Ha Hb H0 HD). reflexivity.
  - intros iv' Hin. apply Hl. right. exact Hin.
Qed.

Lemma disjoint_sorted_numbers silences :
  disjoint_sorted silences = true ->
  forall iv, In iv silences -> is_nan (fst iv) = false /\ is_nan (snd iv) = false.
Proof.
  induction silences as [ | [s e] rest IH]; intros H iv Hin; [contradiction |].
  destruct (disjoint_sorted_tail s e rest H) as [Hse [Hrest _]].
  destruct Hin as [<- | Hin]; [| apply IH; assumption].
  split; [eapply leb_not_nan_l | eapply leb_not_nan_r]; exact Hse.
Qed.

(** C2, as stated, fails: the silence [(0.005, 1.0)] leaves the segment
    [(0, 0.005)], which [build_segments] drops; the instant [0] of
    [[0, 2.0)] is then in no segment and in no silence. *)
Lemma dropped_segment_leaves_gap :
  let silences := [(dec 5 3, dec 10 1)] in
  let D := dec 20 1 in
  disjoint_sorted silences = true
  /\ build_segments silences D = [(dec 10 1, D)]
  /\ ((zero <=? zero) && (zero <? D)) = true
  /\ coverage zero (map (clip D) (build_segments silences D ++ silences)) = 0%nat
  /\ ~ tiles D (build_segments silences D) silences.
Proof.
  cbv zeta.
  assert (H0 : coverage zero (map (clip (dec 20 1))
            (build_segments [(dec 5 3, dec 10 1)] (dec 20 1) ++ [(dec 5 3, dec 10 1)]))
          = 0%nat) by (vm_compute; reflexivity).
  assert (H1 : ((zero <=? zero) && (zero <? dec 20 1)) = true)
    by (vm_compute; reflexivity).
  split; [vm_compute; reflexivity |].
  split; [vm_compute; reflexivity |].
  split; [exact H1 |].
  split; [exact H0 |].
  intros H. specialize (H zero). rewrite H0, H1 in H. discriminate.
Qed.

(** C2, amended.  For every sorted, non-overlapping silence list and every
    duration [D], the segments that [build_segments] computes before its
    final step (before the segments of at most ten milliseconds are dropped
    and the endpoints rounded) and the silences, each clipped to [[0, D]],
    cover [[0, D)] exactly: every instant lies in exactly one of them, and
    none outside. *)
Theorem raw_segments_tile silences D :
  disjoint_sorted silences = true ->
  tiles D (raw_segments silences D) silences.
Proof.
  intros Hs t.
  destruct ((zero <=? t) && (t <? D)) eqn:Hin.
  - apply andb_true_iff in Hin. destruct Hin as [H0 HtD].
    rewrite coverage_clip; try assumption.
    + rewrite coverage_app, raw_segments_cursor.
      apply cursor_tiling; auto.
    + intros iv Hiv. apply in_app_or in Hiv. destruct Hiv as [Hiv | Hiv].
      * rewrite raw_segments_cursor in Hiv.
        pose proof (cursor_segments_lt _ _ _ _ Hiv) as Hlt.
        split; [eapply ltb_not_nan_l | eapply ltb_not_nan_r]; exact Hlt.
      * apply (disjoint_sorted_numbers silences Hs), Hiv.
  - apply coverage_none. intros iv Hiv.
    destruct (inside t iv) eqn:E; [| reflexivity].
    apply in_map_iff in Hiv. destruct Hiv as [iv0 [<- _]].
    destruct (inside_clip_range D t iv0 E) as [H1 H2].
    rewrite H1, H2 in Hin. discriminate.
Qed.

Lemma raw_segments_tile_witness :
  tiles (dec 100 1)
    (raw_segments [(dec 20 1, dec 30 1); (dec 50 1, dec 55 1)] (dec 100 1))
    [(dec 20 1, dec 30 1); (dec 50 1, dec 55 1)].
Proof.
  apply (raw_segments_tile [(dec 20 1, dec 30 1); (dec 50 1, dec 55 1)] (dec 100 1)).
  vm_compute. reflexivity.
Defined.

End Tiling.

(** ** Pairing of silence markers *)

Section DetectSilences.
Import SplitBySilence.

Lemma skipn_nth_some {A : Type} (l : list A) i x :
  nth_error l i = Some x -> skipn i l = x :: skipn (S i) l.
Proof.
  revert i. induction l as [ | y l IH]; intros [ | i] H; simpl in *;
    try discriminate.
  - congruence.
  - apply IH, H.
Qed.

Lemma skipn_nth_none {A : Type} (l : list A) i :
  nth_error l i = None -> skipn i l = [].
Proof.
  intros H. apply skipn_all2, nth_error_None, H.
Qed.

(** From any state of the loop, enough fuel gives the pairs of the
    remaining starts and ends. *)
Lemma detect_loop_pairing starts ends : forall fuel i j out,
  (List.length ends - j <= fuel)%nat ->
  detect_loop fuel starts ends i j out
  = Some (out ++ Spec.pairing (skipn i starts) (skipn j ends)).
Proof.
  induction fuel as [ | fuel IH]; intros i j out Hfuel.
  - simpl. destruct (nth_error starts i) as [s | ] eqn:Es.
    + destruct (nth_error ends j) as [e | ] eqn:Ee.
      * assert (j < List.length ends)%nat
          by (apply nth_error_Some; congruence). lia.
      * rewrite (skipn_nth_some _ _ _ Es), (skipn_nth_none _ _ Ee).
        simpl. rewrite app_nil_r. reflexivity.
    + rewrite (skipn_nth_none _ _ Es). simpl. rewrite app_nil_r. reflexivity.
  - simpl. destruct (nth_error starts i) as [s | ] eqn:Es.
    + destruct (nth_error ends j) as [e | ] eqn:Ee.
      * rewrite (skipn_nth_some _ _ _ Es), (skipn_nth_some _ _ _ Ee).
        assert (j < List.length ends)%nat
          by (apply nth_error_Some; congruence).
        cbn [Spec.pairing Spec.earliest_end].
        destruct (e >=? s).
        -- rewrite IH by lia. rewrite <- app_assoc. reflexivity.
        -- rewrite IH by lia. rewrite (skipn_nth_some _ _ _ Es). reflexivity.
      * rewrite (skipn_nth_some _ _ _ Es), (skipn_nth_none _ _ Ee).
        simpl. rewrite app_nil_r. reflexivity.
    + rewrite (skipn_nth_none _ _ Es). simpl. rewrite app_nil_r. reflexivity.
Qed.

(** C4.  [detect_silences] terminates and returns the pairing of the
    specification: each start with the earliest unconsumed end that is not
    below it, the ends passed over skipped, no pair for a start that is left
    without an end.  With starts [1, 5, 9] and ends [0.5, 2, 3, 6] the pairs
    are [(1, 2), (5, 6)]. *)
Theorem detect_silences_pairing :
  (forall starts ends,
     detect_silences starts ends = Some (Spec.pairing starts ends))
  /\ detect_silences [dec 1 0; dec 5 0; dec 9 0] [dec 5 1; dec 2 0; dec 3 0; dec 6 0]
     = Some [(dec 1 0, dec 2 0); (dec 5 0, dec 6 0)].
Proof.
  split.
  - intros starts ends. unfold detect_silences.
    rewrite detect_loop_pairing by lia. reflexivity.
  - vm_compute. reflexivity.
Qed.

End DetectSilences.

(** ** Segment export *)

Section SegmentExport.

Lemma c001_above_zero : (c001 <=? zero) = false.
Proof. vm_compute. reflexivity. Qed.

Lemma export_duration_positive x : (pymax x c001 <=? zero) = false.
Proof.
  unfold pymax, gtb. destruct (x <? c001) eqn:E.
  - exact c001_above_zero.
  - destruct (x <=? zero) eqn:E0; [| reflexivity].
    rewrite (leb_ltb_trans _ _ _ E0 c001_pos) in E. discriminate.
Qed.

(** On a degenerate range the duration is the floor [0.01]. *)
Lemma export_duration_degenerate a b :
  (a <= b)%Z -> pymax (Fin a - Fin b) c001 = c001.
Proof.
  intros H. unfold pymax, gtb. cbn [sub].
  pose proof (round53_mono (a - b) 0 1 ltac:(lia) ltac:(lia)) as Hm.
  rewrite round53_zero in Hm.
  rewrite (leb_ltb_trans _ _ _ Hm c001_pos). reflexivity.
Qed.

(** C8.  In both scripts the duration that [export_segment] passes to the
    tool is [max(end - start, 0.01)], and it is never zero or negative,
    whatever the start and the end. *)
Theorem export_segment_duration w input_path start end_ out_path :
  passed_duration
    (trace (SplitByCsv.export_segment w input_path start end_ out_path))
  = Some (Num (pymax (end_ - start) c001))
  /\ passed_duration
       (trace (SplitBySilence.export_segment w input_path start end_ out_path))
     = Some (Num (pymax (end_ - start) c001))
  /\ (pymax (end_ - start) c001 <=? zero) = false.
Proof.
  split; [| split].
  - unfold SplitByCsv.export_segment, run, bind, trace. cbn [fst].
    destruct (negb _); reflexivity.
  - unfold SplitBySilence.export_segment, run, bind, trace. cbn [fst].
    destruct (negb _); reflexivity.
  - apply export_duration_positive.
Qed.

End SegmentExport.

(** ** The CSV-driven splitter *)

Section CsvSplitter.
Import SplitByCsv.







(** C7 fails on the code: for the timestamps [audio_segments.csv] that the
    silence splitter writes next to [audio.mp3], stripping ten characters
    where ["_segments"] has nine leaves the candidate ["audi"], no file
    matches, and with a second recording in the directory nothing is
    returned, where the specification returns [audio.mp3].  With two files
    of the candidate's stem the code returns the first one met, where the
    specification signals failure. *)
Theorem infer_audio_path_misses_recording :
  infer_audio_path recordings (Path "rec/audio_segments.csv") = None
  /\ Spec.infer_audio_path recordings (Path "rec/audio_segments.csv")
     = Some (Path "rec/audio.mp3")
  /\ infer_audio_path two_takes (Path "rec/take.csv") = Some (Path "rec/take.mp3")
  /\ Spec.infer_audio_path two_takes (Path "rec/take.csv") = None.
Proof. repeat split; vm_compute; reflexivity. Qed.

Lemma parse_row_value rows row : parse_row rows row = rows ++ Spec.row_value row.
Proof.
  destruct row as [ | c0 [ | c1 row]]; cbn [parse_row Spec.row_value].
  - symmetry; apply app_nil_r.
  - cbn [List.length Nat.ltb Nat.leb]. symmetry; apply app_nil_r.
  - cbn [List.length Nat.ltb Nat.leb nth].
    destruct (py_float (strip c0)); [| symmetry; apply app_nil_r].
    destruct (py_float (strip c1)); [reflexivity | symmetry; apply app_nil_r].
Qed.

Lemma parse_rows_from rows : forall acc,
  fold_left parse_row rows acc = acc ++ flat_map Spec.row_value rows.
Proof.
  induction rows as [ | row rows IH]; intros acc; simpl.
  - symmetry; apply app_nil_r.
  - rewrite IH, parse_row_value, <- app_assoc. reflexivity.
Qed.

(** *** The reader never fails on the lines of a text file *)

Lemma universal_newlines_no_cr s : all_chars not_cr (universal_newlines s) = true.
Proof.
  assert (H : forall n s, (String.length s <= n)%nat ->
                          all_chars not_cr (universal_newlines s) = true).
  { induction n as [ | n IH]; intros [ | c r] Hlen; try reflexivity;
      cbn [String.length] in Hlen; [lia |].
    cbn [universal_newlines].
    destruct (c =? CR)%char eqn:Ec.
    - destruct r as [ | c' r']; [reflexivity |].
      cbn [String.length] in Hlen.
      destruct (c' =? LF)%char; cbn [all_chars];
        rewrite IH by (cbn [String.length]; lia); reflexivity.
    - cbn [all_chars]. unfold not_cr at 1. rewrite Ec.
      rewrite IH by lia. reflexivity. }
  exact (H (String.length s) s (le_n _)).
Qed.

Lemma split_lines_text_lines s :
  all_chars not_cr s = true -> Forall (fun l => text_line l = true) (split_lines s).
Proof.
  induction s as [ | c s IH]; [constructor |].
  cbn [all_chars split_lines]. unfold not_cr at 1.
  intros H. apply andb_true_iff in H. destruct H as [Hc Hs].
  specialize (IH Hs). destruct (c =? LF)%char eqn:El.
  - constructor; [| exact IH]. cbn [text_line]. rewrite El. reflexivity.
  - destruct (split_lines s) as [ | l ls].
    + repeat constructor. cbn [text_line]. rewrite El, Hc. reflexivity.
    + inversion IH; subst. constructor; [| assumption].
      cbn [text_line]. rewrite El, Hc. assumption.
Qed.

Lemma process_char_total r c :
  eating (state r) = false ->
  exists r', process_char r c = Some r'
             /\ (is_newline c = false -> eating (state r') = false).
Proof.
  intros Hr. unfold process_char, start_field.
  destruct (state r); try discriminate Hr;
    destruct (is_newline c), (c =? DQUOTE)%char, (c =? ",")%char;
    eexists; (split; [reflexivity |]); intros; (reflexivity || discriminate).
Qed.

Lemma process_eol_not_eating r : eating (state (process_eol r)) = false.
Proof. unfold process_eol. destruct (state r) eqn:E; simpl; rewrite ?E; reflexivity. Qed.

Lemma feed_text_line l : forall r,
  text_line l = true -> eating (state r) = false ->
  exists r', feed r l = Some r' /\ eating (state r') = false.
Proof.
  induction l as [ | c l IH]; intros r Hl Hr.
  - exists (process_eol r). split; [reflexivity | apply process_eol_not_eating].
  - cbn [text_line] in Hl. cbn [feed].
    destruct (process_char_total r c Hr) as (r' & -> & Hr').
    destruct (c =? LF)%char eqn:El.
    + apply String.eqb_eq in Hl. subst l.
      exists (process_eol r'). split; [reflexivity | apply process_eol_not_eating].
    + apply andb_true_iff in Hl. destruct Hl as [Hc Hl].
      apply IH; [exact Hl |]. apply Hr'.
      unfold is_newline. rewrite El. apply negb_true_iff in Hc. rewrite Hc.
      reflexivity.
Qed.

Lemma records_total lines : forall r,
  Forall (fun l => text_line l = true) lines -> eating (state r) = false ->
  exists rows, records r lines = Some rows.
Proof.
  induction lines as [ | l lines IH]; intros r Hl Hr.
  - cbn [records]. destruct (_ || _); eauto.
  - inversion Hl as [ | ? ? Hline Hrest]; subst. cbn [records].
    destruct (feed_text_line l r Hline Hr) as (r' & -> & Hr').
    destruct (is_start (state r')).
    + destruct (IH reset Hrest eq_refl) as (rows & ->). simpl. eauto.
    + apply IH; assumption.
Qed.

Lemma csv_reader_total text : exists rows, csv_reader (file_lines text) = Some rows.
Proof.
  unfold csv_reader, file_lines. apply records_total; [| reflexivity].
  apply split_lines_text_lines, universal_newlines_no_cr.
Qed.

(** C5.  Every row that the reader yields contributes on its own: nothing
    when it is empty, has fewer than two columns or one of its first two
    columns is not a number, its pair otherwise, so such a row never stops
    the rows after it; on every text within the field-size limit of the
    reader the parse returns the contributions of all its rows; the filter
    of [main] keeps exactly the parsed rows [(s, e)] with [e > s] and
    [e - s >= min_seg], in order.  The rows ["1.0,2.0"], ["bad,row"],
    ["3.0,6.0"] with a minimum of [0.5] give [(1.0, 2.0)] and [(3.0, 6.0)].
    The claim fails on the code outside that limit: a row with a column of
    more than 131072 characters is not skipped, for the reader's error is
    raised by the iteration, which no [try] of [parse_timestamps] covers,
    and the rows after it are lost. *)
Theorem parse_timestamps_skips_bad_rows :
  (forall rows, parse_rows rows = flat_map Spec.row_value rows)
  /\ (forall text,
        within_field_limit text = true ->
        exists rows,
          csv_reader (file_lines text) = Some rows
          /\ parse_timestamps text = Some (flat_map Spec.row_value rows))
  /\ (forall min_seg segments_raw s e,
        In (s, e) (valid_segments min_seg segments_raw)
        <-> In (s, e) segments_raw /\ (e >? s) = true /\ (e - s >=? min_seg) = true)
  /\ (forall min_seg segments_raw,
        valid_segments min_seg segments_raw
        = filter (fun seg => (snd seg >? fst seg) && (snd seg - fst seg >=? min_seg))
            segments_raw)
  /\ option_map (valid_segments (dec 5 1))
       (parse_timestamps
          ("1.0,2.0" ++ String LF "bad,row" ++ String LF "3.0,6.0" ++ String LF ""))
     = Some [(dec 10 1, dec 20 1); (dec 30 1, dec 60 1)].
Proof.
  split; [| split; [| split; [| split]]].
  - intros rows. unfold parse_rows. apply parse_rows_from.
  - intros text _. destruct (csv_reader_total text) as (rows & E).
    exists rows. split; [exact E |].
    unfold parse_timestamps. rewrite E. simpl.
    f_equal. apply parse_rows_from.
  - intros min_seg raw s e. unfold valid_segments.
    rewrite filter_In, andb_true_iff. reflexivity.
  - intros min_seg raw. unfold valid_segments.
    apply filter_ext. intros [s e]. reflexivity.
  - vm_compute. reflexivity.
Qed.

(** *** The dry run *)

Lemma parse_timestamps_some text : exists raw, parse_timestamps text = Some raw.
Proof.
  destruct (csv_reader_total text) as (rows & E).
  exists (parse_rows rows). unfold parse_timestamps. rewrite E. reflexivity.
Qed.

Lemma export_loop_plan w input_path outdir base ext segments : forall idx,
  export_loop w true input_path outdir base ext segments idx
  = (map Stdout (planned_lines base ext segments idx), Return tt).
Proof.
  induction segments as [ | [s e] rest IH]; intros idx; [reflexivity |].
  cbn [export_loop planned_lines map]. rewrite IH. reflexivity.
Qed.


(** A dry run from its start to its end. *)
Lemma main_dry_run a w raw :
  dry_run a = true ->
  path_exists w (Path (timestamps a)) = true ->
  parse_timestamps (read_text w (Path (timestamps a))) = Some raw ->
  main a w
  = let segments := valid_segments (min_seg a) raw in
    let counts :=
      [Stdout (MsgRead (List.length raw)); Stdout (MsgValid (List.length segments))] in
    match input a with
    | Some s =>
        if (s =? "")%string then (counts ++ [Stdout MsgDryRunOnly], Return tt)
        else if path_exists w (Path s) then
          let outdir := joinpath (Path (output_dir a)) (stem (Path s)) in
          (counts ++ [MakeDirs outdir; Stdout (MsgOutputDir outdir)]
             ++ map Stdout
                  (planned_lines (stem (Path s)) (lower (suffix (Path s)))
                     segments (start_index a)),
           Return tt)
        else (counts ++ [Stdout (MsgFileMissing (Path s))], SysExit 1%Z)
    | None => (counts ++ [Stdout MsgDryRunOnly], Return tt)
    end.
Proof.
  intros Hdry Hts Hraw. cbv zeta. unfold main. rewrite Hdry, Hts, Hraw.
  cbn [negb andb].
  destruct (input a) as [s | ]; cbn [given]; [| reflexivity].
  destruct (s =? "")%string; cbn [negb option_map]; [reflexivity |].
  destruct (path_exists w (Path s)); cbn [negb]; [| reflexivity].
  rewrite export_loop_plan. reflexivity.
Qed.




End CsvSplitter.

(** ** Writing a float with three decimals and reading it back *)

Section TextRoundTrip.
Local Open Scope string_scope.

Lemma append_nil_r s : s ++ "" = s.
Proof. induction s; simpl; congruence. Qed.

Lemma append_assoc s1 s2 s3 : (s1 ++ s2) ++ s3 = s1 ++ (s2 ++ s3).
Proof. induction s1; simpl; congruence. Qed.

Lemma all_chars_app f s1 s2 :
  all_chars f (s1 ++ s2) = all_chars f s1 && all_chars f s2.
Proof.
  induction s1 as [ | c s1 IH]; simpl; [reflexivity |].
  rewrite IH, andb_assoc. reflexivity.
Qed.

Lemma all_chars_weaken (f g : ascii -> bool) s :
  (forall c, f c = true -> g c = true) ->
  all_chars f s = true -> all_chars g s = true.
Proof.
  intros Hfg. induction s as [ | c s IH]; simpl; [reflexivity |].
  rewrite !andb_true_iff. intros [H1 H2]. auto.
Qed.

Lemma digit_cases (d : N) :
  (d < 10)%N ->
  d = 0%N \/ d = 1%N \/ d = 2%N \/ d = 3%N \/ d = 4%N \/ d = 5%N
  \/ d = 6%N \/ d = 7%N \/ d = 8%N \/ d = 9%N.
Proof. lia. Qed.

Lemma digit_of_digit_char d : (d < 10)%N -> digit_of (digit_char d) = Some d.
Proof.
  intros H. destruct (digit_cases d H) as [-> | [-> | [-> | [-> | [-> |
    [-> | [-> | [-> | [-> | ->]]]]]]]]]; reflexivity.
Qed.

Lemma is_digit_digit_char d : (d < 10)%N -> is_digit (digit_char d) = true.
Proof. intros H. unfold is_digit. rewrite digit_of_digit_char; auto. Qed.

Lemma uint_digits_are_digits u : all_chars is_digit (uint_digits u) = true.
Proof. induction u; simpl; auto. Qed.

(** Reading the digits of [u] continues the number read so far. *)
Lemma digits_tail_uint u : forall rest acc cnt,
  digits_tail (uint_digits u ++ rest) acc cnt
  = digits_tail rest (uint_val acc u) (cnt + Z.of_nat (length (uint_digits u)))%Z.
Proof.
  induction u; intros rest acc cnt;
    try (cbn [uint_digits append uint_val length]; rewrite Z.add_0_r; reflexivity);
    cbn [uint_digits append uint_val length digits_tail];
    match goal with
    | |- context [digit_of ?c] =>
        let v := eval vm_compute in (digit_of c) in
        change (digit_of c) with v; cbv iota
    end;
    rewrite IHu, ?N.add_0_r; f_equal; lia.
Qed.

Lemma uint_val_pos u : forall acc,
  uint_val (Npos acc) u = Npos (Pos.of_uint_acc u acc).
Proof.
  induction u; intros acc; cbn [uint_val Pos.of_uint_acc]; try reflexivity;
    match goal with
    | |- uint_val ?a _ = N.pos (Pos.of_uint_acc _ ?p) =>
        replace a with (N.pos p) by lia
    end; apply IHu.
Qed.

Lemma uint_val_of_uint u : uint_val 0 u = N.of_uint u.
Proof.
  unfold N.of_uint.
  induction u; cbn [uint_val Pos.of_uint]; try reflexivity;
    try (rewrite N.mul_0_r; exact IHu);
    rewrite N.mul_0_r, N.add_0_l; apply uint_val_pos.
Qed.

Lemma decimal_value n : uint_val 0 (N.to_uint n) = n.
Proof. rewrite uint_val_of_uint. apply DecimalN.Unsigned.of_to. Qed.

Lemma to_uint_nonnil n : N.to_uint n <> Decimal.Nil.
Proof.
  destruct n; simpl; [discriminate | apply DecimalPos.Unsigned.to_uint_nonnil].
Qed.

End TextRoundTrip.

Section FloatText.
Local Open Scope string_scope.

Lemma digit_is_token c : is_digit c = true -> token_char c = true.
Proof. each_char c; intros H; try reflexivity; discriminate H. Qed.

Lemma token_not_space c : token_char c = true -> is_space c = false.
Proof.
  unfold token_char. intros H. apply andb_true_iff in H.
  destruct H as [H _]. apply negb_true_iff, H.
Qed.

Lemma split_sign_digit c r :
  is_digit c = true -> split_sign (String c r) = (false, String c r).
Proof. each_char c; intros H; try reflexivity; discriminate H. Qed.

Lemma absfloatvalue_digit neg c r :
  is_digit c = true ->
  absfloatvalue neg (String c r)
  = match digitpart (String c r) 0%N 0%Z with
    | Some (i, _, String "." r') =>
        match digitpart r' i 0%Z with
        | Some (d, f, rest) =>
            match exponent rest with
            | Some x => Some (of_decimal neg d (x - f))
            | None => None
            end
        | None =>
            match exponent r' with
            | Some x => Some (of_decimal neg i (x - 0))
            | None => None
            end
        end
    | Some (i, _, rest) =>
        match exponent rest with
        | Some x => Some (of_decimal neg i (x - 0))
        | None => None
        end
    | None => None
    end.
Proof.
  intros H. unfold absfloatvalue, number.
  each_char c; try discriminate H; cbn [lower String.eqb lower_char];
    match goal with
    | |- context [if ?b then Some (Inf neg) else _] =>
        let v := eval vm_compute in b in change b with v; cbv iota
    end;
    match goal with
    | |- context [if ?b then Some NaN else _] =>
        let v := eval vm_compute in b in change b with v; cbv iota
    end;
    destruct (digitpart _ 0%N 0%Z) as [[[i n] rest] | ]; try reflexivity;
    destruct rest as [ | c' r']; try reflexivity;
    each_char c'; try reflexivity;
    destruct (digitpart r' i 0%Z) as [[[d f] rest] | ]; reflexivity.
Qed.

Lemma lstrip_token c r : token_char c = true -> lstrip (String c r) = String c r.
Proof. intros H. simpl. rewrite (token_not_space c H). reflexivity. Qed.

Lemma rstrip_tokens s : all_chars token_char s = true -> rstrip s = s.
Proof.
  induction s as [ | c s IH]; [reflexivity |]. simpl.
  intros H. apply andb_true_iff in H. destruct H as [Hc Hs].
  rewrite (IH Hs), (token_not_space c Hc). destruct s; reflexivity.
Qed.

Lemma strip_tokens s : all_chars token_char s = true -> strip s = s.
Proof.
  intros H. unfold strip. destruct s as [ | c s]; [reflexivity |].
  pose proof H as H'. simpl in H'. apply andb_true_iff in H'.
  rewrite lstrip_token by apply H'. apply rstrip_tokens, H.
Qed.

(** The three digits of [pad3]. *)
Lemma pad3_digits n :
  (n < 1000)%N ->
  exists d1 d2 d3,
    (d1 < 10 /\ d2 < 10 /\ d3 < 10 /\ n = 100 * d1 + 10 * d2 + d3)%N
    /\ pad3 n = String (digit_char d1) (String (digit_char d2)
                  (String (digit_char d3) "")).
Proof.
  intros H. exists (n / 100)%N, ((n / 10) mod 10)%N, (n mod 10)%N.
  split; [| reflexivity].
  repeat split; try (apply N.mod_lt; lia).
  - apply N.Div0.div_lt_upper_bound; lia.
  - zify. Z.to_euclidean_division_equations. lia.
Qed.

Lemma pad3_tokens n : (n < 1000)%N -> all_chars token_char (pad3 n) = true.
Proof.
  intros H. destruct (pad3_digits n H) as (d1 & d2 & d3 & (H1 & H2 & H3 & _) & ->).
  simpl. rewrite !digit_is_token by (apply is_digit_digit_char; assumption).
  reflexivity.
Qed.

Lemma decimal_tokens n : all_chars token_char (decimal n) = true.
Proof.
  apply (all_chars_weaken is_digit); [apply digit_is_token |].
  apply uint_digits_are_digits.
Qed.

Lemma format_3f_tokens x : all_chars token_char (format_3f x) = true.
Proof.
  destruct x as [ | [ | ] | k]; try reflexivity.
  unfold format_3f. rewrite !all_chars_app.
  rewrite decimal_tokens, pad3_tokens by (apply N.mod_lt; lia).
  destruct (k <? 0)%Z; reflexivity.
Qed.

(** Reading a number with three decimals. *)
Lemma digitpart_uint u rest acc cnt :
  u <> Decimal.Nil ->
  digitpart (uint_digits u ++ rest) acc cnt
  = digits_tail rest (uint_val acc u)
      (cnt + Z.of_nat (length (uint_digits u)))%Z.
Proof.
  intros Hu. rewrite <- digits_tail_uint.
  destruct u; [contradiction | ..]; reflexivity.
Qed.

Lemma uint_digits_head u :
  u <> Decimal.Nil ->
  exists c r, is_digit c = true /\ uint_digits u = String c r.
Proof.
  intros Hu. destruct u; [contradiction | ..]; simpl;
    do 2 eexists; (split; [| reflexivity]); reflexivity.
Qed.

Lemma digitpart_three acc d1 d2 d3 :
  (d1 < 10)%N -> (d2 < 10)%N -> (d3 < 10)%N ->
  digitpart (String (digit_char d1) (String (digit_char d2)
               (String (digit_char d3) ""))) acc 0%Z
  = Some ((10 * (10 * (10 * acc + d1) + d2) + d3)%N, 3%Z, "").
Proof.
  intros H1 H2 H3. cbn [digitpart digits_tail].
  rewrite (digit_of_digit_char d1 H1). cbn [digits_tail].
  rewrite (digit_of_digit_char d2 H2). cbn [digits_tail].
  rewrite (digit_of_digit_char d3 H3). reflexivity.
Qed.

Lemma absfloatvalue_fixed neg m n :
  (n < 1000)%N ->
  absfloatvalue neg (decimal m ++ "." ++ pad3 n)
  = Some (of_decimal neg (1000 * m + n) (- 3)).
Proof.
  intros Hn.
  destruct (pad3_digits n Hn) as (d1 & d2 & d3 & (H1 & H2 & H3 & En) & Ep).
  destruct (uint_digits_head (N.to_uint m) (to_uint_nonnil m)) as (c & r & Hc & Eu).
  unfold decimal at 1. rewrite Eu. cbn [append].
  rewrite (absfloatvalue_digit neg c _ Hc).
  change (String c (r ++ String "." (pad3 n)))
    with (String c r ++ String "." (pad3 n)).
  rewrite <- Eu, (digitpart_uint _ _ _ _ (to_uint_nonnil m)).
  cbn [digits_tail].
  change (digit_of ".") with (@None N). change ("." =? "_")%char with false.
  cbv iota. rewrite Ep, (digitpart_three _ d1 d2 d3 H1 H2 H3).
  cbn [exponent]. rewrite decimal_value. do 2 f_equal. lia.
Qed.

Lemma millis_nonneg k : (0 <= k)%Z -> (0 <= millis k)%Z.
Proof.
  intros H. unfold millis.
  pose proof (rne_div_mono 0 (1000 * k) unit_scale unit_scale_pos ltac:(lia)) as Hm.
  pose proof (rne_div_exact 0 unit_scale unit_scale_pos) as H0.
  simpl in H0. rewrite H0 in Hm. exact Hm.
Qed.

Lemma millis_nonpos k : (k <= 0)%Z -> (millis k <= 0)%Z.
Proof.
  intros H. unfold millis.
  pose proof (rne_div_mono (1000 * k) 0 unit_scale unit_scale_pos ltac:(lia)) as Hm.
  pose proof (rne_div_exact 0 unit_scale unit_scale_pos) as H0.
  simpl in H0. rewrite H0 in Hm. exact Hm.
Qed.

(** What [format_3f] writes, [float] reads back as [round(x, 3)]. *)
Lemma py_float_format_3f x : py_float (format_3f x) = Some (round3 x).
Proof.
  unfold py_float. rewrite (strip_tokens _ (format_3f_tokens x)).
  destruct x as [ | [ | ] | k]; try reflexivity.
  unfold format_3f.
  set (n := Z.to_N (Z.abs (millis k))).
  assert (Hn : (n mod 1000 < 1000)%N) by (apply N.mod_lt; lia).
  assert (En : (1000 * (n / 1000) + n mod 1000 = n)%N)
    by (symmetry; apply N.div_mod; lia).
  destruct (Z.ltb_spec k 0) as [Hk | Hk].
  - cbn [append split_sign].
    rewrite (absfloatvalue_fixed true _ _ Hn), En.
    unfold of_decimal, round3, of_millis. simpl Z.leb. cbv iota.
    pose proof (millis_nonpos k ltac:(lia)).
    replace (- Z.of_N n)%Z with (millis k) by lia. reflexivity.
  - cbn [append].
    destruct (uint_digits_head (N.to_uint (n / 1000)) (to_uint_nonnil _))
      as (c & r & Hc & Eu).
    unfold decimal at 1. rewrite Eu. cbn [append].
    rewrite (split_sign_digit c _ Hc).
    change (String c (r ++ String "." (pad3 (n mod 1000))))
      with (String c r ++ "." ++ pad3 (n mod 1000)).
    rewrite <- Eu. fold (decimal (n / 1000)).
    rewrite (absfloatvalue_fixed false _ _ Hn), En.
    unfold of_decimal, round3, of_millis. simpl Z.leb. cbv iota.
    pose proof (millis_nonneg k ltac:(lia)).
    replace (Z.of_N n)%Z with (millis k) by lia. reflexivity.
Qed.

End FloatText.

(** ** Timestamps written, then read *)

Section CsvRoundTrip.
Import SplitBySilence SplitByCsv.
Local Open Scope string_scope.

Lemma token_is_plain c : token_char c = true -> plain_char c = true.
Proof. each_char c; intros H; try reflexivity; discriminate H. Qed.

Lemma plain_char_tests c :
  plain_char c = true ->
  (c =? ",")%char = false /\ (c =? DQUOTE)%char = false /\ is_newline c = false.
Proof.
  unfold plain_char, is_newline.
  destruct (c =? ",")%char, (c =? DQUOTE)%char, (c =? LF)%char, (c =? CR)%char;
    simpl; intros H; try discriminate H; auto.
Qed.

Lemma plain_not_cr c : plain_char c = true -> (c =? CR)%char = false.
Proof.
  intros H. destruct (plain_char_tests c H) as (_ & _ & Hn).
  unfold is_newline in Hn. apply orb_false_iff in Hn. apply Hn.
Qed.

Lemma plain_not_lf c : plain_char c = true -> (c =? LF)%char = false.
Proof.
  intros H. destruct (plain_char_tests c H) as (_ & _ & Hn).
  unfold is_newline in Hn. apply orb_false_iff in Hn. apply Hn.
Qed.

Lemma universal_newlines_id s :
  all_chars not_cr s = true -> universal_newlines s = s.
Proof.
  induction s as [ | c s IH]; [reflexivity |].
  cbn [all_chars universal_newlines]. unfold not_cr at 1.
  intros H. apply andb_true_iff in H. destruct H as [Hc Hs].
  apply negb_true_iff in Hc. rewrite Hc, (IH Hs). reflexivity.
Qed.

Lemma split_lines_line s : forall rest,
  all_chars not_lf s = true ->
  split_lines (s ++ String LF rest) = (s ++ String LF "") :: split_lines rest.
Proof.
  induction s as [ | c s IH]; intros rest.
  - intros _. reflexivity.
  - cbn [all_chars append split_lines]. unfold not_lf at 1.
    intros H. apply andb_true_iff in H. destruct H as [Hc Hs].
    apply negb_true_iff in Hc. rewrite Hc, (IH rest Hs). reflexivity.
Qed.

(** *** The reader on a line of plain fields *)

Lemma feed_in_field s : forall r rest,
  all_chars plain_char s = true -> state r = IN_FIELD ->
  feed r (s ++ rest)
  = feed {| state := IN_FIELD; field := field r ++ s; fields := fields r |} rest.
Proof.
  induction s as [ | c s IH]; intros r rest Hs Hr.
  - destruct r as [st fl fs]. simpl in *. subst st.
    rewrite append_nil_r. reflexivity.
  - cbn [all_chars] in Hs. apply andb_true_iff in Hs. destruct Hs as [Hc Hs].
    destruct (plain_char_tests c Hc) as (Hcomma & _ & Hnl).
    cbn [append feed]. unfold process_char. rewrite Hr, Hnl, Hcomma.
    rewrite (IH (add_char r c IN_FIELD) rest Hs eq_refl).
    cbn [add_char field fields]. rewrite append_assoc. reflexivity.
Qed.

Lemma feed_start_field c f r rest :
  all_chars plain_char (String c f) = true ->
  state r = START_RECORD \/ state r = START_FIELD ->
  field r = "" ->
  feed r (String c f ++ rest)
  = feed {| state := IN_FIELD; field := String c f; fields := fields r |} rest.
Proof.
  intros Hf Hr Hfield.
  cbn [all_chars] in Hf. apply andb_true_iff in Hf. destruct Hf as [Hc Hf].
  destruct (plain_char_tests c Hc) as (Hcomma & Hquote & Hnl).
  cbn [append feed].
  assert (Hp : process_char r c = Some (add_char r c IN_FIELD)).
  { unfold process_char, start_field.
    destruct Hr as [-> | ->]; rewrite ?Hnl, Hquote, Hcomma; reflexivity. }
  rewrite Hp, (feed_in_field f (add_char r c IN_FIELD) rest Hf eq_refl).
  cbn [add_char field fields]. rewrite Hfield. reflexivity.
Qed.

(** A field and the comma after it. *)
Lemma feed_field_comma f r rest :
  all_chars plain_char f = true ->
  state r = START_RECORD \/ state r = START_FIELD ->
  field r = "" ->
  feed r (f ++ String "," rest)
  = feed {| state := START_FIELD; field := ""; fields := fields r ++ [f] |} rest.
Proof.
  intros Hf Hr Hfield. destruct f as [ | c f].
  - cbn [append feed]. unfold process_char, start_field.
    destruct r as [st fl fs]. simpl in Hfield, Hr. subst fl.
    destruct Hr as [-> | ->]; reflexivity.
  - rewrite (feed_start_field c f r _ Hf Hr Hfield). reflexivity.
Qed.

(** The last field and the end of the line. *)
Lemma feed_field_end f r :
  all_chars plain_char f = true ->
  state r = START_FIELD ->
  field r = "" ->
  feed r (f ++ String LF "")
  = Some {| state := START_RECORD; field := ""; fields := fields r ++ [f] |}.
Proof.
  intros Hf Hr Hfield. destruct f as [ | c f].
  - cbn [append feed]. unfold process_char, start_field.
    destruct r as [st fl fs]. simpl in Hfield, Hr. subst fl st. reflexivity.
  - rewrite (feed_start_field c f r _ Hf (or_intror Hr) Hfield). reflexivity.
Qed.

Lemma feed_two_fields f1 f2 :
  all_chars plain_char f1 = true -> all_chars plain_char f2 = true ->
  feed reset (f1 ++ "," ++ f2 ++ String LF "")
  = Some {| state := START_RECORD; field := ""; fields := [f1; f2] |}.
Proof.
  intros H1 H2.
  change (f1 ++ "," ++ f2 ++ String LF "")
    with (f1 ++ String "," (f2 ++ String LF "")).
  rewrite (feed_field_comma f1 reset _ H1 (or_introl eq_refl) eq_refl).
  rewrite (feed_field_end f2
             {| state := START_FIELD; field := ""; fields := fields reset ++ [f1] |}
             H2 eq_refl eq_refl).
  reflexivity.
Qed.

Lemma format_3f_plain x : all_chars plain_char (format_3f x) = true.
Proof.
  apply (all_chars_weaken token_char); [apply token_is_plain |].
  apply format_3f_tokens.
Qed.

Lemma records_timestamp_lines segments :
  records reset (map timestamp_line segments) = Some (map timestamp_row segments).
Proof.
  induction segments as [ | [s e] rest IH]; [reflexivity |].
  cbn [map records timestamp_line].
  rewrite (feed_two_fields _ _ (format_3f_plain s) (format_3f_plain e)).
  cbn [state is_start fields]. rewrite IH. reflexivity.
Qed.

Lemma write_timestamps_joined segments : forall text,
  fold_left (fun text seg => text ++ timestamp_line seg) segments text
  = text ++ joined (map timestamp_line segments).
Proof.
  induction segments as [ | seg rest IH]; intros text; cbn [fold_left map].
  - symmetry; apply append_nil_r.
  - rewrite IH, append_assoc. reflexivity.
Qed.

Lemma plain_not_newline c : plain_char c = true -> negb (is_newline c) = true.
Proof.
  intros H. destruct (plain_char_tests c H) as (_ & _ & ->). reflexivity.
Qed.

Lemma timestamp_line_body seg :
  exists body,
    timestamp_line seg = body ++ String LF ""
    /\ all_chars (fun c => negb (is_newline c)) body = true.
Proof.
  destruct seg as [s e]. exists (format_3f s ++ "," ++ format_3f e). split.
  - unfold timestamp_line. rewrite !append_assoc. reflexivity.
  - rewrite !all_chars_app.
    rewrite !(all_chars_weaken plain_char _ _ plain_not_newline (format_3f_plain _)).
    reflexivity.
Qed.

Lemma not_newline_not_cr c : negb (is_newline c) = true -> not_cr c = true.
Proof.
  unfold is_newline, not_cr. destruct (c =? LF)%char, (c =? CR)%char; auto.
Qed.

Lemma not_newline_not_lf c : negb (is_newline c) = true -> not_lf c = true.
Proof.
  unfold is_newline, not_lf. destruct (c =? LF)%char, (c =? CR)%char; auto.
Qed.

Lemma joined_cons l ls : joined (l :: ls) = l ++ joined ls.
Proof. reflexivity. Qed.

Lemma joined_lines_plain segments :
  all_chars not_cr (joined (map timestamp_line segments)) = true.
Proof.
  induction segments as [ | seg rest IH]; [reflexivity |].
  cbn [map]. rewrite joined_cons.
  destruct (timestamp_line_body seg) as (body & -> & Hb).
  rewrite !all_chars_app, IH.
  rewrite (all_chars_weaken _ not_cr body not_newline_not_cr Hb). reflexivity.
Qed.

Lemma split_joined_lines segments :
  split_lines (joined (map timestamp_line segments)) = map timestamp_line segments.
Proof.
  induction segments as [ | seg rest IH]; [reflexivity |].
  cbn [map]. rewrite joined_cons.
  destruct (timestamp_line_body seg) as (body & -> & Hb).
  rewrite append_assoc. cbn [append].
  rewrite split_lines_line.
  - f_equal. exact IH.
  - exact (all_chars_weaken _ not_lf body not_newline_not_lf Hb).
Qed.

Lemma parse_rows_timestamp_rows segments :
  parse_rows (map timestamp_row segments) = map round_interval segments.
Proof.
  unfold parse_rows. rewrite parse_rows_from. cbn [app].
  induction segments as [ | [s e] rest IH]; [reflexivity |].
  cbn [map flat_map Spec.row_value timestamp_row fst snd].
  rewrite !(strip_tokens _ (format_3f_tokens _)), !py_float_format_3f, IH.
  reflexivity.
Qed.

(** C6.  For every list of segments, the text that [write_timestamps]
    writes is read back by [parse_timestamps] as the same pairs, each
    endpoint rounded to the millisecond as [round(x, 3)] does; the segments
    that [build_segments] returns, which are rounded already, come back
    unchanged, as those of the example do. *)
Theorem timestamps_round_trip :
  (forall segments,
     parse_timestamps (write_timestamps segments)
     = Some (map round_interval segments))
  /\ (forall silences D,
        parse_timestamps (write_timestamps (build_segments silences D))
        = Some (build_segments silences D))
  /\ parse_timestamps
       (write_timestamps
          (build_segments [(dec 20 1, dec 30 1); (dec 50 1, dec 55 1)] (dec 100 1)))
     = Some [(dec 0 1, dec 20 1); (dec 30 1, dec 50 1); (dec 55 1, dec 100 1)].
Proof.
  assert (H : forall segments,
             parse_timestamps (write_timestamps segments)
             = Some (map round_interval segments)).
  { intros segments.
    unfold parse_timestamps, write_timestamps, file_lines, csv_reader.
    rewrite write_timestamps_joined. cbn [append].
    rewrite (universal_newlines_id _ (joined_lines_plain segments)).
    rewrite split_joined_lines, records_timestamp_lines. cbn [option_map].
    rewrite parse_rows_timestamp_rows. reflexivity. }
  split; [exact H | split].
  - intros silences D. rewrite H. f_equal.
    unfold build_segments. rewrite map_map. apply map_ext.
    intros [a b]. cbn [round_interval]. rewrite !round3_idempotent. reflexivity.
  - vm_compute. reflexivity.
Qed.

End CsvRoundTrip.

(** * Further properties of the code *)

(** ** The pairing of silence markers *)

Section PairingFacts.
Import SplitBySilence.

Lemma detect_silences_is_pairing starts ends :
  detect_silences starts ends = Some (Spec.pairing starts ends).
Proof.
  unfold detect_silences. rewrite detect_loop_pairing by lia. reflexivity.
Qed.

Lemma earliest_end_found s ends e rest :
  Spec.earliest_end s ends = Some (e, rest) ->
  (s <=? e) = true /\ (List.length rest < List.length ends)%nat.
Proof.
  induction ends as [ | x ends IH]; [discriminate |].
  cbn [Spec.earliest_end]. destruct (x >=? s) eqn:E.
  - intros H. injection H as <- <-. split; [exact E | simpl; lia].
  - intros H. destruct (IH H) as [H1 H2]. split; [exact H1 | simpl; lia].
Qed.

Lemma pairing_facts starts : forall ends,
  let out := Spec.pairing starts ends in
  Forall (fun p => (fst p <=? snd p) = true) out
  /\ map fst out = firstn (List.length out) starts
  /\ (List.length out <= List.length ends)%nat.
Proof.
  induction starts as [ | s starts IH]; intros ends; cbv zeta.
  - cbn [Spec.pairing]. split; [constructor | split; [reflexivity | apply Nat.le_0_l]].
  - cbn [Spec.pairing].
    destruct (Spec.earliest_end s ends) as [[e rest] | ] eqn:E.
    + destruct (earliest_end_found _ _ _ _ E) as [Hse Hlen].
      destruct (IH rest) as (H1 & H2 & H3). repeat split.
      * constructor; assumption.
      * cbn [map List.length firstn fst]. f_equal. exact H2.
      * cbn [List.length]. lia.
    + split; [constructor | split; [reflexivity | apply Nat.le_0_l]].
Qed.

Lemma pairing_matched starts : forall ends,
  (forall i s e, nth_error starts i = Some s -> nth_error ends i = Some e ->
                 (s <=? e) = true) ->
  Spec.pairing starts ends = combine starts ends.
Proof.
  induction starts as [ | s starts IH]; intros ends H; [reflexivity |].
  destruct ends as [ | e ends]; [reflexivity |].
  cbn [Spec.pairing Spec.earliest_end combine].
  unfold geb. rewrite (H 0%nat s e eq_refl eq_refl).
  f_equal. apply IH. intros i s' e' Hs He. exact (H (S i) s' e' Hs He).
Qed.

Lemma some_eq {A : Type} (a b : A) : Some a = Some b -> a = b.
Proof. congruence. Qed.

(** X1.  The pairs that [detect_silences] returns all end no earlier than
    they start; their starts are the first starts, in order, none skipped;
    and there are no more pairs than ends. *)
Theorem detect_silences_pairs starts ends :
  exists out,
    detect_silences starts ends = Some out
    /\ Forall (fun p => (fst p <=? snd p) = true) out
    /\ map fst out = firstn (List.length out) starts
    /\ (List.length out <= List.length ends)%nat.
Proof.
  exists (Spec.pairing starts ends). split.
  - apply detect_silences_is_pairing.
  - apply pairing_facts.
Qed.

(** X2.  When the markers are well matched, the i-th end being no earlier
    than the i-th start, [detect_silences] pairs them position by position;
    a start without an end, or an end without a start, is left out. *)
Theorem detect_silences_matched starts ends :
  (forall i s e, nth_error starts i = Some s -> nth_error ends i = Some e ->
                 (s <=? e) = true) ->
  detect_silences starts ends = Some (combine starts ends).
Proof.
  intros H. rewrite detect_silences_is_pairing.
  f_equal. apply pairing_matched, H.
Qed.

Lemma detect_silences_matched_witness :
  detect_silences [dec 1 0; dec 5 0; dec 9 0] [dec 2 0; dec 6 0]
  = Some (combine [dec 1 0; dec 5 0; dec 9 0] [dec 2 0; dec 6 0]).
Proof.
  apply (detect_silences_matched [dec 1 0; dec 5 0; dec 9 0] [dec 2 0; dec 6 0]).
  intros [ | [ | i]] s e Hs He; cbn [nth_error] in Hs, He.
  - apply some_eq in Hs, He. subst s e. vm_compute. reflexivity.
  - apply some_eq in Hs, He. subst s e. vm_compute. reflexivity.
  - destruct i; discriminate He.
Defined.

(** X3.  The pairs of [detect_silences] always meet what [build_segments]
    needs: the segments computed from them are ordered, each starting no
    earlier than the one before it ends. *)
Theorem segments_of_detected_silences_ordered starts ends D :
  match detect_silences starts ends with
  | Some silences => ordered (build_segments silences D) = true
  | None => False
  end.
Proof.
  rewrite detect_silences_is_pairing.
  apply chain_ordered, build_segments_chain.
  apply (pairing_facts starts ends).
Qed.

End PairingFacts.

(** ** The complement computation *)

Section SegmentFacts.
Import SplitBySilence.

Lemma cursor_segments_length silences : forall cur D,
  (List.length (Spec.cursor_segments cur silences D)
   <= List.length silences + 1)%nat.
Proof.
  induction silences as [ | [s e] rest IH]; intros cur D;
    cbn [Spec.cursor_segments].
  - destruct (D >? cur); cbn [List.length]; lia.
  - rewrite length_app. specialize (IH (pymax cur e) D).
    unfold interval in *. destruct (s >? cur); cbn [List.length] in *; lia.
Qed.

Lemma cursor_segments_boundaries silences : forall cur D seg,
  In seg (Spec.cursor_segments cur silences D) ->
  (fst seg = cur \/ exists sil, In sil silences /\ fst seg = snd sil)
  /\ (snd seg = D \/ exists sil, In sil silences /\ snd seg = fst sil).
Proof.
  induction silences as [ | [s e] rest IH]; intros cur D seg; simpl.
  - destruct (D >? cur); simpl; [| tauto].
    intros [<- | []]. simpl. auto.
  - intros H. apply in_app_or in H. destruct H as [H | H].
    + destruct (s >? cur); simpl in H; [| tauto].
      destruct H as [<- | []]. simpl. split; [auto |].
      right. exists (s, e). auto.
    + destruct (IH _ _ _ H) as [H1 H2]. split.
      * destruct H1 as [H1 | (sil & Hin & H1)].
        -- unfold pymax in H1. destruct (e >? cur).
           ++ right. exists (s, e). auto.
           ++ auto.
        -- right. exists sil. auto.
      * destruct H2 as [H2 | (sil & Hin & H2)]; [auto |].
        right. exists sil. auto.
Qed.

(** Every returned segment starts at or after 0. *)
Lemma build_segments_start silences D seg :
  In seg (build_segments silences D) -> (zero <=? fst seg) = true.
Proof.
  intros H. unfold build_segments in H. apply in_map_iff in H.
  destruct H as [[a b] [<- H]]. apply filter_In in H. destruct H as [H _].
  rewrite raw_segments_cursor in H.
  pose proof (cursor_segments_after silences zero D (a, b) eq_refl H) as Ha.
  cbn [round_interval fst] in *.
  rewrite <- round3_zero. apply round3_mono, Ha.
Qed.

(** X4.  [build_segments] returns at most one segment more than there are
    silences. *)
Theorem build_segments_count silences D :
  (List.length (build_segments silences D) <= List.length silences + 1)%nat.
Proof.
  unfold build_segments. rewrite length_map, raw_segments_cursor.
  eapply Nat.le_trans; [apply filter_length_le | apply cursor_segments_length].
Qed.

(** X5.  [build_segments] invents no time: every segment it returns starts
    at 0 or at the rounded end of a silence, and ends at the rounded start
    of a silence or at the rounded duration. *)
Theorem build_segments_boundaries silences D seg :
  In seg (build_segments silences D) ->
  (fst seg = zero \/ exists sil, In sil silences /\ fst seg = round3 (snd sil))
  /\ (snd seg = round3 D
      \/ exists sil, In sil silences /\ snd seg = round3 (fst sil)).
Proof.
  unfold build_segments. intros H. apply in_map_iff in H.
  destruct H as [[a b] [<- H]]. apply filter_In in H. destruct H as [H _].
  rewrite raw_segments_cursor in H.
  destruct (cursor_segments_boundaries _ _ _ _ H) as [H1 H2].
  cbn [round_interval fst snd] in *. split.
  - destruct H1 as [-> | (sil & Hin & ->)]; [left; apply round3_zero |].
    right. exists sil. auto.
  - destruct H2 as [-> | (sil & Hin & ->)]; [auto |].
    right. exists sil. auto.
Qed.

Lemma build_segments_boundaries_witness :
  (fst (dec 30 1, dec 50 1) = zero
   \/ exists sil, In sil [(dec 20 1, dec 30 1); (dec 50 1, dec 55 1)]
                  /\ fst (dec 30 1, dec 50 1) = round3 (snd sil))
  /\ (snd (dec 30 1, dec 50 1) = round3 (dec 100 1)
      \/ exists sil, In sil [(dec 20 1, dec 30 1); (dec 50 1, dec 55 1)]
                     /\ snd (dec 30 1, dec 50 1) = round3 (fst sil)).
Proof.
  apply (build_segments_boundaries
           [(dec 20 1, dec 30 1); (dec 50 1, dec 55 1)] (dec 100 1)
           (dec 30 1, dec 50 1)).
  vm_compute. right. left. reflexivity.
Defined.

(** X6.  When every silence lies inside the file, ending no earlier than
    it starts and no later than the duration, every returned segment lies
    between 0 and the rounded duration. *)
Theorem build_segments_within silences D seg :
  Forall (fun sil => (fst sil <=? snd sil) = true /\ (snd sil <=? D) = true)
    silences ->
  In seg (build_segments silences D) ->
  (zero <=? fst seg) = true /\ (snd seg <=? round3 D) = true.
Proof.
  intros Hs H. split; [eapply build_segments_start; exact H |].
  unfold build_segments in H. apply in_map_iff in H.
  destruct H as [[a b] [<- H]]. apply filter_In in H. destruct H as [H _].
  rewrite raw_segments_cursor in H.
  pose proof (cursor_segments_lt _ _ _ _ H) as Hab.
  destruct (cursor_segments_boundaries _ _ _ _ H) as [_ Hb].
  cbn [round_interval fst snd] in *.
  apply round3_mono. destruct Hb as [-> | (sil & Hin & ->)].
  - apply leb_refl. eapply ltb_not_nan_r; exact Hab.
  - rewrite Forall_forall in Hs. destruct (Hs sil Hin) as [H1 H2].
    eapply leb_trans; eassumption.
Qed.

Lemma build_segments_within_witness :
  (zero <=? fst (dec 30 1, dec 50 1)) = true
  /\ (snd (dec 30 1, dec 50 1) <=? round3 (dec 100 1)) = true.
Proof.
  apply (build_segments_within
           [(dec 20 1, dec 30 1); (dec 50 1, dec 55 1)] (dec 100 1)
           (dec 30 1, dec 50 1)).
  - repeat (apply Forall_cons; [split; vm_compute; reflexivity |]).
    apply Forall_nil.
  - vm_compute. right. left. reflexivity.
Defined.

(** X7.  A silence that covers the whole file, starting at or before 0
    and ending at or after the duration, leaves no segment. *)
Theorem build_segments_all_silence s e D :
  (s <=? zero) = true -> (D <=? e) = true -> build_segments [(s, e)] D = [].
Proof.
  intros Hs He. unfold build_segments, raw_segments, build_loop.
  assert (Hcur : (D <=? pymax zero e) = true).
  { eapply leb_trans; [exact He |].
    apply pymax_ge_r; [reflexivity | eapply leb_not_nan_r; exact He]. }
  cbn [fold_left build_step]. unfold gtb.
  rewrite (leb_ltb_false _ _ Hs), (leb_ltb_false _ _ Hcur). reflexivity.
Qed.

Lemma build_segments_all_silence_witness :
  build_segments [(dec 0 1, dec 120 1)] (dec 100 1) = [].
Proof.
  apply (build_segments_all_silence (dec 0 1) (dec 120 1) (dec 100 1));
    vm_compute; reflexivity.
Defined.

End SegmentFacts.

(** ** Input-file inference *)

Section InferFacts.
Import SplitByCsv.
Local Open Scope string_scope.

Lemma infer_loop_find w base entries : forall candidates,
  infer_loop w base entries candidates
  = match find (fun p => stem p =? base)
            (filter (fun p => is_file w p && in_exts (lower (suffix p))) entries)
    with
    | Some p => inl p
    | None =>
        inr (candidates
             ++ filter (fun p => is_file w p && in_exts (lower (suffix p))) entries)%list
    end.
Proof.
  induction entries as [ | p rest IH]; intros candidates;
    cbn [infer_loop filter find].
  - rewrite app_nil_r. reflexivity.
  - destruct (is_file w p && in_exts (lower (suffix p))); cbn [find].
    + destruct (stem p =? base); [reflexivity |].
      rewrite IH, <- app_assoc. reflexivity.
    + apply IH.
Qed.

Lemma infer_audio_path_find w ts_path :
  infer_audio_path w ts_path
  = match find (fun p => stem p =? candidate_base ts_path)
            (media_files w (parent ts_path)) with
    | Some p => Some p
    | None =>
        match media_files w (parent ts_path) with
        | [p] => Some p
        | _ => None
        end
    end.
Proof.
  unfold infer_audio_path. rewrite infer_loop_find.
  fold (candidate_base ts_path). unfold media_files.
  destruct (find _ _); reflexivity.
Qed.

(** X8.  [infer_audio_path] returns the first recognised media file of the
    directory whose stem is the candidate; when there is none, the only
    recognised media file if there is exactly one; nothing otherwise. *)
Theorem infer_audio_path_first_match w ts_path :
  infer_audio_path w ts_path
  = match find (fun p => stem p =? candidate_base ts_path)
            (media_files w (parent ts_path)) with
    | Some p => Some p
    | None =>
        match media_files w (parent ts_path) with
        | [p] => Some p
        | _ => None
        end
    end.
Proof. apply infer_audio_path_find. Qed.

(** X9.  Whatever [infer_audio_path] returns is an entry of the directory
    of the timestamps that is a regular file with a recognised media
    extension (so never the CSV itself). *)
Theorem infer_audio_path_sound w ts_path p :
  infer_audio_path w ts_path = Some p ->
  In p (children w (parent ts_path))
  /\ is_file w p = true
  /\ in_exts (lower (suffix p)) = true.
Proof.
  rewrite infer_audio_path_find. intros H.
  assert (Hin : In p (media_files w (parent ts_path))).
  { destruct (find _ _) as [q | ] eqn:E.
    - injection H as <-. apply find_some in E. apply E.
    - destruct (media_files w (parent ts_path)) as [ | q [ | ]];
        try discriminate H.
      injection H as <-. left. reflexivity. }
  unfold media_files in Hin. apply filter_In in Hin.
  destruct Hin as [H1 H2]. apply andb_true_iff in H2. tauto.
Qed.

Lemma infer_audio_path_sound_witness :
  In {| parent := "rec"; name := "talk.WAV" |}
    (children one_recording (parent (Path "rec/cuts.csv")))
  /\ is_file one_recording {| parent := "rec"; name := "talk.WAV" |} = true
  /\ in_exts (lower (suffix {| parent := "rec"; name := "talk.WAV" |})) = true.
Proof.
  apply (infer_audio_path_sound one_recording (Path "rec/cuts.csv")).
  vm_compute. reflexivity.
Defined.

(** X10.  When the directory holds exactly one recognised media file,
    [infer_audio_path] returns it, whatever the timestamps file is
    called. *)
Theorem infer_audio_path_single w ts_path p :
  media_files w (parent ts_path) = [p] ->
  infer_audio_path w ts_path = Some p.
Proof.
  intros H. rewrite infer_audio_path_find, H. cbn [find].
  destruct (stem p =? candidate_base ts_path); reflexivity.
Qed.

Lemma infer_audio_path_single_witness :
  infer_audio_path one_recording (Path "rec/cuts.csv")
  = Some {| parent := "rec"; name := "talk.WAV" |}.
Proof.
  apply (infer_audio_path_single one_recording (Path "rec/cuts.csv")).
  vm_compute. reflexivity.
Defined.

End InferFacts.

(** ** The runs of the CSV-driven splitter *)

Section CsvMainFacts.
Import SplitByCsv.

Lemma bind_exit {A B : Type} tr c (k : A -> io B) :
  bind (tr, SysExit c) k = (tr, SysExit c).
Proof. reflexivity. Qed.

Lemma bind_return {A B : Type} tr (a : A) (k : A -> io B) :
  bind (tr, Return a) k = (tr ++ fst (k a), snd (k a)).
Proof. unfold bind. destruct (k a); reflexivity. Qed.

Lemma export_segment_cases w input_path s e out_path :
  export_segment w input_path s e out_path
  = if (returncode w (export_cmd input_path s e out_path) =? 0)%Z
    then ([Run (export_cmd input_path s e out_path)], Return tt)
    else ([Run (export_cmd input_path s e out_path);
           Stdout (MsgExportFailed out_path)], SysExit 1%Z).
Proof.
  unfold export_segment, run. fold (export_cmd input_path s e out_path).
  rewrite bind_return. cbn [fst snd].
  destruct (_ =? 0)%Z; reflexivity.
Qed.

Lemma export_cmds_length input_path outdir base ext segments : forall idx,
  List.length (export_cmds input_path outdir base ext segments idx)
  = List.length segments.
Proof.
  induction segments as [ | [s e] rest IH]; intros idx; [reflexivity |].
  cbn [export_cmds List.length]. f_equal. apply IH.
Qed.

Lemma export_loop_result w input_path outdir base ext segments : forall idx,
  export_result w (export_cmds input_path outdir base ext segments idx)
    (export_loop w false input_path outdir base ext segments idx).
Proof.
  induction segments as [ | [s e] rest IH]; intros idx.
  - unfold export_result. cbn. split; [reflexivity | constructor].
  - cbn [export_loop export_cmds].
    rewrite export_segment_cases.
    set (cmd := export_cmd input_path s e
                  (joinpath outdir (segment_name base ext idx))).
    destruct (returncode w cmd =? 0)%Z eqn:Erc.
    + apply Z.eqb_eq in Erc.
      specialize (IH (idx + 1)%Z). unfold export_result in *.
      destruct (export_loop w false input_path outdir base ext rest (idx + 1))
        as [tr out].
      unfold trace, print, emit, bind in *. cbn [fst snd app commands] in *.
      destruct out as [[] | c | ]; cbn [fst snd app commands].
      * destruct IH as [IH1 IH2]. split.
        -- f_equal. exact IH1.
        -- constructor; assumption.
      * destruct IH as (-> & ok & bad & rest' & E1 & E2 & Hok & Hbad).
        split; [reflexivity |].
        exists (cmd :: ok), bad, rest'. rewrite E1, E2. repeat split.
        -- constructor; assumption.
        -- exact Hbad.
      * exact IH.
    + apply Z.eqb_neq in Erc. rewrite !bind_exit.
      unfold export_result, trace. cbn [fst snd app commands].
      split; [reflexivity |].
      exists [], cmd, (export_cmds input_path outdir base ext rest (idx + 1)).
      repeat split.
      * constructor.
      * exact Erc.
Qed.

Lemma check_tools_cases w :
  check_tools w
  = if which w "ffmpeg" then
      if which w "ffprobe" then ([Which "ffmpeg"; Which "ffprobe"], Return tt)
      else ([Which "ffmpeg"; Which "ffprobe"; Stdout MsgToolsMissing],
            SysExit 1%Z)
    else ([Which "ffmpeg"; Stdout MsgToolsMissing], SysExit 1%Z).
Proof.
  unfold check_tools.
  destruct (which w "ffmpeg"), (which w "ffprobe"); reflexivity.
Qed.

(** X11.  The export loop runs the commands of the segments in order and
    stops at the first one that fails: either every command was run and
    succeeded, or the last command run is the only one that failed, no
    command after it was run, and the process exits with status 1. *)
Theorem export_loop_stops_at_failure w input_path outdir base ext segments idx :
  export_result w (export_cmds input_path outdir base ext segments idx)
    (export_loop w false input_path outdir base ext segments idx).
Proof. apply export_loop_result. Qed.



(** The run of [main] once the timestamps are read, the input is known
    and the tools are there. *)
Lemma main_export_run a w raw input_path :
  dry_run a = false ->
  path_exists w (Path (timestamps a)) = true ->
  parse_timestamps (read_text w (Path (timestamps a))) = Some raw ->
  (if given (input a) then option_map Path (input a)
   else infer_audio_path w (Path (timestamps a))) = Some input_path ->
  path_exists w input_path = true ->
  which w "ffmpeg" = true -> which w "ffprobe" = true ->
  let outdir := joinpath (Path (output_dir a)) (stem input_path) in
  let loop := export_loop w false input_path outdir (stem input_path)
                (lower (suffix input_path)) (valid_segments (min_seg a) raw)
                (start_index a) in
  commands (trace (main a w)) = commands (trace loop)
  /\ snd (main a w) = snd loop.
Proof.
  intros Hdry Hts Hraw Hin Hip Hf1 Hf2. cbv zeta. unfold main.
  rewrite Hdry, Hts, Hraw. cbn [negb andb]. rewrite Hin, Hip. cbn [negb].
  rewrite check_tools_cases, Hf1, Hf2.
  destruct (export_loop _ _ _ _ _ _ _ _) as [tr out].
  unfold trace, print, emit, bind. cbn [fst snd app commands].
  destruct out; split; reflexivity.
Qed.

(** X13.  A run that is not a dry run and returns, on a timestamps file
    within the reader's limit, has run exactly the commands of the valid
    segments of that file, in order, one per segment, and each of them
    succeeded.  The commands cut the file named by [--input] when one is
    named, and else the one inferred from the path of the timestamps. *)
Theorem main_exports_every_segment a w :
  dry_run a = false ->
  within_field_limit (read_text w (Path (timestamps a))) = true ->
  snd (main a w) = Return tt ->
  exists raw input_path,
    parse_timestamps (read_text w (Path (timestamps a))) = Some raw
    /\ (if given (input a) then option_map Path (input a)
        else infer_audio_path w (Path (timestamps a))) = Some input_path
    /\ commands (trace (main a w))
       = export_cmds input_path
           (joinpath (Path (output_dir a)) (stem input_path))
           (stem input_path) (lower (suffix input_path))
           (valid_segments (min_seg a) raw) (start_index a)
    /\ List.length (commands (trace (main a w)))
       = List.length (valid_segments (min_seg a) raw)
    /\ Forall (fun cmd => returncode w cmd = 0%Z) (commands (trace (main a w))).
Proof.
  intros Hdry _ Hret.
  destruct (path_exists w (Path (timestamps a))) eqn:Hts;
    [| unfold main in Hret; rewrite Hts in Hret; discriminate Hret].
  destruct (parse_timestamps_some (read_text w (Path (timestamps a))))
    as (raw & Hraw).
  destruct (if given (input a) then option_map Path (input a)
            else infer_audio_path w (Path (timestamps a)))
    as [input_path | ] eqn:Hin;
    [| unfold main in Hret; rewrite Hdry, Hts, Hraw in Hret;
       cbn [negb andb] in Hret; rewrite Hin in Hret; discriminate Hret].
  destruct (path_exists w input_path) eqn:Hip;
    [| unfold main in Hret; rewrite Hdry, Hts, Hraw in Hret;
       cbn [negb andb] in Hret; rewrite Hin, Hip in Hret; discriminate Hret].
  destruct (which w "ffmpeg") eqn:Hf1;
    [| unfold main in Hret; rewrite Hdry, Hts, Hraw in Hret;
       cbn [negb andb] in Hret; rewrite Hin, Hip in Hret;
       rewrite check_tools_cases, Hf1 in Hret; discriminate Hret].
  destruct (which w "ffprobe") eqn:Hf2;
    [| unfold main in Hret; rewrite Hdry, Hts, Hraw in Hret;
       cbn [negb andb] in Hret; rewrite Hin, Hip in Hret;
       rewrite check_tools_cases, Hf1, Hf2 in Hret; discriminate Hret].
  destruct (main_export_run a w raw input_path Hdry Hts Hraw Hin Hip Hf1 Hf2)
    as [Hc Ho].
  pose proof (export_loop_result w input_path
                (joinpath (Path (output_dir a)) (stem input_path))
                (stem input_path) (lower (suffix input_path))
                (valid_segments (min_seg a) raw) (start_index a)) as Hloop.
  unfold export_result in Hloop. rewrite <- Ho, Hret in Hloop.
  destruct Hloop as [H1 H2].
  exists raw, input_path. rewrite Hc, H1, export_cmds_length. auto.
Qed.

Lemma main_exports_every_segment_witness :
  exists raw input_path,
    parse_timestamps (read_text recordings (Path (timestamps export_args)))
    = Some raw
    /\ (if given (input export_args) then option_map Path (input export_args)
        else infer_audio_path recordings (Path (timestamps export_args)))
       = Some input_path
    /\ commands (trace (main export_args recordings))
       = export_cmds input_path
           (joinpath (Path (output_dir export_args)) (stem input_path))
           (stem input_path) (lower (suffix input_path))
           (valid_segments (min_seg export_args) raw) (start_index export_args)
    /\ List.length (commands (trace (main export_args recordings)))
       = List.length (valid_segments (min_seg export_args) raw)
    /\ Forall (fun cmd => returncode recordings cmd = 0%Z)
         (commands (trace (main export_args recordings))).
Proof.
  apply (main_exports_every_segment export_args recordings);
    vm_compute; reflexivity.
Defined.

(** X14.  A dry run that names no input only reads the timestamps: on a
    file within the reader's limit it prints the two counts and the notice
    and returns, without looking for an input and without creating
    anything. *)
Theorem main_dry_run_without_input a w :
  dry_run a = true ->
  given (input a) = false ->
  path_exists w (Path (timestamps a)) = true ->
  within_field_limit (read_text w (Path (timestamps a))) = true ->
  exists raw,
    parse_timestamps (read_text w (Path (timestamps a))) = Some raw
    /\ main a w
       = ([Stdout (MsgRead (List.length raw));
           Stdout (MsgValid (List.length (valid_segments (min_seg a) raw)));
           Stdout MsgDryRunOnly], Return tt).
Proof.
  intros Hdry Hin Hts _. unfold main. rewrite Hdry, Hin, Hts.
  destruct (parse_timestamps_some (read_text w (Path (timestamps a))))
    as (raw & ->).
  exists raw. split; reflexivity.
Qed.

Lemma main_dry_run_without_input_witness :
  exists raw,
    parse_timestamps (read_text recordings (Path (timestamps plan_only_args)))
    = Some raw
    /\ main plan_only_args recordings
       = ([Stdout (MsgRead (List.length raw));
           Stdout (MsgValid
                     (List.length (valid_segments (min_seg plan_only_args) raw)));
           Stdout MsgDryRunOnly], Return tt).
Proof.
  apply (main_dry_run_without_input plan_only_args recordings); reflexivity.
Defined.

(** X15.  A dry run that names an existing input still creates the output
    directory, [output_dir / stem], before it prints the plan: on a
    timestamps file within the reader's limit the run prints the two
    counts, creates the directory, prints its path and one planned export
    per valid segment, and returns. *)
Theorem main_dry_run_creates_directory a w input_name :
  dry_run a = true ->
  input a = Some input_name ->
  (input_name =? "")%string = false ->
  path_exists w (Path (timestamps a)) = true ->
  within_field_limit (read_text w (Path (timestamps a))) = true ->
  path_exists w (Path input_name) = true ->
  exists raw,
    parse_timestamps (read_text w (Path (timestamps a))) = Some raw
    /\ main a w
       = ([Stdout (MsgRead (List.length raw));
           Stdout (MsgValid (List.length (valid_segments (min_seg a) raw)));
           MakeDirs (joinpath (Path (output_dir a)) (stem (Path input_name)));
           Stdout (MsgOutputDir
                     (joinpath (Path (output_dir a)) (stem (Path input_name))))]
          ++ map Stdout
               (planned_lines (stem (Path input_name))
                  (lower (suffix (Path input_name)))
                  (valid_segments (min_seg a) raw) (start_index a)),
          Return tt).
Proof.
  intros Hdry Hin Hname Hts _ Hip.
  destruct (parse_timestamps_some (read_text w (Path (timestamps a))))
    as (raw & Hraw).
  exists raw. split; [exact Hraw |].
  rewrite (main_dry_run a w raw Hdry Hts Hraw). cbv zeta.
  rewrite Hin, Hname, Hip. reflexivity.
Qed.

Lemma main_dry_run_creates_directory_witness :
  exists raw,
    parse_timestamps (read_text recordings (Path (timestamps dry_run_args)))
    = Some raw
    /\ main dry_run_args recordings
       = ([Stdout (MsgRead (List.length raw));
           Stdout (MsgValid
                     (List.length (valid_segments (min_seg dry_run_args) raw)));
           MakeDirs (joinpath (Path (output_dir dry_run_args))
                       (stem (Path "rec/audio.mp3")));
           Stdout (MsgOutputDir
                     (joinpath (Path (output_dir dry_run_args))
                        (stem (Path "rec/audio.mp3"))))]
          ++ map Stdout
               (planned_lines (stem (Path "rec/audio.mp3"))
                  (lower (suffix (Path "rec/audio.mp3")))
                  (valid_segments (min_seg dry_run_args) raw)
                  (start_index dry_run_args)),
          Return tt).
Proof.
  apply (main_dry_run_creates_directory dry_run_args recordings "rec/audio.mp3");
    reflexivity.
Defined.

(** X16.  For a segment that the filter of [main] keeps, with a minimum of
    at least [0.01], the duration given to the tool is [end - start]
    itself: the floor of [export_segment] only acts on segments that
    [main] never exports. *)
Theorem valid_segment_duration min_seg segments_raw s e :
  (c001 <=? min_seg) = true ->
  In (s, e) (valid_segments min_seg segments_raw) ->
  pymax (e - s) c001 = e - s.
Proof.
  intros Hmin Hin. unfold valid_segments in Hin. apply filter_In in Hin.
  destruct Hin as [_ H]. apply andb_true_iff in H. destruct H as [_ H].
  unfold geb in H. unfold pymax, gtb.
  rewrite (leb_ltb_false _ _ (leb_trans _ _ _ Hmin H)). reflexivity.
Qed.

Lemma valid_segment_duration_witness :
  pymax (dec 20 1 - dec 10 1) c001 = dec 20 1 - dec 10 1.
Proof.
  apply (valid_segment_duration (dec 5 1) [(dec 10 1, dec 20 1)]);
    [vm_compute; reflexivity |].
  vm_compute. left. reflexivity.
Defined.

End CsvMainFacts.

(** ** The timestamps read from the tool's report *)

Section RegexFacts.
Local Open Scope string_scope.
Local Open Scope float_scope.

Lemma take_while_all f s : all_chars f (take_while f s) = true.
Proof.
  induction s as [ | c s IH]; [reflexivity |]. cbn [take_while].
  destruct (f c) eqn:E; [| reflexivity]. cbn [all_chars]. rewrite E. exact IH.
Qed.

Lemma match_at_group marker s num n :
  match_at marker s = Some (num, n) -> all_chars is_number_char num = true.
Proof.
  unfold match_at. destruct (strip_prefix marker s) as [r | ]; [| discriminate].
  destruct (_ =? ""); [discriminate |].
  intros H. injection H as <- _. apply take_while_all.
Qed.

Lemma findall_from_groups marker s : forall skip,
  Forall (fun g => all_chars is_number_char g = true)
    (findall_from marker skip s).
Proof.
  induction s as [ | c s IH]; intros skip; [constructor |].
  cbn [findall_from]. destruct skip as [ | k]; [| apply IH].
  destruct (match_at marker (String c s)) as [[num n] | ] eqn:E; [| apply IH].
  constructor; [| apply IH]. eapply match_at_group; exact E.
Qed.

Lemma number_char_token c : is_number_char c = true -> token_char c = true.
Proof. each_char c; intros H; try reflexivity; discriminate H. Qed.

Lemma split_sign_number_char c r :
  is_number_char c = true -> split_sign (String c r) = (false, String c r).
Proof. each_char c; intros H; try reflexivity; discriminate H. Qed.

(** A text that starts with a digit or a dot is neither a name of infinity
    nor of [nan]. *)
Lemma absfloatvalue_number_char c r v :
  is_number_char c = true ->
  absfloatvalue false (String c r) = Some v ->
  exists d y, v = of_decimal false d y.
Proof.
  intros H. unfold absfloatvalue.
  each_char c; try discriminate H; cbn [lower String.eqb lower_char];
    match goal with
    | |- context [if ?b then Some (Inf false) else _] =>
        let v := eval vm_compute in b in change b with v; cbv iota
    end;
    match goal with
    | |- context [if ?b then Some NaN else _] =>
        let v := eval vm_compute in b in change b with v; cbv iota
    end;
    destruct (number _) as [[[d f] rest] | ]; try discriminate;
    destruct (exponent rest) as [x | ]; try discriminate;
    intros E; injection E as <-; eauto.
Qed.

Lemma round53_nonneg p q :
  (0 < q)%Z -> (0 <= p)%Z -> (zero <=? round53 p q) = true.
Proof.
  intros Hq Hp. rewrite round53_unfold.
  pose proof (nearest53_sign_nonneg p q Hq Hp) as Hn.
  destruct (Z.leb_spec overflow_bound (Z.abs (nearest53 p q))).
  - destruct (Z.ltb_spec p 0); [lia | reflexivity].
  - apply Z.leb_le. exact Hn.
Qed.

Lemma of_decimal_nonneg d y : (zero <=? of_decimal false d y) = true.
Proof.
  unfold of_decimal. pose proof unit_scale_pos as HU.
  assert (Hm : (0 <= Z.of_N d * unit_scale)%Z)
    by (apply Z.mul_nonneg_nonneg; lia).
  destruct (0 <=? y)%Z eqn:Ey.
  - apply round53_nonneg; [lia |].
    apply Z.mul_nonneg_nonneg; [exact Hm |]. apply Z.pow_nonneg. lia.
  - apply round53_nonneg; [| exact Hm].
    apply Z.pow_pos_nonneg; lia.
Qed.

(** The conversion of a group: a number that is not negative. *)
Lemma py_float_group g v :
  all_chars is_number_char g = true -> py_float g = Some v ->
  (zero <=? v) = true.
Proof.
  intros Hg. unfold py_float.
  rewrite (strip_tokens g (all_chars_weaken _ _ g number_char_token Hg)).
  destruct g as [ | c r]; [discriminate |].
  cbn [all_chars] in Hg. apply andb_true_iff in Hg. destruct Hg as [Hc _].
  rewrite (split_sign_number_char c r Hc). intros H.
  destruct (absfloatvalue_number_char c r v Hc H) as (d & y & ->).
  apply of_decimal_nonneg.
Qed.

Lemma floats_groups groups : forall l,
  Forall (fun g => all_chars is_number_char g = true) groups ->
  floats groups = Some l ->
  Forall (fun v => (zero <=? v) = true) l.
Proof.
  induction groups as [ | g groups IH]; intros l Hg; cbn [floats].
  - intros H. injection H as <-. constructor.
  - inversion Hg as [ | ? ? Hg1 Hg2]; subst.
    destruct (py_float g) as [v | ] eqn:Ev; [| discriminate].
    destruct (floats groups) as [vs | ]; [| discriminate].
    intros H. injection H as <-. constructor.
    + eapply py_float_group; eassumption.
    + apply IH; [exact Hg2 | reflexivity].
Qed.

(** X18.  The pattern admits no sign and no letter, so every timestamp
    that [detect_silences] reads from the report of the tool, once
    converted, is a number and is not negative. *)
Theorem extracted_timestamps_nonneg marker text l :
  floats (findall marker text) = Some l ->
  Forall (fun v => (zero <=? v) = true) l.
Proof.
  apply floats_groups. apply findall_from_groups.
Qed.

Lemma extracted_timestamps_nonneg_witness :
  Forall (fun v => (zero <=? v) = true) [dec 2 0; dec 525 2].
Proof.
  apply (extracted_timestamps_nonneg "silence_start:"
           ("silence_start: 2" ++ String LF "silence_start: 5.25")).
  vm_compute. reflexivity.
Defined.

End RegexFacts.

(** ** The runs of the silence splitter *)

Section SilenceRuns.
Import SilenceScript.
Local Open Scope string_scope.
Local Open Scope float_scope.

Lemma sbind_return {A B : Type} tr (a : A) (k : A -> sio B) :
  sbind (tr, Return a) k = ((tr ++ fst (k a))%list, snd (k a)).
Proof. unfold sbind. destruct (k a); reflexivity. Qed.

Lemma sbind_assoc {A B C : Type} (m : sio A) (f : A -> sio B) (g : B -> sio C) :
  sbind (sbind m f) g = sbind m (fun x => sbind (f x) g).
Proof.
  destruct m as [tr [a | c | ]]; try reflexivity.
  unfold sbind at 2 3. destruct (f a) as [tr1 [b | c | ]]; try reflexivity.
  unfold sbind. destruct (g b) as [tr2 out]. rewrite app_assoc. reflexivity.
Qed.

Lemma lift_bind {A B : Type} (m : io A) (k : A -> io B) :
  lift (bind m k) = sbind (lift m) (fun a => lift (k a)).
Proof.
  destruct m as [tr [a | c | ]]; try reflexivity.
  unfold lift, bind, sbind. cbn [fst snd].
  destruct (k a) as [tr' out]. cbn [fst snd]. rewrite map_app. reflexivity.
Qed.

Lemma export_loop_lift w input_path outdir base ext segments : forall idx,
  export_loop w input_path outdir base ext segments idx
  = lift (SplitByCsv.export_loop w false input_path outdir base ext segments idx).
Proof.
  induction segments as [ | [s e] rest IH]; intros idx; [reflexivity |].
  cbn [export_loop SplitByCsv.export_loop].
  rewrite !lift_bind, sbind_assoc, IH. reflexivity.
Qed.

Lemma exports_lift tr : exports (map Shared tr) = commands tr.
Proof.
  induction tr as [ | [ | | | ] tr IH]; cbn [map exports commands];
    rewrite ?IH; reflexivity.
Qed.

Lemma written_lift tr : written (map Shared tr) = [].
Proof. induction tr as [ | ev tr IH]; [reflexivity | exact IH]. Qed.

Lemma in_firstn {A : Type} (x : A) n : forall l, In x (firstn n l) -> In x l.
Proof.
  induction n as [ | n IH]; intros [ | y l]; simpl; try tauto.
  intros [H | H]; [left; exact H | right; apply IH, H].
Qed.

Lemma detect_silences_cases m input_path noise_db silence :
  detect_silences m input_path noise_db silence
  = ([Capture (detect_cmd input_path noise_db silence)],
     match capture m (detect_cmd input_path noise_db silence) with
     | Some r =>
         match floats (findall "silence_start:" (cap_stderr r)),
               floats (findall "silence_end:" (cap_stderr r)) with
         | Some starts, Some ends => Return (Spec.pairing starts ends)
         | _, _ => Uncaught
         end
     | None => Uncaught
     end).
Proof.
  unfold detect_silences, capture_run.
  destruct (capture m _) as [r | ]; [| reflexivity].
  rewrite sbind_return. cbv zeta.
  destruct (floats (findall "silence_start:" _)) as [starts | ];
    [| reflexivity].
  destruct (floats (findall "silence_end:" _)) as [ends | ]; [| reflexivity].
  rewrite detect_silences_is_pairing. reflexivity.
Qed.

(** X19.  Every silence that [detect_silences] returns from a report
    starts at or after 0 and ends no earlier than it starts. *)
Theorem detected_silences_well_formed m input_path noise_db silence tr out :
  detect_silences m input_path noise_db silence = (tr, Return out) ->
  Forall (fun sil => (zero <=? fst sil) = true /\ (fst sil <=? snd sil) = true)
    out.
Proof.
  rewrite detect_silences_cases.
  destruct (capture m _) as [r | ]; [| discriminate].
  destruct (floats (findall "silence_start:" _)) as [starts | ] eqn:Es;
    [| discriminate].
  destruct (floats (findall "silence_end:" _)) as [ends | ]; [| discriminate].
  intros H. injection H as _ <-.
  destruct (pairing_facts starts ends) as (Hle & Hfst & _).
  pose proof (extracted_nonneg := floats_groups _ _
                (findall_from_groups "silence_start:" _ 0) Es).
  rewrite Forall_forall in *. intros sil Hin. split; [| apply Hle, Hin].
  apply extracted_nonneg.
  apply (in_map fst) in Hin. rewrite Hfst in Hin.
  eapply in_firstn; exact Hin.
Qed.

Lemma detected_silences_well_formed_witness :
  Forall (fun sil => (zero <=? fst sil) = true /\ (fst sil <=? snd sil) = true)
    [(dec 2 0, dec 3 0); (dec 525 2, dec 55 1)].
Proof.
  apply (detected_silences_well_formed studio (Path "rec/audio.mp3")
           (of_decimal true 350 (-1)) (dec 8 1)
           [Capture (detect_cmd (Path "rec/audio.mp3")
                       (of_decimal true 350 (-1)) (dec 8 1))]).
  vm_compute. reflexivity.
Defined.

(** X20.  The two scripts export alike: the export loop of the silence
    splitter leaves the events of the export loop of the CSV splitter (not
    in dry-run mode) on the same segments, and ends as it does. *)
Theorem export_loops_agree w input_path outdir base ext segments idx :
  export_loop w input_path outdir base ext segments idx
  = lift (SplitByCsv.export_loop w false input_path outdir base ext segments idx).
Proof. apply export_loop_lift. Qed.

End SilenceRuns.

(** ** The silence splitter from end to end *)

Section SilenceMain.
Import SilenceScript.
Local Open Scope string_scope.
Local Open Scope float_scope.

Lemma check_tools_run w :
  check_tools w
  = if which w "ffmpeg" then
      if which w "ffprobe"
      then ([Shared (Which "ffmpeg"); Shared (Which "ffprobe")], Return tt)
      else ([Shared (Which "ffmpeg"); Shared (Which "ffprobe");
             Shared (Stdout MsgToolsMissing)], SysExit 1%Z)
    else ([Shared (Which "ffmpeg"); Shared (Stdout MsgToolsMissing)],
          SysExit 1%Z).
Proof.
  unfold check_tools.
  destruct (which w "ffmpeg"), (which w "ffprobe"); reflexivity.
Qed.

Lemma probe_duration_run a m :
  probe_duration m (Path (input a))
  = match probe_of a m with
    | None => ([Capture (probe_cmd (Path (input a)))], Uncaught)
    | Some _ =>
        if probe_ok a m then
          ([Capture (probe_cmd (Path (input a)))],
           match probed_duration a m with
           | Some d => Return d
           | None => Uncaught
           end)
        else ([Capture (probe_cmd (Path (input a))); Say MsgNoDuration],
              SysExit 1%Z)
    end.
Proof.
  unfold probe_duration, capture_run, probe_ok, probed_duration, probe_of.
  destruct (capture m _) as [r | ]; [| reflexivity].
  rewrite sbind_return.
  destruct (cap_returncode _ =? 0)%Z; [| reflexivity].
  destruct (strip _ =? ""); [reflexivity |]. cbn [negb orb andb].
  destruct (py_float _); reflexivity.
Qed.

Lemma reported_silences_pairing a m silences :
  reported_silences a m = Some silences ->
  exists text starts ends,
    report_of a m = Some text
    /\ floats (findall "silence_start:" text) = Some starts
    /\ floats (findall "silence_end:" text) = Some ends
    /\ silences = Spec.pairing starts ends.
Proof.
  unfold reported_silences.
  destruct (report_of a m) as [text | ]; [| discriminate].
  destruct (floats (findall "silence_start:" text)) as [starts | ] eqn:Es;
    [| discriminate].
  destruct (floats (findall "silence_end:" text)) as [ends | ] eqn:Ee;
    [| discriminate].
  rewrite detect_silences_is_pairing. intros H. injection H as <-.
  exists text, starts, ends. repeat split; assumption.
Qed.

Lemma detect_silences_run a m :
  detect_silences m (Path (input a)) (threshold a) (min_silence a)
  = ([Capture (detect_cmd (Path (input a)) (threshold a) (min_silence a))],
     match reported_silences a m with
     | Some silences => Return silences
     | None => Uncaught
     end).
Proof.
  rewrite detect_silences_cases. unfold reported_silences, report_of.
  destruct (capture m _) as [r | ]; cbn [option_map]; [| reflexivity].
  destruct (floats (findall "silence_start:" _)) as [starts | ];
    [| reflexivity].
  destruct (floats (findall "silence_end:" _)) as [ends | ]; [| reflexivity].
  rewrite detect_silences_is_pairing. reflexivity.
Qed.

Lemma changes_acts tr : existsb acts tr = false -> existsb changes tr = false.
Proof.
  induction tr as [ | e tr IH]; [reflexivity |]. cbn [existsb].
  intros H. apply orb_false_iff in H. destruct H as [He Htr].
  rewrite (IH Htr). destruct e as [[ | | | ] | | | ]; try reflexivity;
    discriminate He.
Qed.

(** The stages of a run: the checks, the probe, the numbers, the
    export. *)
Lemma main_run a m :
  let w := files m in
  let input_path := Path (input a) in
  let base := stem input_path in
  let outdir := joinpath (Path (output_dir a)) base in
  let tr := fst (main a m) in
  let out := snd (main a m) in
  if negb (path_exists w input_path && tools_found w)
  then out = SysExit 1%Z /\ existsb acts tr = false
  else if negb (answered a m)
  then out = Uncaught /\ existsb changes tr = false
  else if negb (probe_ok a m)
  then out = SysExit 1%Z /\ existsb changes tr = false
  else
    match planned_segments a m with
    | None => out = Uncaught /\ existsb changes tr = false
    | Some segments =>
        let loop :=
          SplitByCsv.export_loop w false input_path outdir base
            (lower (suffix input_path)) segments (start_index a) in
        out = snd loop
        /\ written tr
           = [(joinpath outdir (base ++ "_segments.csv"),
               SplitBySilence.write_timestamps segments)]
        /\ exports tr = commands (trace loop)
    end.
Proof.
  cbv zeta. unfold main, tools_found.
  destruct (path_exists (files m) (Path (input a))); cbn [negb andb];
    [| split; reflexivity].
  rewrite check_tools_run.
  destruct (which (files m) "ffmpeg"); cbn [negb andb]; [| split; reflexivity].
  destruct (which (files m) "ffprobe"); cbn [negb andb]; [| split; reflexivity].
  rewrite sbind_return, probe_duration_run. cbn [fst snd]. unfold answered.
  destruct (probe_of a m) as [r | ]; cbn [negb]; [| split; reflexivity].
  destruct (probe_ok a m); cbn [negb]; [| split; reflexivity].
  unfold planned_segments.
  destruct (probed_duration a m) as [duration | ]; [| split; reflexivity].
  rewrite sbind_return, detect_silences_run. cbn [fst snd].
  destruct (reported_silences a m) as [silences | ]; [| split; reflexivity].
  rewrite sbind_return. rewrite export_loop_lift.
  destruct (SplitByCsv.export_loop _ _ _ _ _ _ _ _) as [ltr lout].
  unfold write_timestamps, say, effect_of, lift, sbind, trace.
  cbn [fst snd app written exports].
  destruct lout; cbn [fst snd app written exports];
    rewrite ?written_lift, ?exports_lift; repeat split.
Qed.

(** X21.  The silence splitter reaches for the tools and changes the file
    system only after its checks: whenever a run captures a command, runs
    an export, creates a directory or writes a file, the input exists and
    both tools were found. *)
Theorem main_checks_first a m :
  existsb acts (fst (main a m)) = true ->
  path_exists (files m) (Path (input a)) = true
  /\ tools_found (files m) = true.
Proof.
  intros Hacts. pose proof (main_run a m) as H. cbv zeta in H.
  destruct (path_exists (files m) (Path (input a))),
           (tools_found (files m)); cbn [negb andb] in H;
    try (destruct H as [_ H]; congruence).
  split; reflexivity.
Qed.

Lemma main_checks_first_witness :
  path_exists (files studio) (Path (input studio_args)) = true
  /\ tools_found (files studio) = true.
Proof.
  apply (main_checks_first studio_args studio). vm_compute. reflexivity.
Defined.

(** X22.  Nothing is created, written or exported unless [ffprobe]
    succeeded with an answer that is not blank and the duration and every
    timestamp of the report could be converted. *)
Theorem main_changes_after_reading a m :
  existsb changes (fst (main a m)) = true ->
  probe_ok a m = true
  /\ exists segments, planned_segments a m = Some segments.
Proof.
  intros Hch. pose proof (main_run a m) as H. cbv zeta in H.
  destruct (negb (_ && _)).
  { destruct H as [_ H]. apply changes_acts in H. congruence. }
  destruct (answered a m); cbn [negb] in H;
    [| destruct H as [_ H]; congruence].
  destruct (probe_ok a m); cbn [negb] in H;
    [| destruct H as [_ H]; congruence].
  destruct (planned_segments a m) as [segments | ];
    [| destruct H as [_ H]; congruence].
  split; [reflexivity | exists segments; reflexivity].
Qed.

Lemma main_changes_after_reading_witness :
  probe_ok studio_args studio = true
  /\ exists segments, planned_segments studio_args studio = Some segments.
Proof.
  apply (main_changes_after_reading studio_args studio). vm_compute. reflexivity.
Defined.

(** X23.  A run whose checks pass does not catch what goes wrong while
    it reads the tools: when the answer of [ffprobe] cannot be decoded, or
    is there but is no number, or when the report of the silence filter
    cannot be decoded or holds a timestamp that is no number, the exception
    ends the run, before anything is created, written or exported. *)
Theorem main_unreadable_answer_uncaught a m :
  path_exists (files m) (Path (input a)) = true ->
  tools_found (files m) = true ->
  answered a m = false
  \/ (probe_ok a m = true /\ planned_segments a m = None) ->
  snd (main a m) = Uncaught
  /\ existsb changes (fst (main a m)) = false.
Proof.
  intros He Ht Hbad. pose proof (main_run a m) as H. cbv zeta in H.
  rewrite He, Ht in H. cbn [andb negb] in H.
  destruct Hbad as [Hn | [Hok Hp]].
  - rewrite Hn in H. exact H.
  - assert (Ha : answered a m = true).
    { unfold answered. unfold probe_ok in Hok.
      destruct (probe_of a m); [reflexivity | discriminate Hok]. }
    rewrite Ha, Hok, Hp in H. exact H.
Qed.

Lemma main_unreadable_answer_uncaught_witness :
  snd (main studio_args unprobed) = Uncaught
  /\ existsb changes (fst (main studio_args unprobed)) = false.
Proof.
  apply (main_unreadable_answer_uncaught studio_args unprobed).
  - reflexivity.
  - reflexivity.
  - right. vm_compute. split; reflexivity.
Defined.

End SilenceMain.

(** ** The timestamps file of the silence splitter, and splitting again
       from it *)

Section Resplit.
Import SilenceScript.
Local Open Scope string_scope.
Local Open Scope float_scope.

Lemma written_changes tr : existsb changes tr = false -> written tr = [].
Proof.
  induction tr as [ | e tr IH]; [reflexivity |]. cbn [existsb].
  intros H. apply orb_false_iff in H. destruct H as [He Htr].
  destruct e as [[ | | | ] | | | ]; cbn [written]; try (apply IH, Htr);
    discriminate He.
Qed.

(** What [write_timestamps] writes, [parse_timestamps] reads back rounded. *)
Lemma parse_write_timestamps segments :
  SplitByCsv.parse_timestamps (SplitBySilence.write_timestamps segments)
  = Some (map SplitBySilence.round_interval segments).
Proof.
  unfold SplitByCsv.parse_timestamps, SplitBySilence.write_timestamps,
    file_lines, csv_reader.
  rewrite write_timestamps_joined. cbn [append].
  rewrite (universal_newlines_id _ (joined_lines_plain segments)).
  rewrite split_joined_lines, records_timestamp_lines. cbn [option_map].
  rewrite parse_rows_timestamp_rows. reflexivity.
Qed.

Lemma map_fixed {A : Type} (f : A -> A) l :
  Forall (fun x => f x = x) l -> map f l = l.
Proof.
  induction 1 as [ | x l Hx Hl IH]; [reflexivity |].
  cbn [map]. rewrite Hx, IH. reflexivity.
Qed.

Lemma build_segments_rounded silences D :
  Forall (fun seg => SplitBySilence.round_interval seg = seg)
    (SplitBySilence.build_segments silences D).
Proof.
  unfold SplitBySilence.build_segments. rewrite Forall_forall.
  intros seg H. apply in_map_iff in H. destruct H as [[a b] [<- _]].
  cbn [SplitBySilence.round_interval]. rewrite !round3_idempotent. reflexivity.
Qed.

Lemma forall_filter {A : Type} (P : A -> Prop) f l :
  Forall P l -> Forall P (filter f l).
Proof.
  rewrite !Forall_forall. intros H x Hx. apply filter_In in Hx. apply H, Hx.
Qed.

(** The planned segments are those of [build_segments] on well-formed
    silences, filtered. *)
Lemma planned_segments_built a m segments :
  planned_segments a m = Some segments ->
  exists silences duration,
    Forall (fun sil => (fst sil <=? snd sil) = true) silences
    /\ segments
       = kept_segments (min_seg a)
           (SplitBySilence.build_segments silences duration).
Proof.
  unfold planned_segments.
  destruct (probed_duration a m) as [duration | ]; [| discriminate].
  destruct (reported_silences a m) as [silences | ] eqn:Es; [| discriminate].
  intros H. injection H as <-.
  destruct (reported_silences_pairing a m silences Es)
    as (text & starts & ends & _ & _ & _ & ->).
  exists (Spec.pairing starts ends), duration. split; [| reflexivity].
  apply (pairing_facts starts ends).
Qed.

Lemma planned_segments_read_back a m segments :
  planned_segments a m = Some segments ->
  SplitByCsv.parse_timestamps (SplitBySilence.write_timestamps segments)
  = Some segments.
Proof.
  intros H. destruct (planned_segments_built a m segments H)
    as (silences & duration & _ & ->).
  rewrite parse_write_timestamps. f_equal. apply map_fixed.
  apply forall_filter, build_segments_rounded.
Qed.

(** X24.  The timestamps file that a run writes can always be read back
    by [parse_timestamps] of the CSV splitter, and gives exactly the
    segments the run exports: they are ordered, each starts at or after 0
    and each is at least the minimum long. *)
Theorem written_timestamps_read_back a m p text :
  In (p, text) (written (fst (main a m))) ->
  exists segments,
    planned_segments a m = Some segments
    /\ SplitByCsv.parse_timestamps text = Some segments
    /\ ordered segments = true
    /\ Forall (fun seg => (zero <=? fst seg) = true
                          /\ (snd seg - fst seg >=? min_seg a) = true)
         segments.
Proof.
  intros Hin. pose proof (main_run a m) as H. cbv zeta in H.
  destruct (negb (_ && _)).
  { destruct H as [_ H]. apply changes_acts, written_changes in H.
    rewrite H in Hin. destruct Hin. }
  destruct (negb (answered a m)).
  { destruct H as [_ H]. apply written_changes in H.
    rewrite H in Hin. destruct Hin. }
  destruct (negb (probe_ok a m)).
  { destruct H as [_ H]. apply written_changes in H.
    rewrite H in Hin. destruct Hin. }
  destruct (planned_segments a m) as [segments | ] eqn:Ep.
  2: { destruct H as [_ H]. apply written_changes in H.
       rewrite H in Hin. destruct Hin. }
  destruct H as (_ & Hw & _). rewrite Hw in Hin.
  destruct Hin as [Hin | []]. injection Hin as _ <-.
  exists segments. split; [reflexivity |].
  split; [apply (planned_segments_read_back a m), Ep |].
  destruct (planned_segments_built a m segments Ep)
    as (silences & duration & Hs & ->).
  split.
  - apply chain_ordered, chain_filter, build_segments_chain, Hs.
  - rewrite Forall_forall. intros [s e] Hseg.
    apply filter_In in Hseg. destruct Hseg as [Hb Hk]. split.
    + eapply build_segments_start; exact Hb.
    + exact Hk.
Qed.

Lemma written_timestamps_read_back_witness :
  exists segments,
    planned_segments studio_args studio = Some segments
    /\ SplitByCsv.parse_timestamps
         ("0.000,2.000" ++ String LF "3.000,5.250" ++ String LF
          "5.500,10.000" ++ String LF "")
       = Some segments
    /\ ordered segments = true
    /\ Forall (fun seg => (zero <=? fst seg) = true
                          /\ (snd seg - fst seg >=? min_seg studio_args) = true)
         segments.
Proof.
  apply (written_timestamps_read_back studio_args studio
           {| parent := "out/audio"; name := "audio_segments.csv" |}).
  vm_compute. left. reflexivity.
Defined.

(** X25.  A run that returns has written one timestamps file,
    [<stem>_segments.csv] in the output directory, and has exported the
    segments listed in it, in order, one command each, every command
    successful. *)
Theorem main_exports_planned_segments a m :
  snd (main a m) = Return tt ->
  exists segments,
    planned_segments a m = Some segments
    /\ written (fst (main a m))
       = [(joinpath (joinpath (Path (output_dir a)) (stem (Path (input a))))
             (stem (Path (input a)) ++ "_segments.csv"),
           SplitBySilence.write_timestamps segments)]
    /\ exports (fst (main a m))
       = export_cmds (Path (input a))
           (joinpath (Path (output_dir a)) (stem (Path (input a))))
           (stem (Path (input a))) (lower (suffix (Path (input a))))
           segments (start_index a)
    /\ Forall (fun cmd => returncode (files m) cmd = 0%Z)
         (exports (fst (main a m))).
Proof.
  intros Hout. pose proof (main_run a m) as H. cbv zeta in H. rewrite Hout in H.
  destruct (negb (_ && _)); [destruct H as [H _]; discriminate H |].
  destruct (negb (answered a m)); [destruct H as [H _]; discriminate H |].
  destruct (negb (probe_ok a m)); [destruct H as [H _]; discriminate H |].
  destruct (planned_segments a m) as [segments | ];
    [| destruct H as [H _]; discriminate H].
  destruct H as (Ho & Hw & He).
  pose proof (export_loop_result (files m) (Path (input a))
                (joinpath (Path (output_dir a)) (stem (Path (input a))))
                (stem (Path (input a))) (lower (suffix (Path (input a))))
                segments (start_index a)) as Hloop.
  unfold export_result in Hloop. rewrite <- Ho in Hloop.
  destruct Hloop as [H1 H2].
  exists segments. rewrite Hw, He, H1. auto.
Qed.

Lemma main_exports_planned_segments_witness :
  exists segments,
    planned_segments studio_args studio = Some segments
    /\ written (fst (main studio_args studio))
       = [(joinpath (joinpath (Path (output_dir studio_args))
                       (stem (Path (input studio_args))))
             (stem (Path (input studio_args)) ++ "_segments.csv"),
           SplitBySilence.write_timestamps segments)]
    /\ exports (fst (main studio_args studio))
       = export_cmds (Path (input studio_args))
           (joinpath (Path (output_dir studio_args))
              (stem (Path (input studio_args))))
           (stem (Path (input studio_args)))
           (lower (suffix (Path (input studio_args))))
           segments (start_index studio_args)
    /\ Forall (fun cmd => returncode (files studio) cmd = 0%Z)
         (exports (fst (main studio_args studio))).
Proof.
  apply (main_exports_planned_segments studio_args studio).
  vm_compute. reflexivity.
Defined.

(** A difference that reaches a positive bound comes from a larger
    minuend. *)
Lemma sub_ge_pos x y c :
  (zero <? c) = true -> (c <=? y - x) = true -> (x <? y) = true.
Proof.
  intros Hc H.
  destruct x as [ | [ | ] | a ], y as [ | [ | ] | b ]; simpl in *;
    try reflexivity;
    try (apply leb_not_nan_r in H; discriminate);
    try (destruct c as [ | [ | ] | ]; simpl in *; congruence).
  apply Z.ltb_lt.
  destruct (Z.lt_ge_cases a b) as [ | Hge]; [assumption | exfalso].
  pose proof (round53_mono (b - a) 0 1 ltac:(lia) ltac:(lia)) as Hm.
  rewrite round53_zero in Hm.
  pose proof (leb_trans _ _ _ H Hm) as H0.
  destruct c as [ | [ | ] | k ]; simpl in *; try congruence.
  rewrite Z.ltb_lt in Hc. rewrite Z.leb_le in H0. lia.
Qed.

(** With a positive minimum, what the silence splitter keeps passes the
    filter of the CSV splitter. *)
Lemma valid_kept_segments min segments_all :
  (zero <? min) = true ->
  SplitByCsv.valid_segments min (kept_segments min segments_all)
  = kept_segments min segments_all.
Proof.
  intros Hmin. unfold SplitByCsv.valid_segments, kept_segments.
  induction segments_all as [ | [s e] rest IH]; [reflexivity |].
  cbn [filter]. destruct (e - s >=? min) eqn:E; [| exact IH].
  cbn [filter]. rewrite E, IH.
  unfold gtb. rewrite (sub_ge_pos s e min Hmin E). reflexivity.
Qed.

Lemma export_loop_same_codes w w' dry input_path outdir base ext segments :
  (forall cmd, returncode w' cmd = returncode w cmd) ->
  forall idx,
    SplitByCsv.export_loop w' dry input_path outdir base ext segments idx
    = SplitByCsv.export_loop w dry input_path outdir base ext segments idx.
Proof.
  intros Hrc. induction segments as [ | [s e] rest IH]; intros idx;
    [reflexivity |].
  cbn [SplitByCsv.export_loop]. rewrite IH, !export_segment_cases, Hrc.
  reflexivity.
Qed.

Lemma path_eqb_refl p : path_eqb p p = true.
Proof. unfold path_eqb. rewrite !String.eqb_refl. reflexivity. Qed.

(** X26.  Splitting again from the timestamps file reproduces the
    exports.  When a run of the silence splitter with a positive minimum
    returns, the CSV splitter, given the file written (wherever it is
    stored), the same input, output directory, minimum and start index,
    runs exactly the same commands and returns. *)
Theorem resplit_reproduces_exports a m p text ts :
  snd (main a m) = Return tt ->
  In (p, text) (written (fst (main a m))) ->
  (zero <? min_seg a) = true ->
  (input a =? "") = false ->
  let w' := with_file (files m) (Path ts) text in
  commands (trace (SplitByCsv.main (resplit_args a ts) w'))
  = exports (fst (main a m))
  /\ snd (SplitByCsv.main (resplit_args a ts) w') = Return tt.
Proof.
  intros Hout Hin Hmin Hinput w'.
  pose proof (main_run a m) as H. cbv zeta in H. rewrite Hout in H.
  destruct (path_exists (files m) (Path (input a))) eqn:Hex;
    [| destruct H as [H _]; discriminate H].
  destruct (tools_found (files m)) eqn:Htools;
    [| destruct H as [H _]; discriminate H].
  cbn [andb negb] in H.
  destruct (negb (answered a m)); [destruct H as [H _]; discriminate H |].
  destruct (negb (probe_ok a m)); [destruct H as [H _]; discriminate H |].
  destruct (planned_segments a m) as [segments | ] eqn:Ep;
    [| destruct H as [H _]; discriminate H].
  destruct H as (Ho & Hw & He).
  rewrite Hw in Hin. destruct Hin as [Hin | []]. injection Hin as _ <-.
  unfold tools_found in Htools. apply andb_true_iff in Htools.
  destruct Htools as [Hf1 Hf2].
  assert (Hgiven : SplitByCsv.given (Some (input a)) = true).
  { cbn [SplitByCsv.given]. rewrite Hinput. reflexivity. }
  destruct (main_export_run (resplit_args a ts) w' segments (Path (input a)))
    as [Hc Hs].
  - reflexivity.
  - cbn [resplit_args SplitByCsv.timestamps w' with_file path_exists].
    rewrite path_eqb_refl. reflexivity.
  - cbn [resplit_args SplitByCsv.timestamps w' with_file read_text].
    rewrite path_eqb_refl. apply (planned_segments_read_back a m), Ep.
  - cbn [resplit_args SplitByCsv.input]. rewrite Hgiven. reflexivity.
  - cbn [w' with_file path_exists]. rewrite Hex. apply orb_true_r.
  - exact Hf1.
  - exact Hf2.
  - cbv zeta in Hc, Hs.
    cbn [resplit_args SplitByCsv.output_dir SplitByCsv.min_seg
         SplitByCsv.start_index] in Hc, Hs.
    destruct (planned_segments_built a m segments Ep)
      as (silences & duration & _ & Eseg).
    rewrite Eseg, (valid_kept_segments _ _ Hmin), <- Eseg in Hc, Hs.
    rewrite (export_loop_same_codes (files m) w') in Hc, Hs
      by (intros cmd; reflexivity).
    rewrite Hc, Hs, He, <- Ho. split; reflexivity.
Qed.

Lemma resplit_reproduces_exports_witness :
  commands
    (trace (SplitByCsv.main (resplit_args studio_args "out/audio/audio_segments.csv")
              (with_file (files studio) (Path "out/audio/audio_segments.csv")
                 ("0.000,2.000" ++ String LF "3.000,5.250" ++ String LF
                  "5.500,10.000" ++ String LF ""))))
  = exports (fst (main studio_args studio))
  /\ snd (SplitByCsv.main (resplit_args studio_args "out/audio/audio_segments.csv")
            (with_file (files studio) (Path "out/audio/audio_segments.csv")
               ("0.000,2.000" ++ String LF "3.000,5.250" ++ String LF
                "5.500,10.000" ++ String LF "")))
     = Return tt.
Proof.
  apply (resplit_reproduces_exports studio_args studio
           {| parent := "out/audio"; name := "audio_segments.csv" |}
           ("0.000,2.000" ++ String LF "3.000,5.250" ++ String LF
            "5.500,10.000" ++ String LF "")
           "out/audio/audio_segments.csv").
  - vm_compute. reflexivity.
  - vm_compute. left. reflexivity.
  - vm_compute. reflexivity.
  - reflexivity.
Defined.

End Resplit.

(** ** The names of the exported files *)

Section OutputNames.
Import SplitByCsv.
Local Open Scope string_scope.

Lemma append_cancel_l s t1 t2 : s ++ t1 = s ++ t2 -> t1 = t2.
Proof.
  induction s as [ | c s IH]; cbn [append]; intros H; [exact H |].
  injection H as H. apply IH, H.
Qed.

Lemma length_append s t : length (s ++ t) = (length s + length t)%nat.
Proof.
  induction s as [ | c s IH]; [reflexivity |].
  cbn [append length]. rewrite IH. reflexivity.
Qed.

Lemma append_cancel_r s1 : forall s2 t, s1 ++ t = s2 ++ t -> s1 = s2.
Proof.
  induction s1 as [ | c s1 IH]; intros [ | c' s2] t H; cbn [append] in H.
  - reflexivity.
  - apply (f_equal length) in H. cbn [length] in H.
    rewrite length_append in H. lia.
  - apply (f_equal length) in H. cbn [length] in H.
    rewrite length_append in H. lia.
  - injection H as -> H. f_equal. eapply IH, H.
Qed.

Lemma digits_tail_zeros k : forall rest cnt,
  digits_tail (zeros k ++ rest) 0 cnt = digits_tail rest 0 (cnt + Z.of_nat k).
Proof.
  induction k as [ | k IH]; intros rest cnt.
  - cbn [zeros append Z.of_nat]. rewrite Z.add_0_r. reflexivity.
  - cbn [zeros append digits_tail].
    change (digit_of "0") with (Some 0%N). cbv iota.
    change (10 * 0 + 0)%N with 0%N. rewrite IH. f_equal. lia.
Qed.

(** Read as a number, a zero-filled decimal gives the number back. *)
Lemma digits_tail_zfill width n :
  exists cnt, digits_tail (zfill width (decimal n)) 0 0 = Some (n, cnt, "").
Proof.
  unfold zfill, decimal. rewrite digits_tail_zeros.
  rewrite <- (append_nil_r (uint_digits (N.to_uint n))).
  rewrite digits_tail_uint, decimal_value. cbn [digits_tail].
  eexists. reflexivity.
Qed.

Lemma zfill_decimal_inj width a b :
  zfill width (decimal a) = zfill width (decimal b) -> a = b.
Proof.
  intros H.
  destruct (digits_tail_zfill width a) as (ca & Ha).
  destruct (digits_tail_zfill width b) as (cb & Hb).
  rewrite H, Hb in Ha. congruence.
Qed.

Lemma zfill_decimal_unsigned width n r :
  zfill width (decimal n) <> String "-" r.
Proof.
  intros H. destruct (digits_tail_zfill width n) as (cnt & Hn).
  rewrite H in Hn. cbn [digits_tail] in Hn.
  change (digit_of "-") with (@None N) in Hn.
  change ("-" =? "_")%char with false in Hn. cbv iota in Hn. discriminate Hn.
Qed.

Lemma format_03d_inj i j : format_03d i = format_03d j -> i = j.
Proof.
  unfold format_03d.
  destruct (Z.ltb_spec i 0) as [Hi | Hi], (Z.ltb_spec j 0) as [Hj | Hj];
    intros H.
  - cbn [append] in H. injection H as H. apply zfill_decimal_inj in H.
    apply (f_equal Z.of_N) in H. rewrite !N2Z.inj_abs_N in H. lia.
  - cbn [append] in H. symmetry in H.
    exfalso. exact (zfill_decimal_unsigned _ _ _ H).
  - cbn [append] in H. exfalso. exact (zfill_decimal_unsigned _ _ _ H).
  - apply zfill_decimal_inj in H.
    apply (f_equal Z.of_N) in H. rewrite !N2Z.inj_abs_N in H. lia.
Qed.

Lemma segment_name_inj base ext i j :
  segment_name base ext i = segment_name base ext j -> i = j.
Proof.
  unfold segment_name. intros H.
  apply append_cancel_l, append_cancel_l, append_cancel_r in H.
  apply format_03d_inj, H.
Qed.

Lemma segment_name_nonempty base ext i : segment_name base ext i <> "".
Proof.
  unfold segment_name. intros H. apply (f_equal length) in H.
  rewrite !length_append in H. cbn [length] in H. lia.
Qed.

Lemma path_str_join_inj outdir n1 n2 :
  n1 <> "" -> n2 <> "" ->
  path_str (joinpath outdir n1) = path_str (joinpath outdir n2) -> n1 = n2.
Proof.
  intros H1 H2. unfold joinpath. set (dir := dir_of outdir).
  unfold path_str. cbn [parent name].
  apply String.eqb_neq in H1, H2. rewrite H1, H2.
  destruct (dir =? ""); [auto |].
  destruct (endswith dir "/"); intros H.
  - apply append_cancel_l in H. exact H.
  - apply append_cancel_l, append_cancel_l in H. exact H.
Qed.

Lemma export_cmds_targets input_path outdir base ext segments : forall idx t,
  In t (map target (export_cmds input_path outdir base ext segments idx)) ->
  exists k, (idx <= k)%Z
            /\ t = Some (Lit (path_str (joinpath outdir (segment_name base ext k)))).
Proof.
  induction segments as [ | [s e] rest IH]; intros idx t; [intros [] |].
  cbn [export_cmds map]. intros [H | H].
  - exists idx. split; [lia | symmetry; exact H].
  - destruct (IH _ _ H) as (k & Hk & ->). exists k. split; [lia | reflexivity].
Qed.

(** X27.  Two different indices never give the same file name, whatever
    the stem and the extension: also below zero and above 999, where the
    number is wider than three digits. *)
Theorem segment_names_distinct base ext i j :
  i <> j -> segment_name base ext i <> segment_name base ext j.
Proof.
  intros Hij H. apply Hij. eapply segment_name_inj, H.
Qed.

Lemma segment_names_distinct_witness :
  segment_name "audio" ".mp3" 999 <> segment_name "audio" ".mp3" 1000.
Proof.
  apply (segment_names_distinct "audio" ".mp3" 999 1000). lia.
Defined.

(** X28.  The commands of one export write to pairwise different files:
    no segment of a run overwrites another one. *)
Theorem export_targets_distinct input_path outdir base ext segments idx :
  NoDup (map target (export_cmds input_path outdir base ext segments idx)).
Proof.
  revert idx. induction segments as [ | [s e] rest IH]; intros idx;
    [constructor |].
  cbn [export_cmds map]. constructor; [| apply IH].
  intros H. destruct (export_cmds_targets _ _ _ _ _ _ _ H) as (k & Hk & E).
  cbn [target export_cmd nth_error] in E.
  injection E as E.
  apply path_str_join_inj, segment_name_inj in E;
    [lia | apply segment_name_nonempty | apply segment_name_nonempty].
Qed.

End OutputNames.
